(** * Tic-tac-online: rules evaluator, turn state machine, computer
    strategies and the room server, embedded from [server.js] and
    [script.js].

    Conventions of the embedding.
    - A JavaScript board is an [Array(9)] whose cells are [null], ["X"] or
      ["O"].  It is a [list Cell] with [Cell := option Mark]; [None] is
      [null].  Reading [board[i]] is the list lookup [board !! i], whose
      outer [None] stands for JavaScript's [undefined] (index out of range).
      A write [board[i] = m] is the list update [<[i := Some m]> board]; every
      write of the source is at an index below 9 of an array of 9 cells.
    - Counters are JavaScript numbers incremented by one; they are modelled
      as unbounded integers [Z] (exact below 2^53).
    - A handler of the server takes the server state and returns the new
      state together with the list of emitted events.
    - A JavaScript string is the [string] of the bytes of its UTF-8 encoding,
      which is how a string literal is read: a character up to U+007F is one
      byte, the no-break space U+00A0 the two bytes 194 160, and so on.
    - DOM rendering is left out.  [handlePlayerMove] and
      [handleComputerMove] defer the evaluation of the board to timers; the
      flag [isProcessingMove] makes the clicks on the cells wait for them, and
      the model runs the body of such a timer at the point where it is armed.
      [creategameBoard] is modelled as it returns, with the timer that it
      arms as a result. *)

From stdpp Require Import base decidable option list gmap strings.
From Stdlib Require Import ZArith Lia.

(** ** Board model *)

Inductive Mark : Set := X | O.

#[global] Instance Mark_eq_dec : EqDecision Mark.
Proof. solve_decision. Defined.

(** [mark === "X" ? "O" : "X"] *)
Definition other (m : Mark) : Mark :=
  match m with X => O | O => X end.

Definition Cell : Set := option Mark.

Abbreviation Board := (list Cell).

(** [Array(9).fill(null)] *)
Definition emptyBoard : Board := replicate 9 None.

(** The table [wins] of [server.js] and [winningCombinations] of
    [script.js]: the same eight triples in the same order. *)
Definition winningCombinations : list (nat * nat * nat) :=
  [ (0, 1, 2); (3, 4, 5); (6, 7, 8);
    (0, 3, 6); (1, 4, 7); (2, 5, 8);
    (0, 4, 8); (2, 4, 6) ].

(** The three cells of a line all hold the mark [m]. *)
Definition line_full (board : Board) (l : nat * nat * nat) (m : Mark) : Prop :=
  let '(a, b, c) := l in
  board !! a = Some (Some m) /\ board !! b = Some (Some m) /\
  board !! c = Some (Some m).

#[global] Instance line_full_dec board l m : Decision (line_full board l m).
Proof. destruct l as [[a b] c]; simpl; apply _. Defined.

(** [board[a] && board[a] === board[b] && board[a] === board[c]], giving
    [board[a]] when the test succeeds. *)
Definition line_winner (board : Board) (l : nat * nat * nat) : option Mark :=
  let '(a, b, c) := l in
  match board !! a with
  | Some (Some m) =>
      if bool_decide (board !! b = Some (Some m)) &&
         bool_decide (board !! c = Some (Some m))
      then Some m else None
  | _ => None
  end.

(** The [for (const [a, b, c] of wins)] loop with its early return. *)
Fixpoint checkWinner_scan (wins : list (nat * nat * nat)) (board : Board)
  : option Mark :=
  match wins with
  | [] => None
  | l :: rest =>
      match line_winner board l with
      | Some m => Some m
      | None => checkWinner_scan rest board
      end
  end.

Definition checkWinner (board : Board) : option Mark :=
  checkWinner_scan winningCombinations board.

(** [board.every((cell) => cell !== null)] *)
Definition isBoardFull (board : Board) : bool :=
  forallb (fun cell : Cell => bool_decide (cell <> None)) board.

(** [board.map((value, index) => (value === null ? index : null))
         .filter((index) => index !== null)] *)
Definition getEmptyIndices (board : Board) : list nat :=
  omap id
    (imap (fun index (value : Cell) =>
             if bool_decide (value = None) then Some index else None) board).

(** [winningCombinations.some((combo) =>
       combo.every((index) => currentGameBoard[index] === player))] *)
Definition determineWinner (player : Mark) (board : Board) : bool :=
  existsb (fun combo => bool_decide (line_full board combo player))
          winningCombinations.

(** ** Minimax *)

(** The objects [{ score }] and [{ index, score }] that [minimax] returns. *)
Record Move : Set := mkMove { index : option nat; score : Z }.

(** The two selection loops of [minimax].  [bestScore] starts at
    [-Infinity] (resp. [Infinity]), written [None]; [beats s best] is
    [s > best] for the maximizer and [s < best] for the minimizer; [i] is the
    loop counter and the result is [bestMove], an index into [moves]. *)
Fixpoint selectBest (beats : Z -> Z -> bool) (moves : list Move) (i : nat)
    (bestScore : option Z) (bestMove : option nat) : option nat :=
  match moves with
  | [] => bestMove
  | mv :: rest =>
      if match bestScore with
         | None => true
         | Some best => beats (score mv) best
         end
      then selectBest beats rest (S i) (Some (score mv)) (Some i)
      else selectBest beats rest (S i) bestScore bestMove
  end.

Definition bestMoveIndex (isMaximizing : bool) (moves : list Move)
  : option nat :=
  if isMaximizing
  then selectBest (fun s best => (best <? s)%Z) moves 0 None None
  else selectBest (fun s best => (s <? best)%Z) moves 0 None None.

(** [minimax(board, depth, isMaximizing, maxPlayer)].  The source writes the
    candidate mark into [board], recurses and writes [null] back; the cell was
    [null] before, so the recursion sees the functional update.  Recursion is
    on [fuel]; [None] is the result when the fuel runs out (or when
    [moves[bestMove]] would be [undefined]). *)
Fixpoint minimax_fuel (fuel : nat) (board : Board) (depth : Z)
    (isMaximizing : bool) (maxPlayer : Mark) : option Move :=
  match fuel with
  | 0 => None
  | S fuel' =>
      let minPlayer := other maxPlayer in
      let winner := checkWinner board in
      if bool_decide (winner = Some maxPlayer)
      then Some (mkMove None (10 - depth))
      else if bool_decide (winner = Some minPlayer)
      then Some (mkMove None (depth - 10))
      else if isBoardFull board then Some (mkMove None 0)
      else
        moves ← mapM (fun i =>
                   result ← minimax_fuel fuel'
                     (<[i := Some (if isMaximizing then maxPlayer
                                   else minPlayer)]> board)
                     (depth + 1) (negb isMaximizing) maxPlayer;
                   Some (mkMove (Some i) (score result)))
                 (getEmptyIndices board);
        bestMove ← bestMoveIndex isMaximizing moves;
        moves !! bestMove
  end.

(** Every recursive call fills one empty cell, so one unit of fuel per empty
    cell and one for the call itself is enough (see [minimax_fuel_enough]). *)
Definition minimax (board : Board) (depth : Z) (isMaximizing : bool)
    (maxPlayer : Mark) : option Move :=
  minimax_fuel (S (length (getEmptyIndices board))) board depth isMaximizing
               maxPlayer.

(** ** Medium tier: critical moves *)

(** One iteration of the loop of [findCriticalMove]: the counts over the
    three positions of the line, and the inner loop returning the first
    [null] cell of the line. *)
Definition criticalInLine (board : Board) (targetPlayer : Mark) (count : nat)
    (combination : nat * nat * nat) : option nat :=
  let '(a, b, c) := combination in
  let positions := [board !! a; board !! b; board !! c] in
  let playerCount :=
    length (filter (fun position => position = Some (Some targetPlayer))
                   positions) in
  let emptyCount :=
    length (filter (fun position => position = Some None) positions) in
  if bool_decide (playerCount = count) && bool_decide (emptyCount = 1)
  then find (fun i => bool_decide (board !! i = Some None)) [a; b; c]
  else None.

Fixpoint findCriticalMove_scan (combos : list (nat * nat * nat))
    (board : Board) (targetPlayer : Mark) (count : nat) : option nat :=
  match combos with
  | [] => None
  | combination :: rest =>
      match criticalInLine board targetPlayer count combination with
      | Some i => Some i
      | None => findCriticalMove_scan rest board targetPlayer count
      end
  end.

(** [findCriticalMove(targetPlayer, count)] on [currentGameBoard]. *)
Definition findCriticalMove (board : Board) (targetPlayer : Mark)
    (count : nat) : option nat :=
  findCriticalMove_scan winningCombinations board targetPlayer count.

(** The line [l] holds the mark [m] in exactly two of its cells and its
    third cell, of index [e], is empty. *)
Definition completable (board : Board) (m : Mark) (l : nat * nat * nat)
    (e : nat) : Prop :=
  let '(a, b, c) := l in
  (e = a /\ board !! a = Some None /\ board !! b = Some (Some m)
   /\ board !! c = Some (Some m))
  \/ (e = b /\ board !! a = Some (Some m) /\ board !! b = Some None
      /\ board !! c = Some (Some m))
  \/ (e = c /\ board !! a = Some (Some m) /\ board !! b = Some (Some m)
      /\ board !! c = Some None).

(** The score that a call of [minimax] at [board] computes for the empty
    cell [j]: the one of the recursive call after the mark of the side to
    move has been written at [j]. *)
Definition subtreeScore (board : Board) (depth : Z) (isMaximizing : bool)
    (maxPlayer : Mark) (j : nat) : option Z :=
  score <$> minimax (<[j := Some (if isMaximizing then maxPlayer
                                  else other maxPlayer)]> board)
                    (depth + 1) (negb isMaximizing) maxPlayer.

(** ** The local engine ([script.js]) *)

Module Client.

Inductive GameMode : Set := pvc | pvp.
Inductive Difficulty : Set := easy | medium | hard.

#[global] Instance GameMode_eq_dec : EqDecision GameMode.
Proof. solve_decision. Defined.
#[global] Instance Difficulty_eq_dec : EqDecision Difficulty.
Proof. solve_decision. Defined.

(** [gameStatistics] *)
Record Statistics : Set := mkStatistics {
  player : Z; computer : Z; playerX : Z; playerO : Z;
  draws : Z; totalGames : Z }.

(** The global variables of the script that the engine reads or writes.
    [socket] records whether the variable [socket] is non-null. *)
Record Local : Set := mkLocal {
  gameMode : GameMode;
  currentPlayer : Mark;
  computerStartsFirst : bool;
  playerXStartsFirst : bool;
  difficulty : Difficulty;
  socket : bool;
  onlineMode : bool;
  myMark : option Mark;
  currentGameBoard : Board;
  isGameCurrentlyActive : bool;
  isProcessingMove : bool;
  gameStatistics : Statistics }.

Definition set_currentPlayer (m : Mark) (s : Local) : Local :=
  mkLocal (gameMode s) m (computerStartsFirst s) (playerXStartsFirst s)
    (difficulty s) (socket s) (onlineMode s) (myMark s) (currentGameBoard s)
    (isGameCurrentlyActive s) (isProcessingMove s) (gameStatistics s).

Definition set_currentGameBoard (b : Board) (s : Local) : Local :=
  mkLocal (gameMode s) (currentPlayer s) (computerStartsFirst s)
    (playerXStartsFirst s) (difficulty s) (socket s) (onlineMode s) (myMark s)
    b (isGameCurrentlyActive s) (isProcessingMove s) (gameStatistics s).

Definition set_isGameCurrentlyActive (a : bool) (s : Local) : Local :=
  mkLocal (gameMode s) (currentPlayer s) (computerStartsFirst s)
    (playerXStartsFirst s) (difficulty s) (socket s) (onlineMode s) (myMark s)
    (currentGameBoard s) a (isProcessingMove s) (gameStatistics s).

Definition set_isProcessingMove (p : bool) (s : Local) : Local :=
  mkLocal (gameMode s) (currentPlayer s) (computerStartsFirst s)
    (playerXStartsFirst s) (difficulty s) (socket s) (onlineMode s) (myMark s)
    (currentGameBoard s) (isGameCurrentlyActive s) p (gameStatistics s).

Definition set_gameStatistics (g : Statistics) (s : Local) : Local :=
  mkLocal (gameMode s) (currentPlayer s) (computerStartsFirst s)
    (playerXStartsFirst s) (difficulty s) (socket s) (onlineMode s) (myMark s)
    (currentGameBoard s) (isGameCurrentlyActive s) (isProcessingMove s) g.

(** The counter updates of the three outcomes, each followed in the source
    by [gameStatistics.totalGames++]. *)
Definition countPlayerWin (mode : GameMode) (playerMark : Mark)
    (g : Statistics) : Statistics :=
  match mode, playerMark with
  | pvp, X => mkStatistics (player g) (computer g) (playerX g + 1) (playerO g)
                (draws g) (totalGames g + 1)
  | pvp, O => mkStatistics (player g) (computer g) (playerX g) (playerO g + 1)
                (draws g) (totalGames g + 1)
  | pvc, _ => mkStatistics (player g + 1) (computer g) (playerX g) (playerO g)
                (draws g) (totalGames g + 1)
  end.

Definition countComputerWin (g : Statistics) : Statistics :=
  mkStatistics (player g) (computer g + 1) (playerX g) (playerO g)
    (draws g) (totalGames g + 1).

Definition countDraw (g : Statistics) : Statistics :=
  mkStatistics (player g) (computer g) (playerX g) (playerO g)
    (draws g + 1) (totalGames g + 1).

(** [isGameOver()] *)
Definition isGameOver (s : Local) : bool := isBoardFull (currentGameBoard s).

(** [creategameBoard()].  The second component tells whether the call has
    scheduled [handleComputerMove] (PvC with [computerStartsFirst]); the
    board is still empty when the call returns. *)
Definition creategameBoard (s : Local) : Local * bool :=
  let s1 :=
    set_currentPlayer X
      (set_isProcessingMove false
         (set_isGameCurrentlyActive true
            (set_currentGameBoard (replicate 9 None) s))) in
  let s2 :=
    match gameMode s1 with
    | pvp =>
        set_currentPlayer
          (if onlineMode s1 then X
           else if playerXStartsFirst s1 then X else O) s1
    | pvc => s1
    end in
  match gameMode s2 with
  | pvp => (s2, false)
  | pvc => (s2, computerStartsFirst s2)
  end.

Section Engine.

(** [random_index n] is the value of [Math.floor(Math.random() * n)] at the
    call at hand. *)
Variable random_index : nat -> nat.

(** The choice of [moveIndex] in [handleComputerMove]; [None] is [null] or
    [undefined]. *)
Definition chooseMove (d : Difficulty) (board : Board) : option nat :=
  let emptyIndices := getEmptyIndices board in
  match d with
  | easy => emptyIndices !! random_index (length emptyIndices)
  | medium =>
      match findCriticalMove board O 2 with
      | Some i => Some i
      | None =>
          match findCriticalMove board X 2 with
          | Some i => Some i
          | None =>
              let center := 4 in
              let corners := [0; 2; 6; 8] in
              let sides := [1; 3; 5; 7] in
              if bool_decide (board !! center = Some None) then Some center
              else
                let freeCorners :=
                  filter (fun i => board !! i = Some None) corners in
                if bool_decide (0 < length freeCorners)
                then freeCorners !! random_index (length freeCorners)
                else
                  let freeSides :=
                    filter (fun i => board !! i = Some None) sides in
                  freeSides !! random_index (length freeSides)
          end
      end
  | hard => result ← minimax board 0 true O; index result
  end.

(** [handleComputerMove()], with the body of its timer run in place.  When
    [moveIndex] is [null] or [undefined] the write [currentGameBoard[moveIndex]
    = "O"] touches no cell and [drawMarkOnBoard] throws on the missing DOM
    cell, which ends the callback: the state stays as it is. *)
Definition handleComputerMove (s : Local) : Local :=
  if onlineMode s then s
  else if negb (isGameCurrentlyActive s) then s
  else if bool_decide (length (getEmptyIndices (currentGameBoard s)) = 0)
  then s
  else
    match chooseMove (difficulty s) (currentGameBoard s) with
    | None => s
    | Some moveIndex =>
        let s1 :=
          set_currentGameBoard (<[moveIndex := Some O]> (currentGameBoard s))
                               s in
        if determineWinner O (currentGameBoard s1)
        then set_isGameCurrentlyActive false
               (set_gameStatistics (countComputerWin (gameStatistics s1)) s1)
        else if isGameOver s1
        then set_isGameCurrentlyActive false
               (set_gameStatistics (countDraw (gameStatistics s1)) s1)
        else set_isProcessingMove false s1
    end.

(** The page after [creategameBoard()] and the timer that it may have
    armed: the first move of the computer. *)
Definition startGame (s : Local) : Local :=
  let '(s1, scheduled) := creategameBoard s in
  if scheduled then handleComputerMove s1 else s1.

(** [handlePlayerMove(click)] for a click whose target is the cell of index
    [index] itself, with the bodies of its timers run in place.  The listener
    is attached to the nine cells that [creategameBoard] builds, whose
    [data-index] is 0 to 8: no cell has another index.  The second component
    is the index sent with [socket.emit("makeMove", ...)], if any.  A click
    that lands on an element inside a cell is [handlePlayerMove_inside]
    below. *)
Definition handlePlayerMove (index : nat) (s : Local) : Local * option nat :=
  if bool_decide (9 <= index) then (s, None)
  else if negb (isGameCurrentlyActive s)
       || bool_decide (is_Some (mjoin (currentGameBoard s !! index)))
       || isProcessingMove s
  then (s, None)
  else if onlineMode s then
    if negb (bool_decide (Some (currentPlayer s) = myMark s))
       || negb (socket s)
    then (s, None)
    else (set_isProcessingMove true s, Some index)
  else
    let playerMark :=
      match gameMode s with pvp => currentPlayer s | pvc => X end in
    let s1 :=
      set_currentGameBoard (<[index := Some playerMark]> (currentGameBoard s))
                           (set_isProcessingMove true s) in
    if determineWinner playerMark (currentGameBoard s1)
    then (set_isGameCurrentlyActive false
            (set_gameStatistics
               (countPlayerWin (gameMode s1) playerMark (gameStatistics s1))
               s1), None)
    else if isGameOver s1
    then (set_isGameCurrentlyActive false
            (set_gameStatistics (countDraw (gameStatistics s1)) s1), None)
    else
      match gameMode s1 with
      | pvp => (set_isProcessingMove false
                  (set_currentPlayer (other (currentPlayer s1)) s1), None)
      | pvc => (handleComputerMove s1, None)
      end.

(** A run of clicks, in order. *)
Definition clicks (l : list nat) (s : Local) : Local :=
  foldl (fun st i => (handlePlayerMove i st).1) s l.

End Engine.

(** What a call of [handlePlayerMove] does besides writing the variables
    of the script. *)
Inductive Effect : Set :=
| nothing
| emitsNaN          (* [socket.emit("makeMove", { index: NaN })] *)
| throwsTypeError.  (* the call ends with an uncaught [TypeError] *)

(** [handlePlayerMove(click)] for a click whose target is an element inside
    a cell: the mark that [drawMarkOnBoard] or [renderFromRoomState] has
    appended to an occupied cell, or the scanning animation.  The event
    reaches the listener of the cell with the inner element as
    [click.target], which has no [data-index]: [index] is [undefined].

    [held] tells whether the array [currentGameBoard] has a property named
    ["undefined"] that holds a mark, which is what the guard reads as
    [currentGameBoard[index]]; only the offline branch below writes it, and
    [creategameBoard] builds a new array without it.  Online the handler
    sends [Number(undefined)].  Offline it writes that property, which is no
    cell of the board, and calls [drawMarkOnBoard(undefined, playerMark)],
    where [gameBoard.children[undefined]] is [undefined] and
    [targetCell.querySelector] throws: the timer that evaluates the move and
    clears [isProcessingMove] is never armed. *)
Definition handlePlayerMove_inside (held : bool) (s : Local)
  : Local * Effect :=
  if negb (isGameCurrentlyActive s) || held || isProcessingMove s
  then (s, nothing)
  else if onlineMode s then
    if negb (bool_decide (Some (currentPlayer s) = myMark s))
       || negb (socket s)
    then (s, nothing)
    else (set_isProcessingMove true s, emitsNaN)
  else (set_isProcessingMove true s, throwsTypeError).

(** ** Exhaustive exploration of the games against the hard tier

    [neverLoses fuel s] plays, from the state [s] of a PvC game on the hard
    tier, every click of the human player on an empty cell, each followed by
    the reply of [handleComputerMove], down to the end of every game.  It
    holds when no state on the way shows a line of X or a counted win of the
    player, and every ended game is a counted win of the computer or a
    counted draw.  The hard tier draws no random number. *)
Definition settingsHard (s : Local) : bool :=
  bool_decide (gameMode s = pvc) && bool_decide (difficulty s = hard)
  && negb (onlineMode s)
  && bool_decide (length (currentGameBoard s) = 9).

Definition endedWell (s : Local) : bool :=
  let g := gameStatistics s in
  let b := currentGameBoard s in
  (bool_decide (computer g = 1%Z) && bool_decide (draws g = 0%Z)
   && bool_decide (checkWinner b = Some O))
  || (bool_decide (computer g = 0%Z) && bool_decide (draws g = 1%Z)
      && isBoardFull b && bool_decide (checkWinner b = None)).

Fixpoint neverLoses (fuel : nat) (s : Local) : bool :=
  settingsHard s
  && bool_decide (player (gameStatistics s) = 0%Z)
  && bool_decide (checkWinner (currentGameBoard s) <> Some X)
  && if isGameCurrentlyActive s
     then negb (isProcessingMove s)
          && match fuel with
             | 0 => false
             | S fuel' =>
                 forallb (fun i =>
                            neverLoses fuel'
                              (handlePlayerMove (fun _ => 0) i s).1)
                         (getEmptyIndices (currentGameBoard s))
             end
     else endedWell s.

(** The state of the page after loading, switched to the given settings of
    the PvC mode. *)
Definition pvcStart (d : Difficulty) (computerFirst : bool) : Local :=
  mkLocal pvc X computerFirst true d false false None (replicate 9 None)
    true false (mkStatistics 0 0 0 0 0 0).

(** The clicks that [handlePlayerMove] ignores. *)
Definition ignoredClick (i : nat) (s : Local) : Prop :=
  isGameCurrentlyActive s = false
  \/ (exists held, currentGameBoard s !! i = Some (Some held))
  \/ isProcessingMove s = true
  \/ (onlineMode s = true /\ myMark s <> Some (currentPlayer s)).

End Client.

(** ** The room server ([server.js]) *)

(** [String.prototype.trim], which strips the [WhiteSpace] and
    [LineTerminator] code points of ECMAScript from both ends of a string.
    On the UTF-8 bytes of the string these are
    - one byte: tab 9, line feed 10, vertical tab 11, form feed 12, carriage
      return 13 and space 32;
    - two bytes: the no-break space U+00A0 (194 160);
    - three bytes: U+1680 (225 154 128), U+2000 to U+200A (226 128 128 to
      226 128 138), the line and paragraph separators U+2028 and U+2029
      (226 128 168 and 169), U+202F (226 128 175), U+205F (226 129 159),
      U+3000 (227 128 128) and the byte order mark U+FEFF (239 187 191). *)
Definition isWhiteSpace (c : Ascii.ascii) : bool :=
  bool_decide (Ascii.nat_of_ascii c ∈ [9; 10; 11; 12; 13; 32]).

Definition isWhiteSpace2 (a b : Ascii.ascii) : bool :=
  bool_decide ((Ascii.N_of_ascii a, Ascii.N_of_ascii b) = (194, 160)%N).

Definition isWhiteSpace3 (a b c : Ascii.ascii) : bool :=
  bool_decide
    ((Ascii.N_of_ascii a, Ascii.N_of_ascii b, Ascii.N_of_ascii c)
     ∈ [(225, 154, 128);
        (226, 128, 128); (226, 128, 129); (226, 128, 130); (226, 128, 131);
        (226, 128, 132); (226, 128, 133); (226, 128, 134); (226, 128, 135);
        (226, 128, 136); (226, 128, 137); (226, 128, 138);
        (226, 128, 168); (226, 128, 169); (226, 128, 175);
        (226, 129, 159); (227, 128, 128); (239, 187, 191)]%N).

(** The string without the white space at its head.  With [backwards] the
    string is read from its last byte, so that the bytes of a character come
    in reverse order. *)
Fixpoint strip (backwards : bool) (s : string) : string :=
  match s with
  | EmptyString => EmptyString
  | String a r1 =>
      if isWhiteSpace a then strip backwards r1
      else
        match r1 with
        | EmptyString => s
        | String b r2 =>
            if (if backwards then isWhiteSpace2 b a else isWhiteSpace2 a b)
            then strip backwards r2
            else
              match r2 with
              | EmptyString => s
              | String c r3 =>
                  if (if backwards then isWhiteSpace3 c b a
                      else isWhiteSpace3 a b c)
                  then strip backwards r3
                  else s
              end
        end
  end.

Definition trimStart (s : string) : string := strip false s.

Definition trim (s : string) : string :=
  String.rev (strip true (String.rev (trimStart s))).

(** The encoding of one white space character, and the strings made of
    white space only. *)
Inductive isSpace : string -> Prop :=
| space1 a : isWhiteSpace a = true -> isSpace (String a EmptyString)
| space2 a b :
    isWhiteSpace2 a b = true -> isSpace (String a (String b EmptyString))
| space3 a b c :
    isWhiteSpace3 a b c = true ->
    isSpace (String a (String b (String c EmptyString))).

Inductive padding : string -> Prop :=
| padding_nil : padding EmptyString
| padding_cons w p : isSpace w -> padding p -> padding (String.app w p).

(** The bytes that start the encoding of a character: no second or third
    byte of an encoding is one. *)
Definition leadByte (a : Ascii.ascii) : Prop :=
  (Ascii.N_of_ascii a < 128 \/ 192 <= Ascii.N_of_ascii a)%N.

Module Server.

(** A value received as [index] in a [makeMove] payload: an integer, or any
    other value (a fraction, [NaN], a string, [undefined], ...), for which
    [Number.isInteger] is false. *)
Inductive JsValue : Set := JsInteger (z : Z) | JsOther.

Record Stats : Set := mkStats {
  xWins : Z; oWins : Z; draws : Z; totalGames : Z }.

(** A room of [rooms]: the object that [newRoomState] builds, with the
    [players] set that [getRoom] adds. *)
Record Room := mkRoom {
  board : Board;
  currentPlayer : Mark;
  isActive : bool;
  stats : Stats;
  createdAt : Z;
  players : gset string }.

(** [socket.data] *)
Record SocketData : Set := mkSocketData {
  lobbyId : option string;
  mark : option Mark }.

(** The state of the server process: the [rooms] store, the membership of
    the Socket.IO rooms ([io.sockets.adapter.rooms], without the private room
    that Socket.IO keeps per socket: lobby identifiers are taken to differ
    from socket identifiers), the [socket.data] of the connected sockets and
    the lobbies of the clean-up timers that are pending. *)
Record State := mkState {
  rooms : gmap string Room;
  adapterRooms : gmap string (gset string);
  socketData : gmap string SocketData;
  timers : list string }.

Inductive Payload :=
| roomState (room : Room) (lobby : string) (yourMark : option Mark)
| playerJoined (playerId : string)
| errorMsg (msg : string).

(** [socket.emit], [socket.to(lobby).emit] and [io.to(lobby).emit]. *)
Inductive Emit :=
| toSocket (socketId : string) (p : Payload)
| toOthers (socketId : string) (lobby : string) (p : Payload)
| toRoom (lobby : string) (p : Payload).

Definition initial : State := mkState ∅ ∅ ∅ [].

(** [newRoomState()] with [players: new Set()]; [now] is [Date.now()]. *)
Definition newRoomState (now : Z) : Room :=
  mkRoom (replicate 9 None) X true (mkStats 0 0 0 0) now ∅.

Definition set_rooms (r : gmap string Room) (st : State) : State :=
  mkState r (adapterRooms st) (socketData st) (timers st).

(** [getRoom(lobbyId)]: the room and the store, where the room has been
    created when it was missing. *)
Definition getRoom (now : Z) (lobby : string) (st : State) : Room * State :=
  match rooms st !! lobby with
  | Some room => (room, st)
  | None =>
      let room := newRoomState now in
      (room, set_rooms (<[lobby := room]> (rooms st)) st)
  end.

(** [io.sockets.adapter.rooms.get(lobbyId) || new Set()] *)
Definition socketsIn (lobby : string) (st : State) : gset string :=
  default ∅ (adapterRooms st !! lobby).

(** [socket.data.lobbyId] when it is truthy. *)
Definition lobbyOf (socketId : string) (st : State) : option string :=
  match socketData st !! socketId with
  | Some d =>
      match lobbyId d with
      | Some l => if bool_decide (l = EmptyString) then None else Some l
      | None => None
      end
  | None => None
  end.

(** [socket.data.mark] *)
Definition markOf (socketId : string) (st : State) : option Mark :=
  d ← socketData st !! socketId; mark d.

(** The handler of [joinLobby].  [requestedMark] is [Some m] when the payload
    carries the string of the mark [m], and [None] for any other value. *)
Definition joinLobby (now : Z) (socketId : string) (lobby : string)
    (requestedMark : option Mark) (st : State) : State * list Emit :=
  let lobby := trim lobby in
  if bool_decide (lobby = EmptyString)
  then (st, [toSocket socketId (errorMsg "Lobby ID required.")])
  else
    let '(room, st1) := getRoom now lobby st in
    let joined := {[socketId]} ∪ socketsIn lobby st1 in
    let room1 :=
      mkRoom (board room) (currentPlayer room) (isActive room) (stats room)
             (createdAt room) ({[socketId]} ∪ players room) in
    let assignedMark := X in
    let assignedMark :=
      if bool_decide (2 <= size joined) then O else assignedMark in
    let assignedMark :=
      match requestedMark with Some m => m | None => assignedMark end in
    let st2 :=
      mkState (<[lobby := room1]> (rooms st1))
              (<[lobby := joined]> (adapterRooms st1))
              (<[socketId := mkSocketData (Some lobby) (Some assignedMark)]>
                 (socketData st1))
              (timers st1) in
    (st2,
     [toSocket socketId (roomState room1 lobby (Some assignedMark));
      toOthers socketId lobby (playerJoined socketId)]
     ++ if bool_decide (2 < size joined)
        then [toSocket socketId
                (errorMsg "Room is full (2 players). Spectators not allowed.")]
        else []).

(** The statistics after a win of [winner], and after a draw. *)
Definition countWin (winner : Mark) (s : Stats) : Stats :=
  match winner with
  | X => mkStats (xWins s + 1) (oWins s) (draws s) (totalGames s + 1)
  | O => mkStats (xWins s) (oWins s + 1) (draws s) (totalGames s + 1)
  end.

Definition countDraw (s : Stats) : Stats :=
  mkStats (xWins s) (oWins s) (draws s + 1) (totalGames s + 1).

(** [room.board.every((c) => c !== null) && !winner] *)
Definition isDraw (board : Board) : bool :=
  isBoardFull board && negb (bool_decide (is_Some (checkWinner board))).

(** The part of the [makeMove] handler after the guards: the mark is
    written and the room is updated according to the outcome. *)
Definition applyMove (i : nat) (m : Mark) (room : Room) : Room :=
  let board1 := <[i := Some m]> (board room) in
  match checkWinner board1 with
  | Some winner =>
      mkRoom board1 (currentPlayer room) false (countWin winner (stats room))
             (createdAt room) (players room)
  | None =>
      if isDraw board1
      then mkRoom board1 (currentPlayer room) false (countDraw (stats room))
                  (createdAt room) (players room)
      else mkRoom board1 (other m) (isActive room) (stats room)
                  (createdAt room) (players room)
  end.

(** The body of the handler of [makeMove], for the value of [index] that
    the argument of the event gives; [onMakeMove] below is the listener with
    its argument. *)
Definition makeMove (now : Z) (socketId : string) (index : JsValue)
    (st : State) : State * list Emit :=
  match lobbyOf socketId st with
  | None => (st, [])
  | Some lobby =>
      let '(room, st1) := getRoom now lobby st in
      if negb (isActive room) then (st1, [])
      else
        match index with
        | JsOther => (st1, [])
        | JsInteger z =>
            if (z <? 0)%Z || (8 <? z)%Z then (st1, [])
            else
              let i := Z.to_nat z in
              if bool_decide (is_Some (mjoin (board room !! i)))
              then (st1, [])
              else
                match markOf socketId st with
                | Some m =>
                    if bool_decide (currentPlayer room <> m) then (st1, [])
                    else
                      let room1 := applyMove i m room in
                      (set_rooms (<[lobby := room1]> (rooms st1)) st1,
                       [toRoom lobby (roomState room1 lobby None)])
                | None => (st1, [])
                end
        end
  end.

(** The listener of [makeMove] with the argument of the event.  Its
    parameter is the pattern [({ index })]: an event that carries no
    argument, or [null], throws a [TypeError] before the first statement of
    the body.  Any other argument is destructured, with [index] undefined
    when the argument has no such property, and the body above runs. *)
Inductive MoveArgument : Set :=
| noArgument
| argument (index : JsValue).

(** [None] is the uncaught [TypeError]. *)
Definition onMakeMove (now : Z) (socketId : string) (arg : MoveArgument)
    (st : State) : option (State * list Emit) :=
  match arg with
  | noArgument => None
  | argument index => Some (makeMove now socketId index st)
  end.

(** The handler of [newGame]. *)
Definition newGame (now : Z) (socketId : string) (st : State)
  : State * list Emit :=
  match lobbyOf socketId st with
  | None => (st, [])
  | Some lobby =>
      let '(room, st1) := getRoom now lobby st in
      let room1 :=
        mkRoom (replicate 9 None) X true (stats room) (createdAt room)
               (players room) in
      (set_rooms (<[lobby := room1]> (rooms st1)) st1,
       [toRoom lobby (roomState room1 lobby None)])
  end.

(** The handler of [resetStats]. *)
Definition resetStats (now : Z) (socketId : string) (st : State)
  : State * list Emit :=
  match lobbyOf socketId st with
  | None => (st, [])
  | Some lobby =>
      let '(room, st1) := getRoom now lobby st in
      let room1 :=
        mkRoom (board room) (currentPlayer room) (isActive room)
               (mkStats 0 0 0 0) (createdAt room) (players room) in
      (set_rooms (<[lobby := room1]> (rooms st1)) st1,
       [toRoom lobby (roomState room1 lobby None)])
  end.

(** The handler of [disconnect].  Socket.IO has removed the socket from
    every room before it runs the handler; the handler removes it from
    [players] and arms the clean-up timer when the lobby is left empty. *)
Definition disconnect (socketId : string) (st : State) : State :=
  let adapter1 := (fun s : gset string => s ∖ {[socketId]}) <$> adapterRooms st in
  let st1 :=
    mkState (rooms st) adapter1 (delete socketId (socketData st)) (timers st) in
  match lobbyOf socketId st with
  | None => st1
  | Some lobby =>
      match rooms st !! lobby with
      | None => st1
      | Some room =>
          let room1 :=
            mkRoom (board room) (currentPlayer room) (isActive room)
                   (stats room) (createdAt room)
                   (players room ∖ {[socketId]}) in
          mkState (<[lobby := room1]> (rooms st)) adapter1
                  (delete socketId (socketData st))
                  (if bool_decide (size (socketsIn lobby st1) = 0)
                   then timers st ++ [lobby] else timers st)
      end
  end.

(** Removal of the first occurrence of a pending timer. *)
Fixpoint removeTimer (lobby : string) (l : list string) : list string :=
  match l with
  | [] => []
  | x :: rest =>
      if bool_decide (x = lobby) then rest else x :: removeTimer lobby rest
  end.

(** The callback of the clean-up timer of [lobby], 60 seconds after it was
    armed (the delay itself is not modelled: a pending timer may fire at any
    later point). *)
Definition cleanup (lobby : string) (st : State) : State :=
  if bool_decide (lobby ∈ timers st)
  then
    let stillEmpty := bool_decide (size (socketsIn lobby st) = 0) in
    mkState (if stillEmpty then delete lobby (rooms st) else rooms st)
            (adapterRooms st) (socketData st) (removeTimer lobby (timers st))
  else st.

(** The events that the server reacts to, and their runs. *)
Inductive Op :=
| OpJoinLobby (now : Z) (socketId lobby : string) (requestedMark : option Mark)
| OpMakeMove (now : Z) (socketId : string) (index : JsValue)
| OpNewGame (now : Z) (socketId : string)
| OpResetStats (now : Z) (socketId : string)
| OpDisconnect (socketId : string)
| OpCleanup (lobby : string).

Definition step (op : Op) (st : State) : State * list Emit :=
  match op with
  | OpJoinLobby now s l r => joinLobby now s l r st
  | OpMakeMove now s i => makeMove now s i st
  | OpNewGame now s => newGame now s st
  | OpResetStats now s => resetStats now s st
  | OpDisconnect s => (disconnect s st, [])
  | OpCleanup l => (cleanup l st, [])
  end.

Definition run (ops : list Op) (st : State) : State :=
  foldl (fun s op => (step op s).1) st ops.

(** The requests that the handler of [makeMove] refuses, for the room that
    it finds and the mark of the socket: the game is over, the index is not
    an integer from 0 to 8, the cell holds a mark, or the mark of the socket
    is not the one to move. *)
Definition illegalMove (room : Room) (m : option Mark) (index : JsValue)
  : Prop :=
  isActive room = false
  \/ match index with
     | JsInteger z =>
         (z < 0 \/ 8 < z)%Z
         \/ exists held, board room !! Z.to_nat z = Some (Some held)
     | JsOther => True
     end
  \/ m <> Some (currentPlayer room).

(** [xWins + oWins + draws = totalGames] *)
Definition balanced (s : Stats) : Prop :=
  (xWins s + oWins s + draws s = totalGames s)%Z.

(** Every room of the store has balanced statistics. *)
Definition statsInvariant (st : State) : Prop :=
  map_Forall (fun _ room => balanced (stats room)) (rooms st).

End Server.

(** ** The page ([script.js]): buttons, lobby and snapshots *)

Module Page.
Import Client.

Definition set_gameMode (g : GameMode) (s : Local) : Local :=
  mkLocal g (currentPlayer s) (computerStartsFirst s) (playerXStartsFirst s)
    (difficulty s) (socket s) (onlineMode s) (myMark s) (currentGameBoard s)
    (isGameCurrentlyActive s) (isProcessingMove s) (gameStatistics s).

Definition set_computerStartsFirst (b : bool) (s : Local) : Local :=
  mkLocal (gameMode s) (currentPlayer s) b (playerXStartsFirst s)
    (difficulty s) (socket s) (onlineMode s) (myMark s) (currentGameBoard s)
    (isGameCurrentlyActive s) (isProcessingMove s) (gameStatistics s).

Definition set_playerXStartsFirst (b : bool) (s : Local) : Local :=
  mkLocal (gameMode s) (currentPlayer s) (computerStartsFirst s) b
    (difficulty s) (socket s) (onlineMode s) (myMark s) (currentGameBoard s)
    (isGameCurrentlyActive s) (isProcessingMove s) (gameStatistics s).

Definition set_difficulty (d : Difficulty) (s : Local) : Local :=
  mkLocal (gameMode s) (currentPlayer s) (computerStartsFirst s)
    (playerXStartsFirst s) d (socket s) (onlineMode s) (myMark s)
    (currentGameBoard s) (isGameCurrentlyActive s) (isProcessingMove s)
    (gameStatistics s).

Definition set_socket (b : bool) (s : Local) : Local :=
  mkLocal (gameMode s) (currentPlayer s) (computerStartsFirst s)
    (playerXStartsFirst s) (difficulty s) b (onlineMode s) (myMark s)
    (currentGameBoard s) (isGameCurrentlyActive s) (isProcessingMove s)
    (gameStatistics s).

Definition set_onlineMode (b : bool) (s : Local) : Local :=
  mkLocal (gameMode s) (currentPlayer s) (computerStartsFirst s)
    (playerXStartsFirst s) (difficulty s) (socket s) b (myMark s)
    (currentGameBoard s) (isGameCurrentlyActive s) (isProcessingMove s)
    (gameStatistics s).

Definition set_myMark (m : option Mark) (s : Local) : Local :=
  mkLocal (gameMode s) (currentPlayer s) (computerStartsFirst s)
    (playerXStartsFirst s) (difficulty s) (socket s) (onlineMode s) m
    (currentGameBoard s) (isGameCurrentlyActive s) (isProcessingMove s)
    (gameStatistics s).

(** [getWinningCombination(player)] on [currentGameBoard]. *)
Definition getWinningCombination (player : Mark) (board : Board)
  : option (nat * nat * nat) :=
  find (fun combo => bool_decide (line_full board combo player))
       winningCombinations.

(** The array [difficulties] of [toggleDifficulty]: [indexOf] and the
    access by index. *)
Definition difficultyIndex (d : Difficulty) : nat :=
  match d with easy => 0 | medium => 1 | hard => 2 end.

Definition difficultyAt (n : nat) : Difficulty :=
  match n with 0 => easy | 1 => medium | _ => hard end.

(** [toggleDifficulty()] *)
Definition toggleDifficulty (s : Local) : Local :=
  if onlineMode s then s
  else
    let currentIndex := difficultyIndex (difficulty s) in
    set_difficulty (difficultyAt ((currentIndex + 1) mod 3)) s.

(** [togglePvPStarter()], [toggleComputerStarter()] and [toggleStarter()];
    the second component is the one of [creategameBoard]. *)
Definition togglePvPStarter (s : Local) : Local * bool :=
  let s1 := set_playerXStartsFirst (negb (playerXStartsFirst s)) s in
  match gameMode s1 with
  | pvp => creategameBoard s1
  | pvc => (s1, false)
  end.

Definition toggleComputerStarter (s : Local) : Local * bool :=
  let s1 := set_computerStartsFirst (negb (computerStartsFirst s)) s in
  match gameMode s1 with
  | pvc => creategameBoard s1
  | pvp => (s1, false)
  end.

Definition toggleStarter (s : Local) : Local * bool :=
  match gameMode s with
  | pvp => togglePvPStarter s
  | pvc => toggleComputerStarter s
  end.

(** The page: the variables of the engine and [currentLobbyId]. *)
Record Page : Set := mkPage {
  engine : Local;
  currentLobbyId : option string }.

(** What the page sends on its socket. *)
Inductive Out : Set :=
| emitJoinLobby (lobbyId : string)
| emitMakeMove (index : nat)
| emitMakeMoveNaN
| emitNewGame
| emitResetStats
| socketDisconnect.

(** [leaveLobby()]; [socket.disconnect()] is called when the socket is
    connected, which the model does not track: [socketDisconnect] stands for
    the call under that test. *)
Definition leaveLobby (p : Page) : Page * list Out :=
  let e1 := set_myMark None (set_onlineMode false (engine p)) in
  if socket e1 then (mkPage (set_socket false e1) None, [socketDisconnect])
  else (mkPage e1 None, []).

(** [toggleGameMode()]; the last component is the one of
    [creategameBoard]. *)
Definition toggleGameMode (p : Page) : Page * list Out * bool :=
  let '(p1, out) :=
    if onlineMode (engine p) then leaveLobby p else (p, []) in
  let e1 := engine p1 in
  let e2 :=
    set_gameMode (match gameMode e1 with pvc => pvp | pvp => pvc end) e1 in
  let e3 := set_gameStatistics (mkStatistics 0 0 0 0 0 0) e2 in
  let '(e4, scheduled) := creategameBoard e3 in
  (mkPage e4 (currentLobbyId p1), out, scheduled).

(** [joinLobby(lobbyId)] of the page, with the Socket.IO client loaded.  In
    the PvP mode that it sets, [creategameBoard] schedules nothing. *)
Definition joinLobby (lobbyId : string) (p : Page) : Page * list Out :=
  if bool_decide (lobbyId = EmptyString) then (p, [])
  else if onlineMode (engine p)
          && bool_decide (currentLobbyId p = Some lobbyId)
  then (p, [])
  else
    let e1 := set_socket true (engine p) in
    let e2 := set_gameMode pvp (set_onlineMode true e1) in
    (mkPage (creategameBoard e2).1 (Some lobbyId), [emitJoinLobby lobbyId]).

(** The loop of [renderFromRoomState] that copies the nine cells of the
    snapshot.  A snapshot of the server has nine cells; for a shorter array
    the source stores [undefined], which the cells of the model cannot hold:
    the result is [None] then. *)
Definition copyCells (received current : Board) : option Board :=
  foldl (fun acc i =>
           b ← acc; cell ← received !! i; Some (<[i := cell]> b))
        (Some current) (seq 0 9).

(** [renderFromRoomState(room)], without the DOM: the variables that it
    sets. *)
Definition renderFromRoomState (room : Server.Room) (s : Local)
  : option Local :=
  b ← copyCells (Server.board room) (currentGameBoard s);
  let g := gameStatistics s in
  let st := Server.stats room in
  Some (set_gameStatistics
          (mkStatistics (player g) (computer g) (Server.xWins st)
                        (Server.oWins st) (Server.draws st)
                        (Server.totalGames st))
          (set_isProcessingMove false
             (set_currentPlayer (Server.currentPlayer room)
                (set_isGameCurrentlyActive (Server.isActive room)
                   (set_currentGameBoard b s))))).

(** The handler of [roomState] that [joinLobby] registers; a snapshot with
    a board that is not of nine cells is outside the model and leaves the
    page as it is. *)
Definition onRoomState (room : Server.Room) (lobby : string)
    (yourMark : option Mark) (p : Page) : Page :=
  let lobbyId1 :=
    if bool_decide (lobby = EmptyString) then currentLobbyId p
    else Some lobby in
  let e1 :=
    match yourMark with
    | Some m => set_myMark (Some m) (engine p)
    | None => engine p
    end in
  match renderFromRoomState room e1 with
  | Some e2 => mkPage e2 lobbyId1
  | None => p
  end.

(** [onlineMode && socket && currentLobbyId] *)
Definition inLobby (p : Page) : bool :=
  onlineMode (engine p) && socket (engine p)
  && match currentLobbyId p with
     | Some l => negb (bool_decide (l = EmptyString))
     | None => false
     end.

(** The listener of [newGameBtn]. *)
Definition onNewGame (p : Page) : Page * list Out * bool :=
  if inLobby p then (p, [emitNewGame], false)
  else
    let '(e1, scheduled) := creategameBoard (engine p) in
    (mkPage e1 (currentLobbyId p), [], scheduled).

(** The listener of [resetStatsBtn]. *)
Definition onResetStats (p : Page) : Page * list Out :=
  if inLobby p then (p, [emitResetStats])
  else
    (mkPage (set_gameStatistics (mkStatistics 0 0 0 0 0 0) (engine p))
            (currentLobbyId p), []).

(** The events of the page.  [Click] is a click whose target is the cell
    of the index.  [ClickInside] is a click whose target is an element inside
    a cell; [held] is left to the event, so that the runs of the model include
    those of the page. *)
Inductive Event :=
| Click (index : nat)
| NewGameBtn
| ResetStatsBtn
| ToggleModeBtn
| ToggleStartBtn
| DifficultyBtn
| JoinLobbyBtn (text : string)
| RoomState (room : Server.Room) (lobby : string) (yourMark : option Mark)
| ClickInside (held : bool).

Section Events.

Variable random_index : nat -> nat.

(** The timer that [creategameBoard] may have armed, run in place. *)
Definition thenComputer (e : Local) (scheduled : bool) : Local :=
  if scheduled then handleComputerMove random_index e else e.

(** One event, with its timers.  The listener of [joinLobbyBtn] trims the
    text of the input and calls [joinLobby] when the result is not empty; the
    handler of [roomState] is registered while the page holds a socket. *)
Definition step (ev : Event) (p : Page) : Page * list Out :=
  match ev with
  | Click i =>
      let '(e1, sent) := handlePlayerMove random_index i (engine p) in
      (mkPage e1 (currentLobbyId p),
       match sent with Some j => [emitMakeMove j] | None => [] end)
  | NewGameBtn =>
      let '(p1, out, scheduled) := onNewGame p in
      (mkPage (thenComputer (engine p1) scheduled) (currentLobbyId p1), out)
  | ResetStatsBtn => onResetStats p
  | ToggleModeBtn =>
      let '(p1, out, scheduled) := toggleGameMode p in
      (mkPage (thenComputer (engine p1) scheduled) (currentLobbyId p1), out)
  | ToggleStartBtn =>
      let '(e1, scheduled) := toggleStarter (engine p) in
      (mkPage (thenComputer e1 scheduled) (currentLobbyId p), [])
  | DifficultyBtn => (mkPage (toggleDifficulty (engine p)) (currentLobbyId p), [])
  | JoinLobbyBtn text =>
      let id := trim text in
      if bool_decide (id = EmptyString) then (p, []) else joinLobby id p
  | RoomState room lobby yourMark =>
      if socket (engine p) then (onRoomState room lobby yourMark p, [])
      else (p, [])
  | ClickInside held =>
      let '(e1, effect) := handlePlayerMove_inside held (engine p) in
      (mkPage e1 (currentLobbyId p),
       match effect with emitsNaN => [emitMakeMoveNaN] | _ => [] end)
  end.

Definition run (evs : list Event) (p : Page) : Page :=
  foldl (fun q ev => (step ev q).1) p evs.

End Events.

(** The page once the script has run: the initial values of the variables
    and the call of [creategameBoard] that ends the script. *)
Definition loaded : Page :=
  mkPage (creategameBoard
            (mkLocal pvc X false true medium false false None
                     (replicate 9 None) true false
                     (mkStatistics 0 0 0 0 0 0))).1
         None.

(** The variables of the connection and of the mode, which the engine
    leaves alone. *)
Definition sameSettings (s s1 : Local) : Prop :=
  socket s1 = socket s /\ onlineMode s1 = onlineMode s
  /\ gameMode s1 = gameMode s /\ myMark s1 = myMark s.

(** The counters add up, and the ones of the other mode are zero. *)
Definition countersAddUp (s : Local) : Prop :=
  let g := gameStatistics s in
  (match gameMode s with
   | pvc => playerX g = 0 /\ playerO g = 0
            /\ player g + computer g + draws g = totalGames g
   | pvp => player g = 0 /\ computer g = 0
            /\ playerX g + playerO g + draws g = totalGames g
   end)%Z.

(** The flags and the board of a game that is played offline agree. *)
Definition boardConsistent (s : Local) : Prop :=
  length (currentGameBoard s) = 9
  /\ (isGameCurrentlyActive s = true <->
      checkWinner (currentGameBoard s) = None
      /\ isBoardFull (currentGameBoard s) = false).

(** What holds of every page: a page in online mode holds a socket and a
    lobby identifier and is in PvP mode; a page in offline mode holds neither,
    its counters add up and its flags fit its board. *)
Definition pageInvariant (p : Page) : Prop :=
  let e := engine p in
  socket e = onlineMode e
  /\ (onlineMode e = true ->
      gameMode e = pvp
      /\ exists l, currentLobbyId p = Some l /\ l <> EmptyString)
  /\ (onlineMode e = false ->
      currentLobbyId p = None /\ myMark e = None
      /\ countersAddUp e /\ boardConsistent e).

End Page.

(** ** Predicates of the statements on the server *)

(** The number of cells that hold the mark [m]. *)
Definition countMark (m : Mark) (board : Board) : nat :=
  length (filter (fun cell : Cell => cell = Some m) board).

(** No two win-lines are held by X and by O. *)
Definition singleWinner (board : Board) : Prop :=
  forall l l', l ∈ winningCombinations -> l' ∈ winningCombinations ->
               ~ (line_full board l X /\ line_full board l' O).

(** The room of a game as the handlers leave it: nine cells; the game is
    active exactly when the board has no winner and an empty cell; the marks
    were placed in turn, X first, and the current mark is the one to move
    while the game is active and the one that moved last once it is over. *)
Definition wellFormedRoom (room : Server.Room) : Prop :=
  let b := Server.board room in
  length b = 9
  /\ (Server.isActive room = true <->
      checkWinner b = None /\ isBoardFull b = false)
  /\ singleWinner b
  /\ countMark X b
     = countMark O b
       + (if bool_decide (Server.currentPlayer room = X)
          then (if Server.isActive room then 0 else 1)
          else (if Server.isActive room then 1 else 0)).

(** The lobby of the room that an event may change. *)
Definition opLobby (op : Server.Op) (st : Server.State) : option string :=
  match op with
  | Server.OpJoinLobby _ _ l _ => Some (trim l)
  | Server.OpMakeMove _ s _ | Server.OpNewGame _ s
  | Server.OpResetStats _ s | Server.OpDisconnect s => Server.lobbyOf s st
  | Server.OpCleanup l => Some l
  end.

(** The snapshot that an emitted [roomState] carries, with its lobby. *)
Definition snapshotOf (e : Server.Emit) : option (string * Server.Room) :=
  match e with
  | Server.toSocket _ (Server.roomState room l _)
  | Server.toOthers _ _ (Server.roomState room l _)
  | Server.toRoom _ (Server.roomState room l _) => Some (l, room)
  | _ => None
  end.

(** Every socket that has joined a lobby is a member of it and the room of
    the lobby exists. *)
Definition membersHaveRooms (st : Server.State) : Prop :=
  forall s l, Server.lobbyOf s st = Some l ->
              s ∈ Server.socketsIn l st /\ is_Some (Server.rooms st !! l).

(** ** Boards used as examples *)

(** A board with a full line of X and a full line of O. *)
Definition twoLinesBoard : Board :=
  [Some X; Some X; Some X; Some O; Some O; Some O; None; None; None].

(** O can complete the diagonal 2-4-6 and X the row 0-1-2, both at cell 2. *)
Definition winOrBlockBoard : Board :=
  [Some X; Some X; None; None; Some O; None; Some O; None; Some X].

(** The full board of the draw scenario. *)
Definition drawBoard : Board :=
  [Some X; Some O; Some X; Some X; Some O; Some O; Some O; Some X; Some X].

(** ** States used as examples *)

(** Two sockets, then a third one, join the lobby [room]. *)
Definition twoPlayers : Server.State :=
  Server.run [Server.OpJoinLobby 0 "s1" "room" None;
              Server.OpJoinLobby 1 "s2" "room" None] Server.initial.

Definition threePlayers : Server.State :=
  Server.run [Server.OpJoinLobby 2 "s3" "room" None] twoPlayers.

(** The moves X0, O4, X1, O5, X2 of the end-to-end scenario, then a new
    game and a move. *)
Definition scenarioOps : list Server.Op :=
  [Server.OpMakeMove 3 "s1" (Server.JsInteger 0);
   Server.OpMakeMove 4 "s2" (Server.JsInteger 4);
   Server.OpMakeMove 5 "s1" (Server.JsInteger 1);
   Server.OpMakeMove 6 "s2" (Server.JsInteger 5);
   Server.OpMakeMove 7 "s1" (Server.JsInteger 2);
   Server.OpNewGame 8 "s2";
   Server.OpMakeMove 9 "s1" (Server.JsInteger 8)].

Definition scenarioRoom : Server.Room :=
  default (Server.newRoomState 0)
          (Server.rooms (Server.run scenarioOps twoPlayers) !! "room").

(** The third socket moves after the first one. *)
Definition thirdMoves : Server.State :=
  Server.run [Server.OpMakeMove 3 "s1" (Server.JsInteger 0);
              Server.OpMakeMove 4 "s3" (Server.JsInteger 3)] threePlayers.

(** A second lobby beside the one of [twoPlayers]. *)
Definition twoLobbies : Server.State :=
  Server.run [Server.OpJoinLobby 2 "s3" "other" None] twoPlayers.

(** An offline PvP game in which O has been chosen to start. *)
Definition pvpOStarts : Client.Local :=
  Client.mkLocal Client.pvp X false false Client.medium false false None
    [Some X; None; None; None; Some O; None; None; None; None] true false
    (Client.mkStatistics 0 0 2 1 1 4).

(** The room of the two sockets, the engine of a page that has joined it,
    and the engine after the first snapshot. *)
Definition joinedRoom : Server.Room :=
  default (Server.newRoomState 0) (Server.rooms twoPlayers !! "room").

Definition joinedEngine : Client.Local :=
  Page.engine (Page.joinLobby "room" Page.loaded).1.

Definition mirroredEngine : Client.Local :=
  default joinedEngine
    (Page.renderFromRoomState joinedRoom
       (Page.set_myMark (Some X) joinedEngine)).

(** An offline PvP game on the loaded page: the mode button, then a click
    of X on cell 0, whose mark is drawn in the cell. *)
Definition afterFirstMark : Client.Local :=
  Page.engine
    (Page.run (fun _ => 0) [Page.ToggleModeBtn; Page.Click 0] Page.loaded).

(** The no-break space U+00A0 and the line separator U+2028. *)
Definition noBreakSpace : string :=
  String (Ascii.ascii_of_nat 194)
    (String (Ascii.ascii_of_nat 160) EmptyString).

Definition lineSeparator : string :=
  String (Ascii.ascii_of_nat 226)
    (String (Ascii.ascii_of_nat 128)
       (String (Ascii.ascii_of_nat 168) EmptyString)).

(** * Properties *)

(** ** Rules evaluator *)

Lemma line_winner_Some board l m :
  line_winner board l = Some m <-> line_full board l m.
Proof.
  destruct l as [[a b] c]; unfold line_winner, line_full.
  destruct (board !! a) as [[m'|]|] eqn:Ha.
  - destruct (bool_decide (board !! b = Some (Some m'))) eqn:Hb;
      destruct (bool_decide (board !! c = Some (Some m'))) eqn:Hc; simpl;
      try apply bool_decide_eq_true in Hb; try apply bool_decide_eq_true in Hc;
      try apply bool_decide_eq_false in Hb;
      try apply bool_decide_eq_false in Hc;
      split; try (intros [= <-]; done); try (intros [[= ->] [? ?]]; congruence).
  - split; [done | intros [? _]; congruence].
  - split; [done | intros [? _]; congruence].
Qed.

Lemma line_winner_None board l :
  line_winner board l = None <-> forall m, ~ line_full board l m.
Proof.
  split.
  - intros H m Hm. apply line_winner_Some in Hm. congruence.
  - intros H. destruct (line_winner board l) as [m|] eqn:E; [|done].
    apply line_winner_Some in E. by destruct (H m).
Qed.

(** The scan returns the mark of the first line of the table that is full
    of one mark. *)
Lemma checkWinner_scan_first wins board m :
  checkWinner_scan wins board = Some m <->
  exists pre l post,
    wins = pre ++ l :: post /\ line_full board l m /\
    forall l' m', l' ∈ pre -> ~ line_full board l' m'.
Proof.
  induction wins as [|l0 rest IH]; simpl.
  - split; [done|]. intros (pre & l & post & E & _). by destruct pre.
  - destruct (line_winner board l0) as [m0|] eqn:E0.
    + split.
      * intros [= <-]. exists [], l0, rest. split; [done|].
        split; [by apply line_winner_Some|]. intros l' m' Hin.
        by apply elem_of_nil in Hin.
      * intros (pre & l & post & E & Hl & Hpre).
        destruct pre as [|p pre]; simplify_eq/=.
        -- apply line_winner_Some in Hl. congruence.
        -- apply line_winner_Some in E0. destruct (Hpre p m0); [left|done].
    + rewrite IH. split.
      * intros (pre & l & post & -> & Hl & Hpre).
        exists (l0 :: pre), l, post. split; [done|]. split; [done|].
        intros l' m' Hin. apply elem_of_cons in Hin as [-> | Hin].
        -- by apply line_winner_None.
        -- by apply Hpre.
      * intros (pre & l & post & E & Hl & Hpre).
        destruct pre as [|p pre]; simplify_eq/=.
        -- apply line_winner_Some in Hl. congruence.
        -- exists pre, l, post. split; [done|]. split; [done|].
           intros l' m' Hin. apply Hpre. by right.
Qed.

Lemma checkWinner_scan_Some wins board m :
  checkWinner_scan wins board = Some m ->
  exists l, l ∈ wins /\ line_full board l m.
Proof.
  intros (pre & l & post & -> & Hl & _)%checkWinner_scan_first.
  exists l. split; [|done]. apply elem_of_app. right. left.
Qed.

Lemma checkWinner_scan_None wins board :
  checkWinner_scan wins board = None <->
  forall l m, l ∈ wins -> ~ line_full board l m.
Proof.
  induction wins as [|l rest IH]; simpl.
  - split; [intros _ l m Hin; by apply elem_of_nil in Hin | done].
  - destruct (line_winner board l) as [m'|] eqn:E.
    + split; [done|]. intros H. apply line_winner_Some in E.
      destruct (H l m'); [left | done].
    + rewrite IH. split.
      * intros H l' m Hin. apply elem_of_cons in Hin as [-> | Hin].
        -- by apply line_winner_None.
        -- by apply H.
      * intros H l' m Hin. apply H. by right.
Qed.

(** When only one mark holds full lines, the order of the table does not
    matter. *)
Lemma checkWinner_scan_single wins board l m :
  l ∈ wins -> line_full board l m ->
  (forall l', l' ∈ wins -> ~ line_full board l' (other m)) ->
  checkWinner_scan wins board = Some m.
Proof.
  intros Hin Hl Hother.
  destruct (checkWinner_scan wins board) as [m'|] eqn:E.
  - apply checkWinner_scan_Some in E as (l' & Hin' & Hl').
    destruct m, m'; try done; by destruct (Hother l' Hin').
  - exfalso. eapply checkWinner_scan_None; eauto.
Qed.

(** C1, as stated, fails: on a board of nine cells with a row of X above a
    row of O, a win-line is full of O and [checkWinner] returns X. *)
Lemma checkWinner_iff_any_line_fails :
  ~ (forall (board : Board) (M : Mark),
       length board = 9 ->
       (checkWinner board = Some M <->
        exists l, l ∈ winningCombinations /\ line_full board l M)).
Proof.
  intros H. destruct (H twoLinesBoard O eq_refl) as [_ H2].
  assert (checkWinner twoLinesBoard = Some O) as E; [|by vm_compute in E].
  apply H2. exists (3, 4, 5). split; [|by vm_compute].
  unfold winningCombinations. right; left.
Qed.

(** C1 (amended): for every board, [checkWinner] returns the mark M exactly
    when the first win-line of the table that is full of one mark is full
    of M; so a returned M fills a win-line, a mark is returned exactly
    when some win-line is full of one mark, [null] is returned exactly when
    no win-line is, and on a board where the other mark fills no win-line
    the result is M exactly when some win-line is full of M. *)
Theorem checkWinner_first_full_line (board : Board) (M : Mark) :
  (checkWinner board = Some M <->
   exists pre l post,
     winningCombinations = pre ++ l :: post /\ line_full board l M /\
     forall l' m', l' ∈ pre -> ~ line_full board l' m')
  /\ (checkWinner board = Some M ->
      exists l, l ∈ winningCombinations /\ line_full board l M)
  /\ (is_Some (checkWinner board) <->
      exists l m, l ∈ winningCombinations /\ line_full board l m)
  /\ (checkWinner board = None <->
      forall l m, l ∈ winningCombinations -> ~ line_full board l m)
  /\ ((forall l, l ∈ winningCombinations -> ~ line_full board l (other M)) ->
      (checkWinner board = Some M <->
       exists l, l ∈ winningCombinations /\ line_full board l M)).
Proof.
  unfold checkWinner. repeat split.
  - apply checkWinner_scan_first.
  - apply checkWinner_scan_first.
  - apply checkWinner_scan_Some.
  - intros [m Hm]. apply checkWinner_scan_Some in Hm as (l & ? & ?). eauto.
  - intros (l & m & Hin & Hl).
    destruct (checkWinner_scan winningCombinations board) eqn:E; [done|].
    exfalso. eapply checkWinner_scan_None; eauto.
  - apply checkWinner_scan_None.
  - apply checkWinner_scan_None.
  - apply checkWinner_scan_Some.
  - intros (l & Hin & Hl). eapply checkWinner_scan_single; eauto.
Qed.

Lemma isBoardFull_true (board : Board) :
  isBoardFull board = true <->
  forall i cell, board !! i = Some cell -> cell <> None.
Proof.
  unfold isBoardFull. rewrite forallb_forall. split.
  - intros H i cell Hi. apply (bool_decide_eq_true_1 _), H.
    apply list_elem_of_In, list_elem_of_lookup. eauto.
  - intros H cell Hin. apply bool_decide_eq_true_2.
    apply list_elem_of_In, list_elem_of_lookup in Hin as [i Hi]. eauto.
Qed.

Lemma isBoardFull_nine (board : Board) :
  length board = 9 ->
  isBoardFull board = true <->
  forall i, i < 9 -> exists m, board !! i = Some (Some m).
Proof.
  intros Hlen. rewrite isBoardFull_true. split.
  - intros H i Hi. destruct (lookup_lt_is_Some_2 board i) as [cell Hc]; [lia|].
    destruct cell as [m|]; [eauto | by destruct (H i None)].
  - intros H i cell Hc. assert (i < 9) as Hi.
    { rewrite <- Hlen. eapply lookup_lt_Some; eauto. }
    destruct (H i Hi) as [m Hm]. congruence.
Qed.

Lemma determineWinner_true player (board : Board) :
  determineWinner player board = true <->
  exists l, l ∈ winningCombinations /\ line_full board l player.
Proof.
  unfold determineWinner. rewrite existsb_exists. split.
  - intros (l & Hin & Hl). exists l. split; [by apply list_elem_of_In|].
    by apply bool_decide_eq_true in Hl.
  - intros (l & Hin & Hl). exists l. split; [by apply list_elem_of_In|].
    by apply bool_decide_eq_true.
Qed.

Lemma isDraw_true (board : Board) :
  Server.isDraw board = true <->
  isBoardFull board = true /\ checkWinner board = None.
Proof.
  unfold Server.isDraw. rewrite andb_true_iff, negb_true_iff.
  rewrite bool_decide_eq_false. split; intros [Hf Hw]; split; try done.
  - destruct (checkWinner board); [|done]. destruct Hw. eauto.
  - rewrite Hw. by intros [? ?].
Qed.

(** The draw test of the local engine is [isGameOver()] reached after
    [determineWinner(playerMark)] has failed; it agrees with the one of the
    server on the boards where the other mark holds no line, as in every
    game in progress. *)
Lemma client_draw_test (board : Board) (playerMark : Mark) :
  (forall l, l ∈ winningCombinations ->
             ~ line_full board l (other playerMark)) ->
  negb (determineWinner playerMark board) && isBoardFull board
  = Server.isDraw board.
Proof.
  intros Hother. unfold Server.isDraw. rewrite andb_comm. f_equal. f_equal.
  destruct (determineWinner playerMark board) eqn:E.
  - apply determineWinner_true in E as (l & Hin & Hl). symmetry.
    apply bool_decide_eq_true. exists playerMark.
    eapply checkWinner_scan_single; eauto.
  - symmetry. apply bool_decide_eq_false. intros [m Hm].
    apply checkWinner_scan_Some in Hm as (l & Hin & Hl).
    destruct (decide (m = playerMark)) as [-> | Hne].
    + assert (determineWinner playerMark board = true); [|congruence].
      apply determineWinner_true. eauto.
    + apply (Hother l Hin). by destruct m, playerMark.
Qed.

(** C9: the draw test of the server, [board.every((c) => c !== null) &&
    !winner], holds exactly when every cell is occupied and [checkWinner]
    returns [null]; on a board of nine cells that is: each of the nine cells
    holds a mark.  The board [X,O,X,X,O,O,O,X,X] is such a draw.  The local
    engine tests [isGameOver()] after [determineWinner(playerMark)] has
    failed, which is the same test when the other mark holds no line. *)
Theorem isDraw_iff_full_and_no_winner :
  (forall board : Board,
     Server.isDraw board = true <->
     (forall i cell, board !! i = Some cell -> cell <> None)
     /\ checkWinner board = None)
  /\ (forall board : Board,
        length board = 9 ->
        (Server.isDraw board = true <->
         (forall i, i < 9 -> exists m, board !! i = Some (Some m))
         /\ checkWinner board = None))
  /\ (length drawBoard = 9 /\ checkWinner drawBoard = None
      /\ isBoardFull drawBoard = true /\ Server.isDraw drawBoard = true)
  /\ (forall (board : Board) (playerMark : Mark),
        (forall l, l ∈ winningCombinations ->
                   ~ line_full board l (other playerMark)) ->
        negb (determineWinner playerMark board) && isBoardFull board
        = Server.isDraw board).
Proof.
  split; [|split; [|split]].
  - intros board. by rewrite isDraw_true, isBoardFull_true.
  - intros board Hlen. by rewrite isDraw_true, isBoardFull_nine.
  - by vm_compute.
  - apply client_draw_test.
Qed.

(** ** Illegal moves *)

Lemma getRoom_lookup now lobby st :
  Server.rooms (Server.getRoom now lobby st).2 !! lobby
  = Some (Server.getRoom now lobby st).1.
Proof.
  unfold Server.getRoom. destruct (Server.rooms st !! lobby) eqn:E; simpl.
  - done.
  - apply lookup_insert_eq.
Qed.

Lemma getRoom_existing now lobby st room :
  Server.rooms st !! lobby = Some room ->
  Server.getRoom now lobby st = (room, st).
Proof. intros E. unfold Server.getRoom. by rewrite E. Qed.

Lemma makeMove_illegal now socketId lobby index st :
  Server.lobbyOf socketId st = Some lobby ->
  Server.illegalMove (Server.getRoom now lobby st).1
                     (Server.markOf socketId st) index ->
  Server.makeMove now socketId index st
  = ((Server.getRoom now lobby st).2, []).
Proof.
  intros Hl Hill. unfold Server.makeMove. rewrite Hl.
  destruct (Server.getRoom now lobby st) as [room st1]; simpl in *.
  destruct (Server.isActive room) eqn:Hact; simpl; [|done].
  destruct Hill as [Hi | [Hi | Hi]]; [congruence | |].
  - destruct index as [z|]; [|done].
    destruct Hi as [Hrange | [held Hheld]].
    + assert ((z <? 0)%Z || (8 <? z)%Z = true) as ->; [|done].
      apply orb_true_iff. rewrite !Z.ltb_lt. lia.
    + destruct ((z <? 0)%Z || (8 <? z)%Z); [done|].
      by rewrite Hheld.
  - destruct index as [z|]; [|done].
    destruct ((z <? 0)%Z || (8 <? z)%Z); [done|].
    destruct (bool_decide _); [done|].
    destruct (Server.markOf socketId st) as [m|]; [|done].
    rewrite bool_decide_eq_true_2; [done | congruence].
Qed.

Lemma handlePlayerMove_ignored rnd i s :
  Client.ignoredClick i s -> Client.handlePlayerMove rnd i s = (s, None).
Proof.
  intros Hig. unfold Client.handlePlayerMove.
  destruct (bool_decide (9 <= i)); [done|].
  destruct Hig as [H | [[held H] | [H | [Hon Hm]]]].
  - by rewrite H.
  - rewrite H. simpl. by rewrite orb_true_r.
  - rewrite H. by rewrite orb_true_r.
  - destruct (_ || _ || _); [done|]. rewrite Hon.
    rewrite bool_decide_eq_false_2; [done | congruence].
Qed.

Lemma handlePlayerMove_inside_offline (s : Client.Local) :
  Client.isGameCurrentlyActive s = true ->
  Client.isProcessingMove s = false ->
  Client.onlineMode s = false ->
  Client.handlePlayerMove_inside false s
  = (Client.set_isProcessingMove true s, Client.throwsTypeError).
Proof.
  intros Ha Hp Hon. unfold Client.handlePlayerMove_inside.
  by rewrite Ha, Hp, Hon.
Qed.

Lemma handlePlayerMove_inside_online (s : Client.Local) :
  Client.isGameCurrentlyActive s = true ->
  Client.isProcessingMove s = false ->
  Client.onlineMode s = true ->
  Client.socket s = true ->
  Client.myMark s = Some (Client.currentPlayer s) ->
  Client.handlePlayerMove_inside false s
  = (Client.set_isProcessingMove true s, Client.emitsNaN).
Proof.
  intros Ha Hp Hon Hso Hm. unfold Client.handlePlayerMove_inside.
  rewrite Ha, Hp, Hon, Hso, Hm. simpl.
  by rewrite bool_decide_eq_true_2.
Qed.

(** C2: what the code does with an illegal move.  A [makeMove] request
    with a payload that is illegal (game over, index not an integer from 0 to
    8, cell occupied, or not the turn of the socket's mark) changes nothing
    and emits nothing, and so does the request of a socket that has joined no
    lobby and a click whose target is a cell, when the click is illegal.  The
    two cases that the code does not ignore: a [makeMove] event without
    argument throws a [TypeError]; and a click on the mark drawn in an
    occupied cell, in a game that is active and waits for a click, is not
    stopped by the guard: offline the page sets [isProcessingMove], throws a
    [TypeError] and ignores every click on a cell from then on; online, in
    its turn, it sets [isProcessingMove] and sends [NaN] as index.  The last
    conjunct evaluates the offline case after the first move of a PvP
    game. *)
Theorem click_on_a_mark_is_not_ignored :
  (forall now socketId lobby index st,
     Server.lobbyOf socketId st = Some lobby ->
     Server.illegalMove (Server.getRoom now lobby st).1
                        (Server.markOf socketId st) index ->
     Server.makeMove now socketId index st
     = ((Server.getRoom now lobby st).2, [])
     /\ Server.rooms (Server.makeMove now socketId index st).1 !! lobby
        = Some (Server.getRoom now lobby st).1
     /\ (forall room, Server.rooms st !! lobby = Some room ->
                      Server.makeMove now socketId index st = (st, [])))
  /\ (forall now socketId index st,
        Server.lobbyOf socketId st = None ->
        Server.makeMove now socketId index st = (st, []))
  /\ (forall rnd i s,
        Client.ignoredClick i s ->
        Client.handlePlayerMove rnd i s = (s, None))
  /\ (forall now socketId st,
        Server.onMakeMove now socketId Server.noArgument st = None)
  /\ (forall s,
        Client.isGameCurrentlyActive s = true ->
        Client.isProcessingMove s = false ->
        Client.onlineMode s = false ->
        Client.handlePlayerMove_inside false s
        = (Client.set_isProcessingMove true s, Client.throwsTypeError)
        /\ forall rnd i,
             Client.handlePlayerMove rnd i (Client.set_isProcessingMove true s)
             = (Client.set_isProcessingMove true s, None))
  /\ (forall s,
        Client.isGameCurrentlyActive s = true ->
        Client.isProcessingMove s = false ->
        Client.onlineMode s = true ->
        Client.socket s = true ->
        Client.myMark s = Some (Client.currentPlayer s) ->
        Client.handlePlayerMove_inside false s
        = (Client.set_isProcessingMove true s, Client.emitsNaN))
  /\ (Client.currentGameBoard afterFirstMark !! 0 = Some (Some X)
      /\ Client.isGameCurrentlyActive afterFirstMark = true
      /\ Client.isProcessingMove afterFirstMark = false
      /\ Client.handlePlayerMove_inside false afterFirstMark
         = (Client.set_isProcessingMove true afterFirstMark,
            Client.throwsTypeError)
      /\ Client.clicks (fun _ => 0) [0; 1; 2; 3; 4; 5; 6; 7; 8]
           (Client.set_isProcessingMove true afterFirstMark)
         = Client.set_isProcessingMove true afterFirstMark).
Proof.
  split; [|split; [|split; [|split; [|split; [|split]]]]].
  - intros now socketId lobby index st Hl Hill.
    rewrite (makeMove_illegal _ _ _ _ _ Hl Hill). simpl.
    split; [done|]. split; [apply getRoom_lookup|].
    intros room Hroom. by rewrite (getRoom_existing _ _ _ _ Hroom).
  - intros now socketId index st Hl. unfold Server.makeMove. by rewrite Hl.
  - apply handlePlayerMove_ignored.
  - done.
  - intros s Ha Hp Hon. split; [by apply handlePlayerMove_inside_offline|].
    intros rnd i. apply handlePlayerMove_ignored. right. right. by left.
  - apply handlePlayerMove_inside_online.
  - by vm_compute.
Qed.

(** ** Turn alternation *)

Lemma applyMove_board i m room :
  Server.board (Server.applyMove i m room) = <[i := Some m]> (Server.board room).
Proof.
  unfold Server.applyMove. destruct (checkWinner _); [done|].
  by destruct (Server.isDraw _).
Qed.


Lemma makeMove_legal now socketId lobby z room st :
  Server.lobbyOf socketId st = Some lobby ->
  Server.rooms st !! lobby = Some room ->
  Server.isActive room = true ->
  (0 <= z <= 8)%Z ->
  Server.board room !! Z.to_nat z = Some None ->
  Server.markOf socketId st = Some (Server.currentPlayer room) ->
  let room1 := Server.applyMove (Z.to_nat z) (Server.currentPlayer room) room in
  Server.makeMove now socketId (Server.JsInteger z) st
  = (Server.set_rooms (<[lobby := room1]> (Server.rooms st)) st,
     [Server.toRoom lobby (Server.roomState room1 lobby None)]).
Proof.
  intros Hl Hroom Hact Hz Hcell Hmark. simpl. unfold Server.makeMove.
  rewrite Hl, (getRoom_existing _ _ _ _ Hroom), Hact. simpl.
  assert ((z <? 0)%Z || (8 <? z)%Z = false) as ->.
  { apply orb_false_iff. rewrite !Z.ltb_ge. lia. }
  rewrite Hcell, Hmark. simpl.
  by rewrite bool_decide_eq_false_2; [|intros H; by apply H].
Qed.




(** ** Reset *)

(** C8, as stated, fails for the local engine: in offline PvP with O chosen
    as the starter, [creategameBoard] sets [currentPlayer] to O. *)
Lemma reset_to_X_fails_locally :
  ~ (forall s : Client.Local,
       let s1 := (Client.creategameBoard s).1 in
       Client.currentGameBoard s1 = replicate 9 None
       /\ Client.isGameCurrentlyActive s1 = true
       /\ Client.currentPlayer s1 = X
       /\ Client.gameStatistics s1 = Client.gameStatistics s).
Proof.
  intros H. destruct (H pvpOStarts) as (_ & _ & Hx & _). by vm_compute in Hx.
Qed.

Lemma newGame_room now socketId lobby st :
  Server.lobbyOf socketId st = Some lobby ->
  Server.rooms (Server.newGame now socketId st).1 !! lobby
  = Some (Server.mkRoom (replicate 9 None) X true
            (Server.stats (Server.getRoom now lobby st).1)
            (Server.createdAt (Server.getRoom now lobby st).1)
            (Server.players (Server.getRoom now lobby st).1)).
Proof.
  intros Hl. unfold Server.newGame. rewrite Hl.
  destruct (Server.getRoom now lobby st) as [room st1]. simpl.
  apply lookup_insert_eq.
Qed.

Lemma creategameBoard_state (s : Client.Local) :
  let s1 := (Client.creategameBoard s).1 in
  Client.currentGameBoard s1 = replicate 9 None
  /\ Client.isGameCurrentlyActive s1 = true
  /\ Client.isProcessingMove s1 = false
  /\ Client.gameStatistics s1 = Client.gameStatistics s
  /\ Client.currentPlayer s1
     = match Client.gameMode s with
       | Client.pvp =>
           if Client.onlineMode s then X
           else if Client.playerXStartsFirst s then X else O
       | Client.pvc => X
       end
  /\ (Client.creategameBoard s).2
     = match Client.gameMode s with
       | Client.pvp => false
       | Client.pvc => Client.computerStartsFirst s
       end.
Proof. destruct s as [[] ? ? ? ? ? ? ? ? ? ? ?]; by cbn. Qed.

(** C8 (amended): an explicit reset leaves every statistics counter as it
    was, empties the board and makes the game active.  The [newGame] handler
    of the server sets the current mark to X.  The local [creategameBoard]
    sets it to X as well, except in offline PvP with O chosen as the starter,
    where it sets it to O; in PvC with the computer chosen as the starter it
    also schedules the first move of the computer. *)
Theorem reset_clears_board_and_keeps_statistics :
  (forall now socketId lobby st,
     Server.lobbyOf socketId st = Some lobby ->
     exists room1,
       Server.rooms (Server.newGame now socketId st).1 !! lobby = Some room1
       /\ Server.board room1 = replicate 9 None
       /\ Server.currentPlayer room1 = X
       /\ Server.isActive room1 = true
       /\ Server.stats room1 = Server.stats (Server.getRoom now lobby st).1)
  /\ (forall s : Client.Local,
        let s1 := (Client.creategameBoard s).1 in
        Client.currentGameBoard s1 = replicate 9 None
        /\ Client.isGameCurrentlyActive s1 = true
        /\ Client.isProcessingMove s1 = false
        /\ Client.gameStatistics s1 = Client.gameStatistics s
        /\ Client.currentPlayer s1
           = match Client.gameMode s with
             | Client.pvp =>
                 if Client.onlineMode s then X
                 else if Client.playerXStartsFirst s then X else O
             | Client.pvc => X
             end
        /\ (Client.creategameBoard s).2
           = match Client.gameMode s with
             | Client.pvp => false
             | Client.pvc => Client.computerStartsFirst s
             end).
Proof.
  split.
  - intros now socketId lobby st Hl. eexists.
    split; [by apply newGame_room|]. done.
  - apply creategameBoard_state.
Qed.

Lemma reset_clears_board_and_keeps_statistics_witness :
  exists room1,
    Server.rooms (Server.newGame 8 "s2" (Server.run (take 5 scenarioOps)
                                            twoPlayers)).1 !! "room"
    = Some room1
    /\ Server.board room1 = replicate 9 None
    /\ Server.currentPlayer room1 = X
    /\ Server.isActive room1 = true
    /\ Server.stats room1 = Server.mkStats 1 0 0 1.
Proof.
  destruct reset_clears_board_and_keeps_statistics as [H _].
  destruct (H 8%Z "s2" "room" (Server.run (take 5 scenarioOps) twoPlayers))
    as (room1 & H1 & H2 & H3 & H4 & H5); [by vm_compute|].
  exists room1. repeat split; done.
Defined.

(** ** Statistics *)

(** A property of rooms that the fresh room has and that each update of a
    handler keeps holds of every room of every state that the server
    reaches. *)
Section RoomInvariant.
Import Server.

Variable P : Room -> Prop.
Hypothesis P_new : forall now, P (newRoomState now).
Hypothesis P_players :
  forall room ps,
    P room ->
    P (mkRoom (board room) (currentPlayer room) (isActive room) (stats room)
              (createdAt room) ps).
Hypothesis P_move : forall i m room, P room -> P (applyMove i m room).
Hypothesis P_newGame :
  forall room,
    P room ->
    P (mkRoom (replicate 9 None) X true (stats room) (createdAt room)
              (players room)).
Hypothesis P_resetStats :
  forall room,
    P room ->
    P (mkRoom (board room) (currentPlayer room) (isActive room)
              (mkStats 0 0 0 0) (createdAt room) (players room)).

Lemma invariant_getRoom now lobby st :
  map_Forall (fun _ => P) (rooms st) ->
  map_Forall (fun _ => P) (rooms (getRoom now lobby st).2)
  /\ P (getRoom now lobby st).1.
Proof.
  intros Hinv. unfold getRoom.
  destruct (rooms st !! lobby) as [room|] eqn:E; simpl.
  - split; [done|]. by apply (Hinv lobby room).
  - split; [|done]. by apply map_Forall_insert_2.
Qed.

Lemma invariant_step op st :
  map_Forall (fun _ => P) (rooms st) ->
  map_Forall (fun _ => P) (rooms (step op st).1).
Proof.
  intros Hinv.
  assert (forall now lobby room1,
            P room1 ->
            map_Forall (fun _ => P)
              (<[lobby := room1]> (rooms (getRoom now lobby st).2))) as Hset.
  { intros now lobby room1 H1. apply map_Forall_insert_2; [done|].
    by apply invariant_getRoom. }
  destruct op as [now s l r | now s i | now s | now s | s | l]; simpl.
  - unfold joinLobby. case_bool_decide; [done|].
    pose proof (invariant_getRoom now (trim l) st Hinv) as [_ Hroom].
    specialize (Hset now (trim l)).
    destruct (getRoom now (trim l) st) as [room st1]. simpl in *.
    by apply Hset, P_players.
  - unfold makeMove. destruct (lobbyOf s st) as [lobby|]; [|done].
    pose proof (invariant_getRoom now lobby st Hinv) as [Hst1 Hroom].
    specialize (Hset now lobby).
    destruct (getRoom now lobby st) as [room st1]. simpl in *.
    destruct (isActive room); simpl; [|done].
    destruct i as [z|]; [|done].
    destruct (_ || _); [done|]. destruct (bool_decide _); [done|].
    destruct (markOf s st) as [m|]; [|done].
    destruct (bool_decide _); [done|]. simpl. by apply Hset, P_move.
  - unfold newGame. destruct (lobbyOf s st) as [lobby|]; [|done].
    pose proof (invariant_getRoom now lobby st Hinv) as [_ Hroom].
    specialize (Hset now lobby).
    destruct (getRoom now lobby st) as [room st1]. simpl in *.
    by apply Hset, P_newGame.
  - unfold resetStats. destruct (lobbyOf s st) as [lobby|]; [|done].
    pose proof (invariant_getRoom now lobby st Hinv) as [_ Hroom].
    specialize (Hset now lobby).
    destruct (getRoom now lobby st) as [room st1]. simpl in *.
    by apply Hset, P_resetStats.
  - unfold disconnect. destruct (lobbyOf s st) as [lobby|]; [|done].
    destruct (rooms st !! lobby) as [room|] eqn:E; [|done].
    apply map_Forall_insert_2; [|done]. apply P_players.
    by apply (Hinv lobby room).
  - unfold cleanup. case_bool_decide; [|done]. simpl.
    case_bool_decide; [|done]. by apply map_Forall_delete.
Qed.

Lemma invariant_run ops st :
  map_Forall (fun _ => P) (rooms st) ->
  map_Forall (fun _ => P) (rooms (run ops st)).
Proof.
  revert st. induction ops as [|op ops IH]; intros st Hinv; [done|].
  apply IH. by apply invariant_step.
Qed.

Lemma invariant_reachable ops :
  map_Forall (fun _ => P) (rooms (run ops initial)).
Proof. apply invariant_run, map_Forall_empty. Qed.

End RoomInvariant.

Lemma balanced_countWin w s :
  Server.balanced s -> Server.balanced (Server.countWin w s).
Proof. unfold Server.balanced. destruct w; simpl; lia. Qed.

Lemma balanced_countDraw s :
  Server.balanced s -> Server.balanced (Server.countDraw s).
Proof. unfold Server.balanced. simpl. lia. Qed.

Lemma balanced_applyMove i m room :
  Server.balanced (Server.stats room) ->
  Server.balanced (Server.stats (Server.applyMove i m room)).
Proof.
  intros Hb. unfold Server.applyMove. destruct (checkWinner _); simpl.
  - by apply balanced_countWin.
  - destruct (Server.isDraw _); simpl; [by apply balanced_countDraw | done].
Qed.

Lemma statsInvariant_reachable ops :
  Server.statsInvariant (Server.run ops Server.initial).
Proof.
  apply (invariant_reachable
           (fun room => Server.balanced (Server.stats room))); try done.
  intros i m room. apply balanced_applyMove.
Qed.

(** C10: in every state that the server reaches from its initial state
    (no room) by any sequence of [joinLobby], [makeMove], [newGame] and
    [resetStats] requests, of disconnections and of clean-up timers, every
    room satisfies [xWins + oWins + draws = totalGames]. *)
Theorem statistics_balanced_in_reachable_rooms
    (ops : list Server.Op) (lobby : string) (room : Server.Room) :
  Server.rooms (Server.run ops Server.initial) !! lobby = Some room ->
  (Server.xWins (Server.stats room) + Server.oWins (Server.stats room)
   + Server.draws (Server.stats room)
   = Server.totalGames (Server.stats room))%Z.
Proof.
  intros Hroom. exact (statsInvariant_reachable ops lobby room Hroom).
Qed.

Lemma statistics_balanced_in_reachable_rooms_witness :
  Server.stats scenarioRoom = Server.mkStats 1 0 0 1
  /\ (Server.xWins (Server.stats scenarioRoom)
      + Server.oWins (Server.stats scenarioRoom)
      + Server.draws (Server.stats scenarioRoom)
      = Server.totalGames (Server.stats scenarioRoom))%Z.
Proof.
  split; [by vm_compute|].
  apply (statistics_balanced_in_reachable_rooms
           ([Server.OpJoinLobby 0 "s1" "room" None;
             Server.OpJoinLobby 1 "s2" "room" None] ++ scenarioOps) "room").
  by vm_compute.
Defined.

(** ** Joining a lobby *)

Section Joining.
Import Server.

Lemma socketsIn_getRoom now lobby st :
  socketsIn lobby (getRoom now lobby st).2 = socketsIn lobby st.
Proof. unfold getRoom. by destruct (rooms st !! lobby). Qed.

Lemma socketData_getRoom now lobby st :
  socketData (getRoom now lobby st).2 = socketData st.
Proof. unfold getRoom. by destruct (rooms st !! lobby). Qed.

(** The mark that a join without a requested mark assigns: X to a socket
    alone in the lobby, O as soon as the lobby holds two sockets or more. *)
Lemma joinLobby_assigned now socketId lobby st :
  trim lobby <> EmptyString ->
  markOf socketId (joinLobby now socketId lobby None st).1
  = Some (if bool_decide (2 <= size ({[socketId]} ∪ socketsIn (trim lobby) st))
          then O else X).
Proof.
  intros Hne. unfold joinLobby. rewrite bool_decide_eq_false_2; [|done].
  pose proof (socketsIn_getRoom now (trim lobby) st) as Hs.
  destruct (getRoom now (trim lobby) st) as [room st1]. simpl in *.
  unfold markOf. simpl. rewrite lookup_insert_eq. simpl. by rewrite Hs.
Qed.

(** A join creates the room when it is missing. *)
Lemma joinLobby_creates now socketId lobby requested st :
  trim lobby <> EmptyString ->
  is_Some (rooms (joinLobby now socketId lobby requested st).1 !! trim lobby).
Proof.
  intros Hne. unfold joinLobby. rewrite bool_decide_eq_false_2; [|done].
  destruct (getRoom now (trim lobby) st) as [room st1]. simpl.
  rewrite lookup_insert_eq. eauto.
Qed.

(** A join leaves the marks of the other sockets as they are. *)
Lemma joinLobby_keeps_others now socketId lobby requested st other_socket :
  other_socket <> socketId ->
  markOf other_socket (joinLobby now socketId lobby requested st).1
  = markOf other_socket st.
Proof.
  intros Hne. unfold joinLobby. case_bool_decide; [done|].
  pose proof (socketData_getRoom now (trim lobby) st) as Hs.
  destruct (getRoom now (trim lobby) st) as [room st1]. simpl in *.
  unfold markOf. simpl. rewrite lookup_insert_ne; [|done]. by rewrite Hs.
Qed.

End Joining.

(** C7: evaluation of [joinLobby] on three sockets that join the same lobby
    one after the other, none of them leaving.  The first is assigned X and
    the second O, and their marks are kept; the third is told that the room
    is full, and is assigned the mark O all the same: three sockets hold a
    mark, and a move of the third socket is accepted. *)
Theorem third_joiner_is_assigned_mark_O :
  Server.markOf "s1" twoPlayers = Some X
  /\ Server.markOf "s2" twoPlayers = Some O
  /\ Server.markOf "s1" threePlayers = Some X
  /\ Server.markOf "s2" threePlayers = Some O
  /\ Server.markOf "s3" threePlayers = Some O
  /\ Server.toSocket "s3"
       (Server.errorMsg "Room is full (2 players). Spectators not allowed.")
     ∈ (Server.step (Server.OpJoinLobby 2 "s3" "room" None) twoPlayers).2
  /\ Server.board <$> Server.rooms thirdMoves !! "room"
     = Some [Some X; None; None; Some O; None; None; None; None; None].
Proof. repeat split; try (by vm_compute). vm_compute. do 2 right. left. Qed.

(** ** Medium tier *)

Lemma criticalInLine_Some (board : Board) m l e :
  criticalInLine board m 2 l = Some e <-> completable board m l e.
Proof.
  destruct l as [[a b] c]. unfold criticalInLine, completable.
  cbn [find].
  destruct (board !! a) as [[[]|]|] eqn:Ha;
    destruct (board !! b) as [[[]|]|] eqn:Hb;
    destruct (board !! c) as [[[]|]|] eqn:Hc;
    destruct m; vm_compute;
    (split; [intros [= <-] || (intros ?; discriminate)
            | intros [(? & ? & ? & ?) | [(? & ? & ? & ?) | (? & ? & ? & ?)]];
              congruence]);
    auto 10.
Qed.

Lemma findCriticalMove_scan_Some combos (board : Board) m e :
  findCriticalMove_scan combos board m 2 = Some e ->
  exists l, l ∈ combos /\ completable board m l e.
Proof.
  induction combos as [|l rest IH]; simpl; [done|].
  destruct (criticalInLine board m 2 l) as [e'|] eqn:E.
  - intros [= <-]. exists l. split; [left | by apply criticalInLine_Some].
  - intros H. destruct (IH H) as (l' & Hin & Hl').
    exists l'. split; [by right | done].
Qed.

Lemma findCriticalMove_scan_None combos (board : Board) m :
  findCriticalMove_scan combos board m 2 = None <->
  forall l e, l ∈ combos -> ~ completable board m l e.
Proof.
  induction combos as [|l rest IH]; simpl.
  - split; [intros _ l e Hin; by apply elem_of_nil in Hin | done].
  - destruct (criticalInLine board m 2 l) as [e'|] eqn:E.
    + split; [done|]. intros H. apply criticalInLine_Some in E.
      destruct (H l e'); [left | done].
    + rewrite IH. split.
      * intros H l' e Hin. apply elem_of_cons in Hin as [-> | Hin].
        -- intros Hc. apply criticalInLine_Some in Hc. congruence.
        -- by apply H.
      * intros H l' e Hin. apply H. by right.
Qed.

(** Writing the mark at the empty cell of a completable line fills it. *)
Lemma completable_fills (board : Board) m l e :
  completable board m l e -> line_full (<[e := Some m]> board) l m.
Proof.
  assert (forall i j c, board !! i = Some c -> board !! j = Some (Some m) ->
                        <[i := Some m]> board !! j = Some (Some m)) as Hk.
  { intros i j c Hi Hj. destruct (decide (i = j)) as [-> | Hne].
    - apply list_lookup_insert_eq. eapply lookup_lt_Some; eauto.
    - by rewrite list_lookup_insert_ne. }
  assert (forall i c, board !! i = Some c ->
                      <[i := Some m]> board !! i = Some (Some m)) as Hs.
  { intros i c Hi. apply list_lookup_insert_eq. eapply lookup_lt_Some; eauto. }
  destruct l as [[a b] c]. unfold completable, line_full.
  intros [(-> & Ha & Hb & Hc) | [(-> & Ha & Hb & Hc) | (-> & Ha & Hb & Hc)]];
    eauto 10.
Qed.

Lemma chooseMove_medium_completes rnd (board : Board) :
  (exists l e, l ∈ winningCombinations /\ completable board O l e) ->
  exists i l,
    Client.chooseMove rnd Client.medium board = Some i
    /\ l ∈ winningCombinations /\ completable board O l i
    /\ line_full (<[i := Some O]> board) l O.
Proof.
  intros (l & e & Hin & Hc). unfold Client.chooseMove, findCriticalMove.
  destruct (findCriticalMove_scan winningCombinations board O 2)
    as [i|] eqn:E.
  - destruct (findCriticalMove_scan_Some _ _ _ _ E) as (l' & Hin' & Hc').
    exists i, l'. eauto using completable_fills.
  - exfalso. eapply findCriticalMove_scan_None; eauto.
Qed.

Lemma chooseMove_medium_blocks rnd (board : Board) :
  (forall l e, l ∈ winningCombinations -> ~ completable board O l e) ->
  (exists l e, l ∈ winningCombinations /\ completable board X l e) ->
  exists i l,
    Client.chooseMove rnd Client.medium board = Some i
    /\ l ∈ winningCombinations /\ completable board X l i.
Proof.
  intros HnoO (l & e & Hin & Hc). unfold Client.chooseMove, findCriticalMove.
  destruct (findCriticalMove_scan winningCombinations board O 2)
    as [i|] eqn:EO.
  { destruct (findCriticalMove_scan_Some _ _ _ _ EO) as (l' & Hin' & Hc').
    by destruct (HnoO l' i). }
  destruct (findCriticalMove_scan winningCombinations board X 2)
    as [i|] eqn:EX.
  - destruct (findCriticalMove_scan_Some _ _ _ _ EX) as (l' & Hin' & Hc').
    exists i, l'. eauto.
  - exfalso. eapply findCriticalMove_scan_None; eauto.
Qed.

(** C5: on the medium tier, when some win-line holds O twice and has its
    third cell empty, the move chosen is the empty cell of such a line, and
    writing O there fills the line; when no win-line is so for O and one is
    for X, the move chosen is the empty cell of such a line of X; this
    whatever the centre, the corners and the sides hold and whatever random
    numbers would be drawn. *)
Theorem medium_completes_then_blocks :
  (forall rnd (board : Board),
     (exists l e, l ∈ winningCombinations /\ completable board O l e) ->
     exists i l,
       Client.chooseMove rnd Client.medium board = Some i
       /\ l ∈ winningCombinations /\ completable board O l i
       /\ line_full (<[i := Some O]> board) l O)
  /\ (forall rnd (board : Board),
        (forall l e, l ∈ winningCombinations -> ~ completable board O l e) ->
        (exists l e, l ∈ winningCombinations /\ completable board X l e) ->
        exists i l,
          Client.chooseMove rnd Client.medium board = Some i
          /\ l ∈ winningCombinations /\ completable board X l i).
Proof.
  split.
  - apply chooseMove_medium_completes.
  - apply chooseMove_medium_blocks.
Qed.

Lemma medium_completes_then_blocks_witness :
  exists i l,
    Client.chooseMove (fun _ => 0) Client.medium winOrBlockBoard = Some i
    /\ l ∈ winningCombinations /\ completable winOrBlockBoard O l i
    /\ line_full (<[i := Some O]> winOrBlockBoard) l O.
Proof.
  apply (proj1 medium_completes_then_blocks).
  exists (2, 4, 6), 2. split; [do 7 right; left | vm_compute; auto].
Defined.

(** ** Empty cells *)

Lemma emptyIndices_shift (board : Board) (g : nat -> nat) :
  omap id (imap (fun i (v : Cell) =>
                   if bool_decide (v = None) then Some (g i) else None) board)
  = g <$> getEmptyIndices board.
Proof.
  unfold getEmptyIndices. revert g.
  induction board as [|c board IH]; intros g; [done|].
  cbn [imap]. unfold compose.
  destruct c as [m|]; cbn.
  - rewrite (IH (fun i => g (S i))), (IH S).
    rewrite <- list_fmap_compose. done.
  - rewrite (IH (fun i => g (S i))), (IH S).
    rewrite <- list_fmap_compose. done.
Qed.

Lemma getEmptyIndices_cons (c : Cell) (board : Board) :
  getEmptyIndices (c :: board)
  = (if bool_decide (c = None) then [0] else [])
    ++ (S <$> getEmptyIndices board).
Proof.
  unfold getEmptyIndices at 1. cbn [imap]. unfold compose.
  destruct c as [m|]; cbn; by rewrite (emptyIndices_shift board S).
Qed.

Lemma elem_of_getEmptyIndices (board : Board) i :
  i ∈ getEmptyIndices board <-> board !! i = Some None.
Proof.
  revert i. induction board as [|c board IH]; intros i.
  - split; [intros H; by apply elem_of_nil in H | done].
  - rewrite getEmptyIndices_cons, elem_of_app, list_elem_of_fmap.
    destruct i as [|i]; simpl.
    + split.
      * intros [H | (j & ? & _)]; [|done].
        case_bool_decide; [by subst | by apply elem_of_nil in H].
      * intros [= ->]. left. rewrite bool_decide_eq_true_2; [left | done].
    + rewrite <- IH. split.
      * intros [H | (j & [= <-] & Hj)]; [|done].
        case_bool_decide; [|by apply elem_of_nil in H].
        by apply list_elem_of_singleton in H.
      * intros H. right. eauto.
Qed.

(** The empty indices come in increasing order. *)
Lemma getEmptyIndices_increasing (board : Board) k k' i j :
  k < k' ->
  getEmptyIndices board !! k = Some i ->
  getEmptyIndices board !! k' = Some j ->
  i < j.
Proof.
  revert k k' i j. induction board as [|c board IH]; intros k k' i j Hk.
  - done.
  - rewrite getEmptyIndices_cons. case_bool_decide; simpl.
    + destruct k' as [|k']; [lia|]. simpl. rewrite list_lookup_fmap.
      destruct k as [|k]; simpl.
      * intros [= <-]. destruct (getEmptyIndices board !! k'); [|done].
        intros [= <-]. lia.
      * rewrite list_lookup_fmap.
        destruct (getEmptyIndices board !! k) as [i0|] eqn:Ei; [|done].
        destruct (getEmptyIndices board !! k') as [j0|] eqn:Ej; [|done].
        intros [= <-] [= <-]. apply -> Nat.succ_lt_mono.
        apply (IH k k'); [lia | done | done].
    + rewrite !list_lookup_fmap.
      destruct (getEmptyIndices board !! k) as [i0|] eqn:Ei; [|done].
      destruct (getEmptyIndices board !! k') as [j0|] eqn:Ej; [|done].
      intros [= <-] [= <-]. apply -> Nat.succ_lt_mono.
      by apply (IH k k').
Qed.

Lemma length_getEmptyIndices_cons (c : Cell) (board : Board) :
  length (getEmptyIndices (c :: board))
  = (if bool_decide (c = None) then 1 else 0)
    + length (getEmptyIndices board).
Proof.
  rewrite getEmptyIndices_cons, length_app, length_fmap.
  by case_bool_decide.
Qed.

(** Writing a mark at an empty cell leaves one empty cell less. *)
Lemma length_getEmptyIndices_insert (board : Board) i m :
  board !! i = Some None ->
  S (length (getEmptyIndices (<[i := Some m]> board)))
  = length (getEmptyIndices board).
Proof.
  revert i. induction board as [|c board IH]; intros i; [done|].
  destruct i as [|i]; simpl.
  - intros [= ->]. by rewrite !length_getEmptyIndices_cons.
  - intros H. rewrite !length_getEmptyIndices_cons. specialize (IH i H).
    unfold insert in *. case_bool_decide; lia.
Qed.

Lemma isBoardFull_false (board : Board) :
  isBoardFull board = false <-> exists i, board !! i = Some None.
Proof.
  split.
  - induction board as [|c board IH]; [done|]. simpl.
    destruct c as [m|]; simpl.
    + intros H. destruct (IH H) as [i Hi]. by exists (S i).
    + intros _. by exists 0.
  - intros [i Hi]. destruct (isBoardFull board) eqn:E; [|done].
    by destruct (proj1 (isBoardFull_true board) E i None).
Qed.

(** ** Minimax *)

(** The selection loops keep the first move whose score is extremal.
    [key] is the identity for the maximizer and the opposite for the
    minimizer. *)
Lemma selectBest_spec (key : Z -> Z) (beats : Z -> Z -> bool) :
  (forall s best, beats s best = (key best <? key s)%Z) ->
  forall (moves pre : list Move) bestScore bestMove,
    match bestMove, bestScore with
    | None, None => pre = []
    | Some k, Some s =>
        exists mv, pre !! k = Some mv /\ score mv = s /\
          forall k' mv', pre !! k' = Some mv' ->
            (key (score mv') <= key s)%Z
            /\ (k' < k -> (key (score mv') < key s)%Z)
    | _, _ => False
    end ->
    match selectBest beats moves (length pre) bestScore bestMove with
    | None => pre ++ moves = []
    | Some k =>
        exists mv, (pre ++ moves) !! k = Some mv /\
          forall k' mv', (pre ++ moves) !! k' = Some mv' ->
            (key (score mv') <= key (score mv))%Z
            /\ (k' < k -> (key (score mv') < key (score mv))%Z)
    end.
Proof.
  intros Hbeats moves. induction moves as [|mv rest IH];
    intros pre bestScore bestMove Hinv; simpl.
  - rewrite app_nil_r.
    destruct bestMove as [k|], bestScore as [s|]; try done.
    destruct Hinv as (mv & Hk & <- & Hall). eauto.
  - assert (length (pre ++ [mv]) = S (length pre)) as Hlen.
    { rewrite length_app. simpl. lia. }
    rewrite (cons_middle mv pre rest), app_assoc, <- Hlen.
    destruct bestMove as [k|], bestScore as [s|]; try done.
    + destruct Hinv as (mvk & Hk & <- & Hall).
      pose proof (lookup_lt_Some _ _ _ Hk) as Hklt.
      rewrite Hbeats. destruct (key (score mvk) <? key (score mv))%Z eqn:E.
      * apply Z.ltb_lt in E. apply IH. exists mv.
        split; [by apply list_lookup_middle|].
        split; [done|]. intros k' mv' Hk'.
        apply lookup_app_Some in Hk' as [Hk' | [Hge Hk']].
        -- destruct (Hall k' mv' Hk') as [Hle _]. split; lia.
        -- apply list_lookup_singleton_Some in Hk' as [_ <-].
           split; lia.
      * apply Z.ltb_ge in E. apply IH. exists mvk.
        split; [by rewrite lookup_app_l|]. split; [done|].
        intros k' mv' Hk'.
        apply lookup_app_Some in Hk' as [Hk' | [Hge Hk']].
        -- by apply Hall.
        -- apply list_lookup_singleton_Some in Hk' as [_ <-].
           split; [done | lia].
    + subst pre. apply IH. exists mv. simpl. split; [done|]. split; [done|].
      intros k' mv' Hk'. apply list_lookup_singleton_Some in Hk' as [-> <-].
      split; lia.
Qed.

Lemma bestMoveIndex_spec isMaximizing (moves : list Move) :
  moves <> [] ->
  exists k mv,
    bestMoveIndex isMaximizing moves = Some k /\ moves !! k = Some mv /\
    forall k' mv', moves !! k' = Some mv' ->
      if isMaximizing
      then (score mv' <= score mv)%Z /\ (k' < k -> (score mv' < score mv)%Z)
      else (score mv <= score mv')%Z /\ (k' < k -> (score mv < score mv')%Z).
Proof.
  intros Hne. unfold bestMoveIndex. destruct isMaximizing.
  - pose proof (selectBest_spec (fun z => z)
                  (fun s best => (best <? s)%Z) (fun _ _ => eq_refl)
                  moves [] None None eq_refl) as H.
    simpl in H. destruct (selectBest _ moves 0 None None) as [k|]; [|done].
    destruct H as (mv & Hk & Hall). eauto.
  - assert (forall s best, (s <? best)%Z = (- best <? - s)%Z) as Hb.
    { intros s best. destruct (Z.ltb_spec s best), (Z.ltb_spec (- best) (- s));
        (done || lia). }
    pose proof (selectBest_spec Z.opp (fun s best => (s <? best)%Z) Hb
                  moves [] None None eq_refl) as H.
    simpl in H. destruct (selectBest _ moves 0 None None) as [k|]; [|done].
    destruct H as (mv & Hk & Hall). exists k, mv. split; [done|].
    split; [done|]. intros k' mv' Hk'.
    destruct (Hall k' mv' Hk') as [H1 H2]. split; [lia|].
    intros Hlt. specialize (H2 Hlt). lia.
Qed.

Lemma mapM_ext_in {A B} (f g : A -> option B) (l : list A) :
  (forall x, x ∈ l -> f x = g x) -> mapM f l = mapM g l.
Proof.
  induction l as [|x l IH]; intros H; [done|]. simpl.
  rewrite (H x) by left. rewrite IH; [done|]. intros y Hy. apply H. by right.
Qed.

(** The result of [minimax_fuel] is the same for any two amounts of fuel
    above the number of empty cells. *)
Lemma minimax_fuel_irrelevant maxPlayer n1 :
  forall n2 (board : Board) depth isMaximizing,
    length (getEmptyIndices board) < n1 ->
    length (getEmptyIndices board) < n2 ->
    minimax_fuel n1 board depth isMaximizing maxPlayer
    = minimax_fuel n2 board depth isMaximizing maxPlayer.
Proof.
  induction n1 as [|n1 IH]; intros n2 board depth isMaximizing H1 H2; [lia|].
  destruct n2 as [|n2]; [lia|]. simpl.
  repeat (case_bool_decide; [done|]).
  destruct (isBoardFull board); [done|].
  rewrite (mapM_ext_in _
    (fun i => result ← minimax_fuel n2
                (<[i := Some (if isMaximizing then maxPlayer
                              else other maxPlayer)]> board)
                (depth + 1) (negb isMaximizing) maxPlayer;
              Some (mkMove (Some i) (score result)))); [done|].
  intros i Hi. apply elem_of_getEmptyIndices in Hi.
  pose proof (length_getEmptyIndices_insert board i
                (if isMaximizing then maxPlayer else other maxPlayer) Hi).
  rewrite (IH n2); [done | lia | lia].
Qed.

Lemma minimax_fuel_enough maxPlayer fuel (board : Board) depth isMaximizing :
  length (getEmptyIndices board) < fuel ->
  minimax_fuel fuel board depth isMaximizing maxPlayer
  = minimax board depth isMaximizing maxPlayer.
Proof. intros H. unfold minimax. apply minimax_fuel_irrelevant; lia. Qed.

(** The equation of [minimax], free of fuel. *)
Lemma minimax_unfold (board : Board) depth isMaximizing maxPlayer :
  minimax board depth isMaximizing maxPlayer
  = if bool_decide (checkWinner board = Some maxPlayer)
    then Some (mkMove None (10 - depth))
    else if bool_decide (checkWinner board = Some (other maxPlayer))
    then Some (mkMove None (depth - 10))
    else if isBoardFull board then Some (mkMove None 0)
    else
      moves ← mapM (fun i =>
                 result ← minimax
                   (<[i := Some (if isMaximizing then maxPlayer
                                 else other maxPlayer)]> board)
                   (depth + 1) (negb isMaximizing) maxPlayer;
                 Some (mkMove (Some i) (score result)))
               (getEmptyIndices board);
      bestMove ← bestMoveIndex isMaximizing moves;
      moves !! bestMove.
Proof.
  unfold minimax at 1. simpl.
  repeat (case_bool_decide; [done|]).
  destruct (isBoardFull board); [done|].
  rewrite (mapM_ext_in _
    (fun i => result ← minimax
                (<[i := Some (if isMaximizing then maxPlayer
                              else other maxPlayer)]> board)
                (depth + 1) (negb isMaximizing) maxPlayer;
              Some (mkMove (Some i) (score result)))); [done|].
  intros i Hi. apply elem_of_getEmptyIndices in Hi.
  pose proof (length_getEmptyIndices_insert board i
                (if isMaximizing then maxPlayer else other maxPlayer) Hi).
  rewrite minimax_fuel_enough; [done | lia].
Qed.

(** One element of the list [moves]: the index and the score of the
    recursive call. *)
Lemma scored_move (board : Board) depth (isMaximizing : bool)
    (maxPlayer : Mark) i mv :
  (result ← minimax (<[i := Some (if isMaximizing then maxPlayer
                                  else other maxPlayer)]> board)
             (depth + 1) (negb isMaximizing) maxPlayer;
   Some (mkMove (Some i) (score result))) = Some mv ->
  index mv = Some i
  /\ subtreeScore board depth isMaximizing maxPlayer i = Some (score mv).
Proof.
  unfold subtreeScore.
  destruct (minimax _ _ _ _) as [r|]; simpl; [|done]. by intros [= <-].
Qed.

(** [minimax] returns a result on every board. *)
Lemma minimax_is_Some (board : Board) depth isMaximizing maxPlayer :
  is_Some (minimax board depth isMaximizing maxPlayer).
Proof.
  remember (length (getEmptyIndices board)) as n eqn:Hn.
  revert board depth isMaximizing Hn.
  induction n as [n IH] using lt_wf_ind. intros board depth isMaximizing Hn.
  rewrite minimax_unfold.
  repeat (case_bool_decide; [eauto|]).
  destruct (isBoardFull board) eqn:Hfull; [eauto|].
  set (f := fun i : nat => _).
  assert (is_Some (mapM f (getEmptyIndices board))) as [moves Hmoves].
  { apply mapM_is_Some_2, Forall_forall. intros i Hi. unfold f. simpl.
    apply elem_of_getEmptyIndices in Hi.
    pose proof (length_getEmptyIndices_insert board i
                  (if isMaximizing then maxPlayer else other maxPlayer) Hi).
    assert (length (getEmptyIndices
                      (<[i := Some (if isMaximizing then maxPlayer
                                    else other maxPlayer)]> board)) < n)
      as Hlt by lia.
    destruct (IH _ Hlt _ (depth + 1)%Z (negb isMaximizing) eq_refl)
      as [r Hr].
    rewrite Hr. simpl. eauto. }
  rewrite Hmoves. simpl.
  assert (moves <> []) as Hne.
  { apply isBoardFull_false in Hfull as [i Hi].
    apply elem_of_getEmptyIndices in Hi. apply length_mapM in Hmoves.
    destruct moves; [|done]. destruct (getEmptyIndices board); [|done].
    by apply elem_of_nil in Hi. }
  destruct (bestMoveIndex_spec isMaximizing moves Hne)
    as (k & mv & Hk & Hmv & _).
  rewrite Hk. simpl. eauto.
Qed.

(** The choice of [minimax] on a board without a winner that has an empty
    cell: the first empty cell, in increasing order of index, whose subtree
    score is the largest for the maximizer and the smallest for the
    minimizer. *)
Lemma minimax_choice (board : Board) depth isMaximizing maxPlayer :
  checkWinner board = None -> isBoardFull board = false ->
  exists i sc,
    minimax board depth isMaximizing maxPlayer = Some (mkMove (Some i) sc)
    /\ board !! i = Some None
    /\ subtreeScore board depth isMaximizing maxPlayer i = Some sc
    /\ forall j, board !! j = Some None ->
         exists sj,
           subtreeScore board depth isMaximizing maxPlayer j = Some sj
           /\ if isMaximizing
              then (sj <= sc)%Z /\ (j < i -> (sj < sc)%Z)
              else (sc <= sj)%Z /\ (j < i -> (sc < sj)%Z).
Proof.
  intros Hw Hfull.
  pose proof (minimax_is_Some board depth isMaximizing maxPlayer) as Hsome.
  rewrite minimax_unfold in Hsome |- *. rewrite Hw, Hfull in Hsome |- *.
  rewrite !bool_decide_eq_false_2 in Hsome |- * by done.
  set (f := fun i : nat => _) in *.
  destruct (mapM f (getEmptyIndices board)) as [moves|] eqn:Hmoves;
    [|by destruct Hsome].
  simpl in *. apply mapM_Some_1 in Hmoves.
  assert (moves <> []) as Hne.
  { intros ->. destruct isMaximizing; by destruct Hsome. }
  destruct (bestMoveIndex_spec isMaximizing moves Hne)
    as (k & mv & Hk & Hmv & Hbest).
  rewrite Hk. simpl. rewrite Hmv.
  destruct (Forall2_lookup_r _ _ _ _ _ Hmoves Hmv) as (i & Hi & Hfi).
  apply scored_move in Hfi as [Hidx Hsc].
  exists i, (score mv). split; [destruct mv; simpl in *; by subst|].
  split; [apply elem_of_getEmptyIndices, list_elem_of_lookup; eauto|].
  split; [done|]. intros j Hj.
  apply elem_of_getEmptyIndices, list_elem_of_lookup in Hj as [k' Hk'].
  destruct (Forall2_lookup_l _ _ _ _ _ Hmoves Hk') as (mv' & Hmv' & Hfj).
  apply scored_move in Hfj as [_ Hsj].
  exists (score mv'). split; [done|].
  assert (j < i -> k' < k) as Hpos.
  { intros Hlt. destruct (decide (k' < k)) as [|Hge]; [done|].
    destruct (decide (k = k')) as [-> | Hne']; [simplify_eq; lia|].
    assert (k < k') as Hkk by lia.
    pose proof (getEmptyIndices_increasing board k k' i j Hkk Hi Hk'). lia. }
  specialize (Hbest k' mv' Hmv').
  destruct isMaximizing; destruct Hbest as [H1 H2]; split; auto.
Qed.

(** C4: [minimax] scores a board won by the maximizing mark as 10 minus the
    depth, a board won by the other mark as the depth minus 10 and a full
    board without a winner as 0.  On a board without a winner that has an
    empty cell, the call for the maximizer returns an empty cell together with
    its subtree score (the score of the recursive call one level deeper, after
    the mark has been written there): no empty cell has a larger subtree
    score, and every empty cell of smaller index has a strictly smaller one.
    The call for the minimizer returns the first empty cell of smallest
    subtree score. *)
Theorem minimax_scores_and_first_best_cell
    (board : Board) (depth : Z) (maxPlayer : Mark) :
  (forall isMaximizing,
     checkWinner board = Some maxPlayer ->
     minimax board depth isMaximizing maxPlayer
     = Some (mkMove None (10 - depth)))
  /\ (forall isMaximizing,
        checkWinner board = Some (other maxPlayer) ->
        minimax board depth isMaximizing maxPlayer
        = Some (mkMove None (depth - 10)))
  /\ (forall isMaximizing,
        checkWinner board = None -> isBoardFull board = true ->
        minimax board depth isMaximizing maxPlayer = Some (mkMove None 0))
  /\ (checkWinner board = None -> isBoardFull board = false ->
      exists i sc,
        minimax board depth true maxPlayer = Some (mkMove (Some i) sc)
        /\ board !! i = Some None
        /\ subtreeScore board depth true maxPlayer i = Some sc
        /\ forall j, board !! j = Some None ->
             exists sj,
               subtreeScore board depth true maxPlayer j = Some sj
               /\ (sj <= sc)%Z /\ (j < i -> (sj < sc)%Z))
  /\ (checkWinner board = None -> isBoardFull board = false ->
      exists i sc,
        minimax board depth false maxPlayer = Some (mkMove (Some i) sc)
        /\ board !! i = Some None
        /\ subtreeScore board depth false maxPlayer i = Some sc
        /\ forall j, board !! j = Some None ->
             exists sj,
               subtreeScore board depth false maxPlayer j = Some sj
               /\ (sc <= sj)%Z /\ (j < i -> (sc < sj)%Z)).
Proof.
  repeat split.
  - intros isMaximizing Hw. rewrite minimax_unfold, Hw.
    by rewrite bool_decide_eq_true_2.
  - intros isMaximizing Hw. rewrite minimax_unfold, Hw.
    rewrite bool_decide_eq_false_2; [|by destruct maxPlayer].
    by rewrite bool_decide_eq_true_2.
  - intros isMaximizing Hw Hfull. rewrite minimax_unfold, Hw, Hfull.
    by rewrite !bool_decide_eq_false_2.
  - intros Hw Hfull. apply (minimax_choice board depth true); done.
  - intros Hw Hfull. apply (minimax_choice board depth false); done.
Qed.

Lemma minimax_scores_and_first_best_cell_witness :
  exists i sc,
    minimax winOrBlockBoard 0 true O = Some (mkMove (Some i) sc)
    /\ winOrBlockBoard !! i = Some None
    /\ subtreeScore winOrBlockBoard 0 true O i = Some sc
    /\ forall j, winOrBlockBoard !! j = Some None ->
         exists sj,
           subtreeScore winOrBlockBoard 0 true O j = Some sj
           /\ (sj <= sc)%Z /\ (j < i -> (sj < sc)%Z).
Proof.
  apply (minimax_scores_and_first_best_cell winOrBlockBoard 0 O);
    by vm_compute.
Defined.

(** ** Hard tier *)

Section HardTier.
Import Client.

(** The hard tier draws no random number. *)
Lemma handleComputerMove_hard rnd rnd' s :
  difficulty s = hard -> handleComputerMove rnd s = handleComputerMove rnd' s.
Proof. intros H. unfold handleComputerMove, chooseMove. by rewrite H. Qed.

Lemma handlePlayerMove_hard rnd rnd' i s :
  difficulty s = hard -> handlePlayerMove rnd i s = handlePlayerMove rnd' i s.
Proof.
  intros H. unfold handlePlayerMove.
  rewrite (handleComputerMove_hard rnd rnd'); [done|].
  by destruct s.
Qed.

Lemma startGame_hard rnd rnd' s :
  difficulty s = hard -> startGame rnd s = startGame rnd' s.
Proof.
  intros H. unfold startGame.
  assert (difficulty (creategameBoard s).1 = hard) as Hd.
  { rewrite <- H. by destruct s as [[] ? ? ? ? ? ? ? ? ? ? ?]. }
  destruct (creategameBoard s) as [s1 scheduled].
  destruct scheduled; [|done]. by apply handleComputerMove_hard.
Qed.

Lemma neverLoses_inv fuel s :
  neverLoses fuel s = true ->
  settingsHard s = true
  /\ player (gameStatistics s) = 0%Z
  /\ checkWinner (currentGameBoard s) <> Some X
  /\ (isGameCurrentlyActive s = true ->
      isProcessingMove s = false
      /\ exists fuel', fuel = S fuel'
         /\ forall i, i ∈ getEmptyIndices (currentGameBoard s) ->
                      neverLoses fuel' (handlePlayerMove (fun _ => 0) i s).1
                      = true)
  /\ (isGameCurrentlyActive s = false -> endedWell s = true).
Proof.
  intros H.
  assert (settingsHard s
          && bool_decide (player (gameStatistics s) = 0%Z)
          && bool_decide (checkWinner (currentGameBoard s) <> Some X)
          && (if isGameCurrentlyActive s
              then negb (isProcessingMove s)
                   && match fuel with
                      | 0 => false
                      | S fuel' =>
                          forallb (fun i =>
                                     neverLoses fuel'
                                       (handlePlayerMove (fun _ => 0) i s).1)
                                  (getEmptyIndices (currentGameBoard s))
                      end
              else endedWell s) = true) as H'.
  { by destruct fuel. }
  clear H. rewrite !andb_true_iff in H'.
  destruct H' as [[[H1 H2] H3] H4].
  apply bool_decide_eq_true in H2, H3.
  repeat (split; [done|]). split.
  - intros Hact. rewrite Hact in H4. apply andb_true_iff in H4 as [H4 H5].
    apply negb_true_iff in H4. split; [done|].
    destruct fuel as [|fuel']; [done|]. exists fuel'. split; [done|].
    intros i Hi. rewrite forallb_forall in H5. apply H5.
    by apply list_elem_of_In.
  - intros Hact. by rewrite Hact in H4.
Qed.

Lemma settingsHard_inv s :
  settingsHard s = true ->
  gameMode s = pvc /\ difficulty s = hard /\ onlineMode s = false
  /\ length (currentGameBoard s) = 9.
Proof.
  unfold settingsHard. rewrite !andb_true_iff, negb_true_iff.
  intros [[[H1 H2] H3] H4]. apply bool_decide_eq_true in H1, H2, H4. done.
Qed.

(** Every click leads from an explored state to an explored state. *)
Lemma neverLoses_click rnd fuel i s :
  neverLoses fuel s = true ->
  exists fuel', neverLoses fuel' (handlePlayerMove rnd i s).1 = true.
Proof.
  intros H. destruct (neverLoses_inv _ _ H) as (Hs & _ & _ & Hact & _).
  destruct (settingsHard_inv _ Hs) as (_ & Hhard & _ & Hlen).
  rewrite (handlePlayerMove_hard rnd (fun _ => 0)) by done.
  destruct (isGameCurrentlyActive s) eqn:Eact.
  - destruct (Hact eq_refl) as (Hproc & fuel' & -> & Hall).
    destruct (currentGameBoard s !! i) as [[held|]|] eqn:Ecell.
    + rewrite handlePlayerMove_ignored; [by exists (S fuel')|].
      right. left. eauto.
    + exists fuel'. by apply Hall, elem_of_getEmptyIndices.
    + exists (S fuel'). unfold handlePlayerMove.
      rewrite bool_decide_eq_true_2; [done|].
      apply lookup_ge_None in Ecell. lia.
  - exists fuel. rewrite handlePlayerMove_ignored; [done | by left].
Qed.

Lemma neverLoses_clicks rnd cl :
  forall fuel s,
    neverLoses fuel s = true ->
    exists fuel', neverLoses fuel' (clicks rnd cl s) = true.
Proof.
  unfold clicks. induction cl as [|i cl IH]; intros fuel s H; simpl.
  - eauto.
  - destruct (neverLoses_click rnd fuel i s H) as [fuel' H']. eauto.
Qed.

(** The exploration succeeds from the start of a game, whoever starts. *)
Lemma neverLoses_start computerFirst :
  neverLoses 9 (startGame (fun _ => 0) (pvcStart hard computerFirst)) = true.
Proof. destruct computerFirst; vm_compute; reflexivity. Qed.

End HardTier.

(** C3: in a PvC game on the hard tier started from the empty board, with
    the player or the computer moving first, whatever cells the player
    clicks: X never holds a win-line, no win of the player is counted, and
    when the game is over it is a counted win of the computer, with a
    win-line of O, or a counted draw on a full board without a winner. *)
Theorem hard_tier_never_loses
    (rnd : nat -> nat) (computerFirst : bool) (cl : list nat) :
  let s := Client.clicks rnd cl
             (Client.startGame rnd (Client.pvcStart Client.hard computerFirst))
  in
  checkWinner (Client.currentGameBoard s) <> Some X
  /\ Client.player (Client.gameStatistics s) = 0%Z
  /\ (Client.isGameCurrentlyActive s = false ->
      (checkWinner (Client.currentGameBoard s) = Some O
       /\ Client.computer (Client.gameStatistics s) = 1%Z
       /\ Client.draws (Client.gameStatistics s) = 0%Z)
      \/ (isBoardFull (Client.currentGameBoard s) = true
          /\ checkWinner (Client.currentGameBoard s) = None
          /\ Client.computer (Client.gameStatistics s) = 0%Z
          /\ Client.draws (Client.gameStatistics s) = 1%Z)).
Proof.
  intros s. subst s.
  rewrite (startGame_hard rnd (fun _ => 0)) by done.
  destruct (neverLoses_clicks rnd cl _ _ (neverLoses_start computerFirst))
    as [fuel H].
  destruct (neverLoses_inv _ _ H) as (_ & Hp & Hx & _ & Hend).
  split; [done|]. split; [done|]. intros Hact. specialize (Hend Hact).
  unfold Client.endedWell in Hend.
  rewrite orb_true_iff, !andb_true_iff, !bool_decide_eq_true in Hend.
  destruct Hend as [[[? ?] ?] | [[[? ?] ?] ?]]; [left | right]; done.
Qed.

(** ** Further facts on the model *)

(** The boards of the rooms that the server reaches have nine cells, so the
    write of [makeMove], at an index from 0 to 8, is within the array. *)
Lemma reachable_boards_have_nine_cells (ops : list Server.Op) :
  map_Forall (fun _ room => length (Server.board room) = 9)
             (Server.rooms (Server.run ops Server.initial)).
Proof.
  apply (invariant_reachable (fun room => length (Server.board room) = 9));
    try done.
  intros i m room H. by rewrite applyMove_board, length_insert.
Qed.

(** On the medium tier the computer takes a win that is at hand: the move
    is written and the game ends as a counted win of the computer. *)
Lemma handleComputerMove_medium_wins rnd (s : Client.Local) :
  Client.onlineMode s = false ->
  Client.isGameCurrentlyActive s = true ->
  Client.difficulty s = Client.medium ->
  (exists l e, l ∈ winningCombinations
               /\ completable (Client.currentGameBoard s) O l e) ->
  exists i,
    Client.currentGameBoard (Client.handleComputerMove rnd s)
    = <[i := Some O]> (Client.currentGameBoard s)
    /\ Client.currentGameBoard s !! i = Some None
    /\ determineWinner O
         (Client.currentGameBoard (Client.handleComputerMove rnd s)) = true
    /\ Client.isGameCurrentlyActive (Client.handleComputerMove rnd s) = false
    /\ Client.gameStatistics (Client.handleComputerMove rnd s)
       = Client.countComputerWin (Client.gameStatistics s).
Proof.
  intros Hon Hact Hd Hex.
  destruct (chooseMove_medium_completes rnd _ Hex)
    as (i & l & Hchoose & Hin & Hc & Hfull).
  assert (Client.currentGameBoard s !! i = Some None) as Hi.
  { destruct l as [[a b] c].
    destruct Hc as [(-> & ? & _) | [(-> & _ & ? & _) | (-> & _ & _ & ?)]];
      done. }
  assert (determineWinner O (<[i := Some O]> (Client.currentGameBoard s))
          = true) as Hwin.
  { apply determineWinner_true. eauto. }
  exists i. unfold Client.handleComputerMove.
  rewrite Hon, Hact, Hd, Hchoose. simpl.
  rewrite bool_decide_eq_false_2.
  - simpl. rewrite Hwin. done.
  - apply elem_of_getEmptyIndices in Hi.
    destruct (getEmptyIndices (Client.currentGameBoard s)); [|done].
    by apply elem_of_nil in Hi.
Qed.

(** Two games against the hard tier, the player moving first: a draw after
    an opening at the centre, and a win of the computer after the player has
    left the diagonal 2-4-6 open. *)
Lemma hard_tier_games :
  let play cl :=
    let s := Client.clicks (fun _ => 0) cl
               (Client.startGame (fun _ => 0)
                  (Client.pvcStart Client.hard false)) in
    (Client.currentGameBoard s, Client.gameStatistics s) in
  play [4; 2; 3; 7; 8]
  = ([Some O; Some O; Some X; Some X; Some X; Some O; Some O; Some X; Some X],
     Client.mkStatistics 0 0 0 0 1 1)
  /\ play [0; 1; 2; 3]
     = ([Some X; Some X; Some O; Some X; Some O; None; Some O; None; None],
        Client.mkStatistics 0 1 0 0 0 1).
Proof. by vm_compute. Qed.

(** The end-to-end scenario: X plays 0, O plays 4, X plays 1, O plays 5 and
    X plays 2; X wins by the line 0-1-2, the game is over, and a further move
    at an empty cell changes nothing. *)
Lemma end_to_end_scenario :
  let st := Server.run (take 5 scenarioOps) twoPlayers in
  (Server.board <$> Server.rooms st !! "room")
  = Some [Some X; Some X; Some X; None; Some O; Some O; None; None; None]
  /\ (Server.isActive <$> Server.rooms st !! "room") = Some false
  /\ (Server.stats <$> Server.rooms st !! "room")
     = Some (Server.mkStats 1 0 0 1)
  /\ Server.makeMove 9 "s2" (Server.JsInteger 3) st = (st, []).
Proof. by vm_compute. Qed.

(** * Further properties of the code *)

(** ** Writing a mark on a board without a winner *)

Lemma line_full_insert_other (board : Board) i m l :
  line_full (<[i := Some m]> board) l (other m) -> line_full board l (other m).
Proof.
  assert (forall a, <[i := Some m]> board !! a = Some (Some (other m)) ->
                    board !! a = Some (Some (other m))) as H.
  { intros a Ha. apply list_lookup_insert_Some in Ha as [(_ & E & _) | [_ Ha]];
      [|done]. by destruct m. }
  destruct l as [[a b] c]. intros (Ha & Hb & Hc). repeat split; by apply H.
Qed.

Lemma checkWinner_None_lines (board : Board) :
  checkWinner board = None <->
  forall l m, l ∈ winningCombinations -> ~ line_full board l m.
Proof. apply checkWinner_scan_None. Qed.

(** After a mark has been written on a board without a winner, only that
    mark can have won. *)
Lemma checkWinner_insert (board : Board) i m w :
  checkWinner board = None ->
  checkWinner (<[i := Some m]> board) = Some w -> w = m.
Proof.
  intros Hnone Hw. apply checkWinner_scan_Some in Hw as (l & Hin & Hl).
  destruct (decide (w = m)) as [|Hne]; [done|].
  assert (w = other m) as -> by (by destruct w, m).
  apply line_full_insert_other in Hl.
  by destruct (proj1 (checkWinner_None_lines board) Hnone l (other m)).
Qed.

Lemma checkWinner_insert_determineWinner (board : Board) i m :
  checkWinner board = None ->
  checkWinner (<[i := Some m]> board)
  = if determineWinner m (<[i := Some m]> board) then Some m else None.
Proof.
  intros Hnone.
  destruct (determineWinner m (<[i := Some m]> board)) eqn:E.
  - apply determineWinner_true in E as (l & Hin & Hl).
    eapply checkWinner_scan_single; eauto.
    intros l' Hin' Hl'. apply line_full_insert_other in Hl'.
    by destruct (proj1 (checkWinner_None_lines board) Hnone l' (other m)).
  - destruct (checkWinner (<[i := Some m]> board)) as [w|] eqn:Ew; [|done].
    pose proof (checkWinner_insert _ _ _ _ Hnone Ew) as ->.
    apply checkWinner_scan_Some in Ew as (l & Hin & Hl).
    assert (determineWinner m (<[i := Some m]> board) = true); [|congruence].
    apply determineWinner_true. eauto.
Qed.

Lemma singleWinner_insert (board : Board) i m :
  checkWinner board = None -> singleWinner (<[i := Some m]> board).
Proof.
  intros Hnone l l' Hin Hin' [HX HO].
  pose proof (proj1 (checkWinner_None_lines board) Hnone) as Hno.
  destruct m.
  - apply (line_full_insert_other board i X) in HO. by destruct (Hno l' O).
  - apply (line_full_insert_other board i O) in HX. by destruct (Hno l X).
Qed.

Lemma singleWinner_no_winner (board : Board) :
  checkWinner board = None -> singleWinner board.
Proof.
  intros Hnone l l' Hin Hin' [HX _].
  by destruct (proj1 (checkWinner_None_lines board) Hnone l X).
Qed.

Lemma countMark_insert (board : Board) i m m' :
  board !! i = Some None ->
  countMark m' (<[i := Some m]> board)
  = countMark m' board + (if bool_decide (m' = m) then 1 else 0).
Proof.
  unfold countMark. revert i. induction board as [|c board IH]; intros i;
    [done|].
  destruct i as [|i]; simpl.
  - intros [= ->]. rewrite !filter_cons.
    case_bool_decide as Hm.
    + subst. rewrite decide_True by done. rewrite decide_False by done.
      simpl. lia.
    + rewrite decide_False by congruence. rewrite decide_False by done.
      simpl. lia.
  - intros Hi. rewrite !filter_cons. unfold insert in *.
    destruct (decide (c = Some m')); simpl; rewrite (IH i Hi); lia.
Qed.

Lemma countMark_empty m : countMark m (replicate 9 None) = 0.
Proof. reflexivity. Qed.

(** ** Rooms of the server *)

(** As [RoomInvariant], for a property that a move keeps only under the
    guards of the [makeMove] handler. *)
Section GuardedRoomInvariant.
Import Server.

Variable P : Room -> Prop.
Hypothesis P_new : forall now, P (newRoomState now).
Hypothesis P_players :
  forall room ps,
    P room ->
    P (mkRoom (board room) (currentPlayer room) (isActive room) (stats room)
              (createdAt room) ps).
Hypothesis P_move :
  forall i room,
    P room -> isActive room = true -> i < 9 ->
    mjoin (board room !! i) = None ->
    P (applyMove i (currentPlayer room) room).
Hypothesis P_newGame :
  forall room,
    P room ->
    P (mkRoom (replicate 9 None) X true (stats room) (createdAt room)
              (players room)).
Hypothesis P_resetStats :
  forall room,
    P room ->
    P (mkRoom (board room) (currentPlayer room) (isActive room)
              (mkStats 0 0 0 0) (createdAt room) (players room)).

Lemma guarded_getRoom now lobby st :
  map_Forall (fun _ => P) (rooms st) ->
  map_Forall (fun _ => P) (rooms (getRoom now lobby st).2)
  /\ P (getRoom now lobby st).1.
Proof.
  intros Hinv. unfold getRoom.
  destruct (rooms st !! lobby) as [room|] eqn:E; simpl.
  - split; [done|]. by apply (Hinv lobby room).
  - split; [|done]. by apply map_Forall_insert_2.
Qed.

Lemma guarded_step op st :
  map_Forall (fun _ => P) (rooms st) ->
  map_Forall (fun _ => P) (rooms (step op st).1).
Proof.
  intros Hinv.
  assert (forall now lobby room1,
            P room1 ->
            map_Forall (fun _ => P)
              (<[lobby := room1]> (rooms (getRoom now lobby st).2))) as Hset.
  { intros now lobby room1 H1. apply map_Forall_insert_2; [done|].
    by apply guarded_getRoom. }
  destruct op as [now s l r | now s i | now s | now s | s | l]; simpl.
  - unfold joinLobby. case_bool_decide; [done|].
    pose proof (guarded_getRoom now (trim l) st Hinv) as [_ Hroom].
    specialize (Hset now (trim l)).
    destruct (getRoom now (trim l) st) as [room st1]. simpl in *.
    by apply Hset, P_players.
  - unfold makeMove. destruct (lobbyOf s st) as [lobby|]; [|done].
    pose proof (guarded_getRoom now lobby st Hinv) as [Hst1 Hroom].
    specialize (Hset now lobby).
    destruct (getRoom now lobby st) as [room st1]. simpl in *.
    destruct (isActive room) eqn:Hact; simpl; [|done].
    destruct i as [z|]; [|done].
    destruct (_ || _) eqn:Hz; [done|].
    case_bool_decide as Hcell; [done|].
    destruct (markOf s st) as [m|]; [|done].
    case_bool_decide as Hm; [done|]. simpl.
    apply Hset. assert (currentPlayer room = m) as <-.
    { destruct (decide (currentPlayer room = m)); [done | by destruct Hm]. }
    apply P_move; [done | done | |].
    + apply orb_false_iff in Hz as [Hz1 Hz2].
      apply Z.ltb_ge in Hz1, Hz2. lia.
    + destruct (mjoin (board room !! Z.to_nat z)) eqn:E; [|done].
      destruct Hcell. eauto.
  - unfold newGame. destruct (lobbyOf s st) as [lobby|]; [|done].
    pose proof (guarded_getRoom now lobby st Hinv) as [_ Hroom].
    specialize (Hset now lobby).
    destruct (getRoom now lobby st) as [room st1]. simpl in *.
    by apply Hset, P_newGame.
  - unfold resetStats. destruct (lobbyOf s st) as [lobby|]; [|done].
    pose proof (guarded_getRoom now lobby st Hinv) as [_ Hroom].
    specialize (Hset now lobby).
    destruct (getRoom now lobby st) as [room st1]. simpl in *.
    by apply Hset, P_resetStats.
  - unfold disconnect. destruct (lobbyOf s st) as [lobby|]; [|done].
    destruct (rooms st !! lobby) as [room|] eqn:E; [|done].
    apply map_Forall_insert_2; [|done]. apply P_players.
    by apply (Hinv lobby room).
  - unfold cleanup. case_bool_decide; [|done]. simpl.
    case_bool_decide; [|done]. by apply map_Forall_delete.
Qed.

Lemma guarded_reachable ops :
  map_Forall (fun _ => P) (rooms (run ops initial)).
Proof.
  assert (forall st, map_Forall (fun _ => P) (rooms st) ->
                     map_Forall (fun _ => P) (rooms (run ops st))) as H.
  { induction ops as [|op ops IH]; intros st Hinv; [done|].
    apply IH. by apply guarded_step. }
  apply H, map_Forall_empty.
Qed.

End GuardedRoomInvariant.

Lemma wellFormedRoom_move i (room : Server.Room) :
  wellFormedRoom room -> Server.isActive room = true -> i < 9 ->
  mjoin (Server.board room !! i) = None ->
  wellFormedRoom (Server.applyMove i (Server.currentPlayer room) room).
Proof.
  intros (Hlen & Hact & Hsingle & Hcount) Ha Hi Hcell.
  assert (Server.board room !! i = Some None) as Hnull.
  { destruct (Server.board room !! i) as [[held|]|] eqn:Hc;
      [done | done | apply lookup_ge_None in Hc; unfold Cell in *; lia]. }
  destruct (proj1 Hact Ha) as [Hnone Hnotfull].
  rewrite Ha in Hcount.
  set (m := Server.currentPlayer room) in *.
  pose proof (countMark_insert _ i m X Hnull) as HcX.
  pose proof (countMark_insert _ i m O Hnull) as HcO.
  unfold wellFormedRoom, Server.applyMove.
  destruct (checkWinner (<[i := Some m]> (Server.board room))) as [w|] eqn:Ew;
    simpl.
  - rewrite length_insert. split; [done|]. split.
    { split; [done|]. intros [? _]. congruence. }
    split; [by apply singleWinner_insert|].
    rewrite HcX, HcO. fold m. destruct m; simpl in *; lia.
  - destruct (Server.isDraw (<[i := Some m]> (Server.board room))) eqn:Ed;
      simpl.
    + rewrite length_insert. split; [done|]. split.
      { split; [done|]. apply isDraw_true in Ed as [? _]. intros [_ ?].
        congruence. }
      split; [by apply singleWinner_insert|].
      rewrite HcX, HcO. fold m. destruct m; simpl in *; lia.
    + rewrite length_insert. split; [done|]. split.
      { split; [|done]. intros _. split; [done|].
        destruct (isBoardFull (<[i := Some m]> (Server.board room))) eqn:Ef;
          [|done].
        unfold Server.isDraw in Ed. by rewrite Ef, Ew in Ed. }
      split; [by apply singleWinner_insert|].
      rewrite HcX, HcO, Ha. destruct m; simpl in *; lia.
Qed.

Lemma wellFormedRoom_reachable (ops : list Server.Op) :
  map_Forall (fun _ => wellFormedRoom)
             (Server.rooms (Server.run ops Server.initial)).
Proof.
  apply guarded_reachable.
  - intros now. repeat split; try done.
    intros l l' _ _ [HX _]. destruct l as [[a b] c].
    destruct HX as (Ha & _). apply lookup_replicate in Ha as [? _]. done.
  - done.
  - apply wellFormedRoom_move.
  - intros room _. repeat split; try done.
    intros l l' _ _ [HX _]. destruct l as [[a b] c].
    destruct HX as (Ha & _). apply lookup_replicate in Ha as [? _]. done.
  - done.
Qed.

(** X1: in every room that the server reaches, the board has nine cells,
    the game is active exactly when the board has no winner and an empty
    cell, X and O never both hold a win-line, and [checkWinner] returns a
    mark exactly when some win-line is full of that mark. *)
Theorem reachable_room_flags_fit_board
    (ops : list Server.Op) (lobby : string) (room : Server.Room) :
  Server.rooms (Server.run ops Server.initial) !! lobby = Some room ->
  length (Server.board room) = 9
  /\ (Server.isActive room = true <->
      checkWinner (Server.board room) = None
      /\ isBoardFull (Server.board room) = false)
  /\ singleWinner (Server.board room)
  /\ (forall m,
        checkWinner (Server.board room) = Some m <->
        exists l, l ∈ winningCombinations
                  /\ line_full (Server.board room) l m).
Proof.
  intros Hroom.
  destruct (wellFormedRoom_reachable ops lobby room Hroom)
    as (Hlen & Hact & Hsingle & _).
  split; [done|]. split; [done|]. split; [done|]. intros m. split.
  - apply checkWinner_scan_Some.
  - intros (l & Hin & Hl). eapply checkWinner_scan_single; eauto.
    intros l' Hin' Hl'. destruct m; simpl in *.
    + by apply (Hsingle l l').
    + by apply (Hsingle l' l).
Qed.

Lemma reachable_room_flags_fit_board_witness :
  Server.isActive scenarioRoom = true
  /\ checkWinner (Server.board scenarioRoom) = None
  /\ isBoardFull (Server.board scenarioRoom) = false.
Proof.
  destruct (reachable_room_flags_fit_board
              ([Server.OpJoinLobby 0 "s1" "room" None;
                Server.OpJoinLobby 1 "s2" "room" None] ++ scenarioOps)
              "room" scenarioRoom) as (_ & Hact & _); [by vm_compute|].
  split; [by vm_compute|]. by apply Hact.
Defined.

(** X2: in every room that the server reaches the marks have been placed in
    turn, X first: the board holds as many X as O, or one more; while the
    game is active it is the turn of X exactly when the numbers are equal,
    and once the game is over the current mark is the one that moved last. *)
Theorem reachable_room_marks_alternate
    (ops : list Server.Op) (lobby : string) (room : Server.Room) :
  Server.rooms (Server.run ops Server.initial) !! lobby = Some room ->
  countMark O (Server.board room) <= countMark X (Server.board room)
  /\ countMark X (Server.board room) <= countMark O (Server.board room) + 1
  /\ (Server.isActive room = true ->
      (Server.currentPlayer room = X <->
       countMark X (Server.board room) = countMark O (Server.board room)))
  /\ (Server.isActive room = false ->
      (Server.currentPlayer room = X <->
       countMark X (Server.board room)
       = countMark O (Server.board room) + 1)).
Proof.
  intros Hroom.
  destruct (wellFormedRoom_reachable ops lobby room Hroom)
    as (_ & _ & _ & Hcount).
  destruct (Server.isActive room), (Server.currentPlayer room);
    simpl in Hcount;
    (split; [lia|]; split; [lia|]; split; intros Ha; [|]; try done;
     split; intros H; try done; try lia).
Qed.

Lemma reachable_room_marks_alternate_witness :
  Server.currentPlayer scenarioRoom = O
  /\ countMark X (Server.board scenarioRoom)
     = countMark O (Server.board scenarioRoom) + 1.
Proof.
  destruct (reachable_room_marks_alternate
              ([Server.OpJoinLobby 0 "s1" "room" None;
                Server.OpJoinLobby 1 "s2" "room" None] ++ scenarioOps)
              "room" scenarioRoom) as (_ & _ & Hact & _); [by vm_compute|].
  split; [by vm_compute|]. by vm_compute.
Defined.

(** ** Lobbies and sockets of the server *)

Section Lobbies.
Import Server.

Lemma getRoom_rooms_mono now lobby st l :
  is_Some (rooms st !! l) -> is_Some (rooms (getRoom now lobby st).2 !! l).
Proof.
  intros H. unfold getRoom. destruct (rooms st !! lobby) eqn:E; simpl; [done|].
  destruct (decide (lobby = l)) as [-> | Hne].
  - rewrite lookup_insert_eq. eauto.
  - by rewrite lookup_insert_ne.
Qed.

Lemma getRoom_adapter now lobby st :
  adapterRooms (getRoom now lobby st).2 = adapterRooms st.
Proof. unfold getRoom. by destruct (rooms st !! lobby). Qed.

Lemma getRoom_timers now lobby st :
  timers (getRoom now lobby st).2 = timers st.
Proof. unfold getRoom. by destruct (rooms st !! lobby). Qed.

Lemma lobbyOf_getRoom now lobby st s :
  lobbyOf s (getRoom now lobby st).2 = lobbyOf s st.
Proof. unfold lobbyOf. by rewrite socketData_getRoom. Qed.

Lemma socketsIn_getRoom_any now lobby st l :
  socketsIn l (getRoom now lobby st).2 = socketsIn l st.
Proof. unfold socketsIn. by rewrite getRoom_adapter. Qed.

(** The three handlers that act on the room of the socket keep the sockets
    and the lobbies as they are and delete no room. *)
Lemma roomUpdate_members now lobby st room1 :
  membersHaveRooms st ->
  membersHaveRooms
    (set_rooms (<[lobby := room1]> (rooms (getRoom now lobby st).2))
               (getRoom now lobby st).2).
Proof.
  intros Hinv s l Hl.
  assert (lobbyOf s st = Some l) as Hl'.
  { rewrite <- (lobbyOf_getRoom now lobby). exact Hl. }
  destruct (Hinv s l Hl') as [Hin Hroom]. split.
  - change (s ∈ socketsIn l (getRoom now lobby st).2).
    by rewrite socketsIn_getRoom_any.
  - simpl. destruct (decide (lobby = l)) as [-> | Hne].
    + rewrite lookup_insert_eq. eauto.
    + rewrite lookup_insert_ne by done. by apply getRoom_rooms_mono.
Qed.

Lemma membersHaveRooms_step op st :
  membersHaveRooms st -> membersHaveRooms (step op st).1.
Proof.
  intros Hinv. destruct op as [now s l r | now s i | now s | now s | s | l];
    simpl.
  - unfold joinLobby. case_bool_decide as Hne; [done|].
    pose proof (lobbyOf_getRoom now (trim l) st) as HlobbyOf.
    pose proof (socketsIn_getRoom_any now (trim l) st) as Hsockets.
    pose proof (getRoom_rooms_mono now (trim l) st) as Hmono.
    destruct (getRoom now (trim l) st) as [room st1]. simpl in *.
    intros s' l' Hl'. unfold lobbyOf, socketsIn in *. simpl in *.
    destruct (decide (s' = s)) as [-> | Hs].
    + rewrite lookup_insert_eq in Hl'. simpl in Hl'.
      rewrite bool_decide_eq_false_2 in Hl' by done. simplify_eq.
      rewrite !lookup_insert_eq. simpl.
      split; [by apply elem_of_union_l, elem_of_singleton | eauto].
    + rewrite lookup_insert_ne in Hl' by done.
      rewrite HlobbyOf in Hl'. destruct (Hinv s' l' Hl') as [Hin Hroom].
      destruct (decide (trim l = l')) as [<- | Hl].
      * rewrite !lookup_insert_eq. simpl. split; [|eauto].
        rewrite Hsockets. by apply elem_of_union_r.
      * rewrite !lookup_insert_ne by done. rewrite Hsockets.
        split; [done | by apply Hmono].
  - unfold makeMove. destruct (lobbyOf s st) as [lobby|]; [|done].
    pose proof (fun r => roomUpdate_members now lobby st r Hinv) as Hset.
    assert (membersHaveRooms (getRoom now lobby st).2) as Hget.
    { intros s' l' Hl'. rewrite lobbyOf_getRoom in Hl'.
      destruct (Hinv s' l' Hl'). rewrite socketsIn_getRoom_any.
      split; [done | by apply getRoom_rooms_mono]. }
    destruct (getRoom now lobby st) as [room st1]. simpl in *.
    destruct (isActive room); simpl; [|done].
    destruct i as [z|]; [|done].
    destruct (_ || _); [done|]. destruct (bool_decide _); [done|].
    destruct (markOf s st) as [m|]; [|done].
    destruct (bool_decide _); [done|]. simpl. apply Hset.
  - unfold newGame. destruct (lobbyOf s st) as [lobby|]; [|done].
    pose proof (fun r => roomUpdate_members now lobby st r Hinv) as Hset.
    destruct (getRoom now lobby st) as [room st1]. simpl in *. apply Hset.
  - unfold resetStats. destruct (lobbyOf s st) as [lobby|]; [|done].
    pose proof (fun r => roomUpdate_members now lobby st r Hinv) as Hset.
    destruct (getRoom now lobby st) as [room st1]. simpl in *. apply Hset.
  - assert (forall s' l', lobbyOf s'
              (mkState (rooms st)
                 ((fun x : gset string => x ∖ {[s]}) <$> adapterRooms st)
                 (delete s (socketData st)) (timers st)) = Some l' ->
            s' <> s /\ lobbyOf s' st = Some l') as Hother.
    { intros s' l'. unfold lobbyOf. simpl.
      destruct (decide (s' = s)) as [-> | Hs].
      - by rewrite lookup_delete_eq.
      - by rewrite lookup_delete_ne. }
    assert (forall s' l', s' <> s -> s' ∈ socketsIn l' st ->
              s' ∈ default ∅
                     (((fun x : gset string => x ∖ {[s]}) <$> adapterRooms st)
                        !! l')) as Hstay.
    { intros s' l' Hs. unfold socketsIn. rewrite lookup_fmap.
      destruct (adapterRooms st !! l'); simpl; intros Hin.
      - apply elem_of_difference. split; [done|].
        by rewrite elem_of_singleton.
      - by apply not_elem_of_empty in Hin. }
    unfold disconnect. destruct (lobbyOf s st) as [lobby|] eqn:Els.
    + destruct (rooms st !! lobby) as [room|] eqn:E.
      * intros s' l' Hl'. apply Hother in Hl' as [Hs Hl'].
        destruct (Hinv s' l' Hl') as [Hin Hroom].
        split; [by apply Hstay|]. simpl.
        destruct (decide (lobby = l')) as [-> | Hne].
        -- rewrite lookup_insert_eq. eauto.
        -- by rewrite lookup_insert_ne.
      * intros s' l' Hl'. apply Hother in Hl' as [Hs Hl'].
        destruct (Hinv s' l' Hl') as [Hin Hroom].
        split; [by apply Hstay | done].
    + intros s' l' Hl'. apply Hother in Hl' as [Hs Hl'].
      destruct (Hinv s' l' Hl') as [Hin Hroom].
      split; [by apply Hstay | done].
  - unfold cleanup. case_bool_decide; [|done].
    intros s' l' Hl'. destruct (Hinv s' l' Hl') as [Hin Hroom].
    split; [done|]. simpl. case_bool_decide as Hempty; [|done].
    destruct (decide (l = l')) as [-> | Hne].
    + apply size_empty_inv in Hempty. apply leibniz_equiv in Hempty.
      rewrite Hempty in Hin. by apply not_elem_of_empty in Hin.
    + by rewrite lookup_delete_ne.
Qed.

Lemma membersHaveRooms_reachable ops :
  membersHaveRooms (run ops initial).
Proof.
  assert (forall st, membersHaveRooms st -> membersHaveRooms (run ops st))
    as H.
  { induction ops as [|op ops IH]; intros st Hinv; [done|].
    apply IH. by apply membersHaveRooms_step. }
  apply H. intros s l Hl. unfold lobbyOf in Hl. simpl in Hl.
  by rewrite lookup_empty in Hl.
Qed.

End Lobbies.

(** ** Trimming *)

Lemma string_app_cons a (s t : string) :
  String.app (String a s) t = String a (String.app s t).
Proof. reflexivity. Qed.

Lemma string_app_nil_r (s : string) : String.app s EmptyString = s.
Proof.
  induction s as [|a s IH]; [done|]. by rewrite string_app_cons, IH.
Qed.

Lemma string_app_assoc (s1 s2 s3 : string) :
  String.app (String.app s1 s2) s3 = String.app s1 (String.app s2 s3).
Proof.
  induction s1 as [|a s1 IH]; [done|]. by rewrite !string_app_cons, IH.
Qed.

Lemma rev_app_spec (s1 s2 : string) :
  String.rev_app s1 s2 = String.app (String.rev s1) s2.
Proof.
  unfold String.rev. revert s2.
  induction s1 as [|a s1 IH]; intros s2; simpl; [done|].
  rewrite (IH (String a s2)), (IH (String a EmptyString)).
  by rewrite string_app_assoc.
Qed.

Lemma rev_cons a (s : string) :
  String.rev (String a s) = String.app (String.rev s) (String a EmptyString).
Proof. unfold String.rev at 1. simpl. apply rev_app_spec. Qed.

Lemma rev_app_distr (s1 s2 : string) :
  String.rev (String.app s1 s2) = String.app (String.rev s2) (String.rev s1).
Proof.
  induction s1 as [|a s1 IH].
  - by rewrite string_app_nil_r.
  - by rewrite string_app_cons, !rev_cons, IH, string_app_assoc.
Qed.

Lemma rev_involutive (s : string) : String.rev (String.rev s) = s.
Proof.
  induction s as [|a s IH]; [done|].
  by rewrite rev_cons, rev_app_distr, IH.
Qed.

(** Induction on strings by their length, for the look-ahead of [strip]. *)
Lemma string_length_ind (P : string -> Prop) :
  (forall s, (forall t, String.length t < String.length s -> P t) -> P s) ->
  forall s, P s.
Proof.
  intros step s.
  assert (forall n t, String.length t < n -> P t) as H.
  { induction n as [|n IH]; intros t Ht; [lia|].
    apply step. intros u Hu. apply IH. lia. }
  apply (H (S (String.length s))). lia.
Qed.

Lemma strip_length d (s : string) :
  String.length (strip d s) <= String.length s.
Proof.
  induction s as [s IH] using string_length_ind.
  destruct s as [|a r1]; [done|]. simpl.
  destruct (isWhiteSpace a).
  { etrans; [apply IH; simpl; lia|]. lia. }
  destruct r1 as [|b r2]; [simpl; lia|].
  destruct (if d then isWhiteSpace2 b a else _).
  { etrans; [apply IH; simpl; lia|]. simpl; lia. }
  destruct r2 as [|c r3]; [simpl; lia|].
  destruct (if d then isWhiteSpace3 c b a else _); [|simpl; lia].
  etrans; [apply IH; simpl; lia|]. simpl; lia.
Qed.

(** [strip] leaves no white space at the head. *)
Lemma strip_strip d (s : string) : strip d (strip d s) = strip d s.
Proof.
  induction s as [s IH] using string_length_ind.
  destruct s as [|a r1]; [done|]. simpl.
  destruct (isWhiteSpace a) eqn:Ha; [apply IH; simpl; lia|].
  destruct r1 as [|b r2]; [simpl; by rewrite Ha|].
  destruct (if d then isWhiteSpace2 b a else _) eqn:H2;
    [apply IH; simpl; lia|].
  destruct r2 as [|c r3]; [simpl; by rewrite Ha, H2|].
  destruct (if d then isWhiteSpace3 c b a else _) eqn:H3;
    [apply IH; simpl; lia|].
  simpl. by rewrite Ha, H2, H3.
Qed.

(** [strip] removes a prefix. *)
Lemma strip_suffix d (s : string) :
  exists w, s = String.app w (strip d s).
Proof.
  induction s as [s IH] using string_length_ind.
  destruct s as [|a r1]; [by exists EmptyString|].
  simpl. destruct (isWhiteSpace a).
  { destruct (IH r1) as [w Hw]; [simpl; lia|].
    exists (String a w). by rewrite string_app_cons, <- Hw. }
  destruct r1 as [|b r2]; [by exists EmptyString|].
  destruct (if d then isWhiteSpace2 b a else _).
  { destruct (IH r2) as [w Hw]; [simpl; lia|].
    exists (String a (String b w)). by rewrite !string_app_cons, <- Hw. }
  destruct r2 as [|c r3]; [by exists EmptyString|].
  destruct (if d then isWhiteSpace3 c b a else _); [|by exists EmptyString].
  destruct (IH r3) as [w Hw]; [simpl; lia|].
  exists (String a (String b (String c w))).
  by rewrite !string_app_cons, <- Hw.
Qed.

(** A prefix of a string without white space at its head has none. *)
Lemma strip_prefix d (t u : string) :
  strip d (String.app t u) = String.app t u -> strip d t = t.
Proof.
  intros H.
  assert (forall r v : string,
            String.length r < String.length v -> strip d r <> v) as Hlen.
  { intros r v Hlt Heq. pose proof (strip_length d r) as Hle.
    rewrite Heq in Hle. lia. }
  destruct t as [|a t1]; [done|].
  rewrite string_app_cons in H. simpl in H. simpl.
  destruct (isWhiteSpace a).
  { exfalso. eapply Hlen; [|exact H]. simpl. lia. }
  destruct t1 as [|b t2]; [done|].
  rewrite string_app_cons in H.
  destruct (if d then isWhiteSpace2 b a else _).
  { exfalso. eapply Hlen; [|exact H]. simpl. lia. }
  destruct t2 as [|c t3]; [done|].
  rewrite string_app_cons in H.
  destruct (if d then isWhiteSpace3 c b a else _); [|done].
  exfalso. eapply Hlen; [|exact H]. simpl. lia.
Qed.

(** The result of [trim] has no white space at either end. *)
Lemma trim_ends (s : string) :
  strip false (trim s) = trim s
  /\ strip true (String.rev (trim s)) = String.rev (trim s).
Proof.
  unfold trim, trimStart.
  set (a := strip false s). set (b := strip true (String.rev a)).
  destruct (strip_suffix true (String.rev a)) as [w Hw]. fold b in Hw.
  split.
  - apply (strip_prefix false _ (String.rev w)).
    rewrite <- rev_app_distr, <- Hw, rev_involutive. apply strip_strip.
  - rewrite rev_involutive. apply strip_strip.
Qed.

Lemma trim_idempotent (s : string) : trim (trim s) = trim s.
Proof.
  destruct (trim_ends s) as [H1 H2]. unfold trim at 1. unfold trimStart.
  rewrite H1, H2. apply rev_involutive.
Qed.

(** *** White space around an identifier *)

Lemma isWhiteSpace_lead a : isWhiteSpace a = true -> leadByte a.
Proof.
  intros H. apply bool_decide_eq_true in H. left.
  unfold Ascii.nat_of_ascii in H.
  repeat (apply elem_of_cons in H as [H | H]; [lia|]).
  by apply elem_of_nil in H.
Qed.

Lemma isWhiteSpace2_bytes a b :
  isWhiteSpace2 a b = true ->
  Ascii.N_of_ascii a = 194%N /\ Ascii.N_of_ascii b = 160%N.
Proof. intros H. apply bool_decide_eq_true in H. by simplify_eq. Qed.

Lemma isWhiteSpace3_bytes a b c :
  isWhiteSpace3 a b c = true ->
  (224 <= Ascii.N_of_ascii a
   /\ 128 <= Ascii.N_of_ascii b < 192
   /\ 128 <= Ascii.N_of_ascii c < 192)%N.
Proof.
  intros H. apply bool_decide_eq_true in H.
  repeat (apply elem_of_cons in H as [H | H];
          [injection H as -> -> ->; lia|]).
  by apply elem_of_nil in H.
Qed.

Lemma lead_not_space a :
  (128 <= Ascii.N_of_ascii a)%N -> isWhiteSpace a = false.
Proof.
  intros H. apply bool_decide_eq_false. intros Hin.
  unfold Ascii.nat_of_ascii in Hin.
  repeat (apply elem_of_cons in Hin as [Hin | Hin]; [lia|]).
  by apply elem_of_nil in Hin.
Qed.

Lemma isWhiteSpace2_first a b :
  isWhiteSpace2 a b = true -> isWhiteSpace a = false.
Proof. intros [H _]%isWhiteSpace2_bytes. apply lead_not_space. lia. Qed.

Lemma not_isWhiteSpace2 a b :
  Ascii.N_of_ascii a <> 194%N \/ Ascii.N_of_ascii b <> 160%N ->
  isWhiteSpace2 a b = false.
Proof.
  intros H. apply bool_decide_eq_false. intros Heq. simplify_eq. lia.
Qed.

(** White space at the head is stripped, from either end. *)
Lemma strip_space_front w s : isSpace w -> strip false (String.app w s) = strip false s.
Proof.
  intros [a Ha | a b Hab | a b c Habc]; rewrite ?string_app_cons; simpl.
  - by rewrite Ha.
  - by rewrite (isWhiteSpace2_first _ _ Hab), Hab.
  - destruct (isWhiteSpace3_bytes _ _ _ Habc) as (Ha & Hb & Hc).
    rewrite (lead_not_space a) by lia.
    rewrite (not_isWhiteSpace2 a b) by lia. by rewrite Habc.
Qed.

Lemma strip_space_back w s :
  isSpace w -> strip true (String.app (String.rev w) s) = strip true s.
Proof.
  intros [a Ha | a b Hab | a b c Habc]; rewrite ?rev_cons; simpl;
    rewrite ?string_app_cons; simpl.
  - by rewrite Ha.
  - destruct (isWhiteSpace2_bytes _ _ Hab) as [Ha Hb].
    rewrite (lead_not_space b) by lia. by rewrite Hab.
  - destruct (isWhiteSpace3_bytes _ _ _ Habc) as (Ha & Hb & Hc).
    rewrite (lead_not_space c) by lia.
    rewrite (not_isWhiteSpace2 b c) by lia. by rewrite Habc.
Qed.

Lemma strip_padding_front p s :
  padding p -> strip false (String.app p s) = strip false s.
Proof.
  induction 1 as [|w p Hw _ IH]; [done|].
  by rewrite string_app_assoc, strip_space_front.
Qed.

Lemma strip_padding_back p s :
  padding p -> strip true (String.app (String.rev p) s) = strip true s.
Proof.
  intros Hp. revert s.
  induction Hp as [|w p Hw _ IH]; intros s; [done|].
  by rewrite rev_app_distr, string_app_assoc, IH, strip_space_back.
Qed.

(** The first byte of white space. *)
Lemma padding_head a p : padding (String a p) -> leadByte a.
Proof.
  intros H. remember (String a p) as s eqn:Hs. revert a p Hs.
  induction H as [|w q Hw Hq IH]; intros a p Hs; [done|].
  destruct Hw as [x Hx | x y Hxy | x y z Hxyz];
    rewrite ?string_app_cons in Hs; injection Hs as -> _.
  - by apply isWhiteSpace_lead.
  - destruct (isWhiteSpace2_bytes _ _ Hxy). right. lia.
  - destruct (isWhiteSpace3_bytes _ _ _ Hxyz). right. lia.
Qed.

Lemma isWhiteSpace2_second a b : isWhiteSpace2 a b = true -> ~ leadByte b.
Proof. intros [_ H]%isWhiteSpace2_bytes [?|?]; lia. Qed.

Lemma isWhiteSpace3_second a b c : isWhiteSpace3 a b c = true -> ~ leadByte b.
Proof. intros (_ & H & _)%isWhiteSpace3_bytes [?|?]; lia. Qed.

Lemma isWhiteSpace3_third a b c : isWhiteSpace3 a b c = true -> ~ leadByte c.
Proof. intros (_ & _ & H)%isWhiteSpace3_bytes [?|?]; lia. Qed.

(** White space after a string adds no white space at its head. *)
Lemma strip_front_padded (l p : string) :
  l <> EmptyString -> strip false l = l -> padding p ->
  strip false (String.app l p) = String.app l p.
Proof.
  intros Hne Hl Hp.
  assert (forall r v : string,
            String.length r < String.length v -> strip false r <> v) as Hlen.
  { intros r v Hlt Heq. pose proof (strip_length false r) as Hle.
    rewrite Heq in Hle. lia. }
  destruct l as [|a l1]; [done|]. simpl in Hl.
  destruct (isWhiteSpace a) eqn:Ha.
  { exfalso. eapply Hlen; [|exact Hl]. simpl. lia. }
  destruct l1 as [|b l2].
  { change (String.app (String a EmptyString) p) with (String a p).
    simpl. rewrite Ha. destruct p as [|b p1]; [done|].
    pose proof (padding_head _ _ Hp) as Hb.
    destruct (isWhiteSpace2 a b) eqn:H2;
      [by apply isWhiteSpace2_second in H2|].
    destruct p1 as [|c p2]; [done|].
    destruct (isWhiteSpace3 a b c) eqn:H3; [|done].
    by apply isWhiteSpace3_second in H3. }
  destruct (isWhiteSpace2 a b) eqn:H2.
  { exfalso. eapply Hlen; [|exact Hl]. simpl. lia. }
  destruct l2 as [|c l3].
  { change (String.app (String a (String b EmptyString)) p)
      with (String a (String b p)).
    simpl. rewrite Ha, H2. destruct p as [|c p1]; [done|].
    pose proof (padding_head _ _ Hp) as Hc.
    destruct (isWhiteSpace3 a b c) eqn:H3; [|done].
    by apply isWhiteSpace3_third in H3. }
  destruct (isWhiteSpace3 a b c) eqn:H3.
  { exfalso. eapply Hlen; [|exact Hl]. simpl. lia. }
  rewrite !string_app_cons. simpl. by rewrite Ha, H2, H3.
Qed.

Lemma trim_empty_padding (pre post : string) :
  padding pre -> padding post -> trim (String.app pre post) = EmptyString.
Proof.
  intros H1 H2. unfold trim, trimStart.
  rewrite (strip_padding_front pre post H1).
  rewrite <- (string_app_nil_r post), (strip_padding_front post _ H2). done.
Qed.

(** White space of any kind around a trimmed string is trimmed away. *)
Lemma trim_padded (pre l post : string) :
  padding pre -> padding post ->
  trim (String.app pre (String.app (trim l) post)) = trim l.
Proof.
  intros Hpre Hpost. destruct (trim_ends l) as [H1 H2].
  destruct (decide (trim l = EmptyString)) as [-> | Hne].
  { by apply trim_empty_padding. }
  unfold trim at 1. unfold trimStart.
  rewrite (strip_padding_front _ _ Hpre).
  rewrite (strip_front_padded _ _ Hne H1 Hpost).
  rewrite rev_app_distr, (strip_padding_back _ _ Hpost), H2.
  apply rev_involutive.
Qed.

(** X3: a socket that has joined a lobby stays a member of it and its room
    stays in the store, in every state that the server reaches: [getRoom]
    finds the room and does not create one, and the clean-up timer of the
    lobby leaves the room. *)
Theorem joined_socket_keeps_its_room
    (ops : list Server.Op) (s l : string) :
  Server.lobbyOf s (Server.run ops Server.initial) = Some l ->
  s ∈ Server.socketsIn l (Server.run ops Server.initial)
  /\ exists room,
       Server.rooms (Server.run ops Server.initial) !! l = Some room
       /\ (forall now,
             Server.getRoom now l (Server.run ops Server.initial)
             = (room, Server.run ops Server.initial))
       /\ Server.rooms (Server.cleanup l (Server.run ops Server.initial)) !! l
          = Some room.
Proof.
  intros Hl. destruct (membersHaveRooms_reachable ops s l Hl) as [Hin [room Hr]].
  split; [done|]. exists room. split; [done|]. split.
  - intros now. by apply getRoom_existing.
  - unfold Server.cleanup. case_bool_decide; [|done]. simpl.
    rewrite bool_decide_eq_false_2; [done|].
    intros Hsize. apply size_empty_inv, leibniz_equiv in Hsize.
    rewrite Hsize in Hin. by apply not_elem_of_empty in Hin.
Qed.

Lemma joined_socket_keeps_its_room_witness :
  "s2" ∈ Server.socketsIn "room" twoPlayers
  /\ exists room, Server.rooms twoPlayers !! "room" = Some room.
Proof.
  destruct (joined_socket_keeps_its_room
              [Server.OpJoinLobby 0 "s1" "room" None;
               Server.OpJoinLobby 1 "s2" "room" None] "s2" "room")
    as (Hin & room & Hroom & _); [by vm_compute|].
  split; [exact Hin | by exists room].
Defined.

Section Independence.
Import Server.

Lemma getRoom_rooms_other now lobby st l :
  lobby <> l -> rooms (getRoom now lobby st).2 !! l = rooms st !! l.
Proof.
  intros Hne. unfold getRoom. destruct (rooms st !! lobby); simpl; [done|].
  by rewrite lookup_insert_ne.
Qed.

Lemma roomUpdate_other now lobby st room1 l :
  lobby <> l ->
  rooms (set_rooms (<[lobby := room1]> (rooms (getRoom now lobby st).2))
                   (getRoom now lobby st).2) !! l
  = rooms st !! l.
Proof.
  intros Hne. simpl. rewrite lookup_insert_ne by done.
  by apply getRoom_rooms_other.
Qed.

Lemma step_other_rooms op st l :
  opLobby op st <> Some l -> rooms (step op st).1 !! l = rooms st !! l.
Proof.
  intros Hne.
  destruct op as [now s lb r | now s i | now s | now s | s | lb]; simpl in *.
  - assert (trim lb <> l) as Hl by congruence.
    unfold joinLobby. case_bool_decide; [done|].
    pose proof (getRoom_rooms_other now (trim lb) st l Hl) as Hget.
    destruct (getRoom now (trim lb) st) as [room st1]. simpl in *.
    by rewrite lookup_insert_ne.
  - unfold makeMove. destruct (lobbyOf s st) as [lobby|]; [|done].
    assert (lobby <> l) as Hl by congruence.
    pose proof (getRoom_rooms_other now lobby st l Hl) as Hget.
    pose proof (fun r => roomUpdate_other now lobby st r l Hl) as Hset.
    destruct (getRoom now lobby st) as [room st1]. simpl in *.
    destruct (isActive room); simpl; [|done].
    destruct i as [z|]; [|done].
    destruct (_ || _); [done|]. destruct (bool_decide _); [done|].
    destruct (markOf s st) as [m|]; [|done].
    destruct (bool_decide _); [done|]. simpl. apply Hset.
  - unfold newGame. destruct (lobbyOf s st) as [lobby|]; [|done].
    assert (lobby <> l) as Hl by congruence.
    pose proof (fun r => roomUpdate_other now lobby st r l Hl) as Hset.
    destruct (getRoom now lobby st) as [room st1]. simpl in *. apply Hset.
  - unfold resetStats. destruct (lobbyOf s st) as [lobby|]; [|done].
    assert (lobby <> l) as Hl by congruence.
    pose proof (fun r => roomUpdate_other now lobby st r l Hl) as Hset.
    destruct (getRoom now lobby st) as [room st1]. simpl in *. apply Hset.
  - unfold disconnect. destruct (lobbyOf s st) as [lobby|]; [|done].
    assert (lobby <> l) as Hl by congruence.
    destruct (rooms st !! lobby); [|done]. simpl.
    by rewrite lookup_insert_ne.
  - assert (lb <> l) as Hl by congruence.
    unfold cleanup. case_bool_decide; [|done]. simpl.
    case_bool_decide; [|done]. by rewrite lookup_delete_ne.
Qed.

End Independence.

(** X4: the lobbies do not interact.  An event changes at most the room of
    one lobby: the lobby named in a [joinLobby] request, the lobby of the
    socket for the other requests and for a disconnection, the lobby of the
    timer for a clean-up.  The room of every other lobby is left as it
    is. *)
Theorem other_lobbies_are_untouched
    (op : Server.Op) (st : Server.State) (l : string) :
  opLobby op st <> Some l ->
  Server.rooms (Server.step op st).1 !! l = Server.rooms st !! l.
Proof. apply step_other_rooms. Qed.

Lemma other_lobbies_are_untouched_witness :
  Server.rooms
    (Server.step (Server.OpMakeMove 3 "s1" (Server.JsInteger 0))
                 twoLobbies).1 !! "other"
  = Server.rooms twoLobbies !! "other"
  /\ Server.rooms
       (Server.step (Server.OpMakeMove 3 "s1" (Server.JsInteger 0))
                    twoLobbies).1 !! "room"
     <> Server.rooms twoLobbies !! "room".
Proof.
  split.
  - apply other_lobbies_are_untouched. by vm_compute.
  - by vm_compute.
Defined.

(** X5: a snapshot that the server emits is the room that it has stored:
    for every event, each [roomState] message carries, for its lobby, the
    room that the store holds for this lobby once the event is handled. *)
Theorem emitted_snapshot_is_the_stored_room
    (op : Server.Op) (st : Server.State) (e : Server.Emit)
    (l : string) (room : Server.Room) :
  e ∈ (Server.step op st).2 ->
  snapshotOf e = Some (l, room) ->
  Server.rooms (Server.step op st).1 !! l = Some room.
Proof.
  intros Hin Hsnap.
  destruct op as [now s lb r | now s i | now s | now s | s | lb]; simpl in *.
  - unfold Server.joinLobby in *. case_bool_decide.
    + simpl in Hin. apply list_elem_of_singleton in Hin. by subst.
    + destruct (Server.getRoom now (trim lb) st) as [room0 st1]. simpl in *.
      apply elem_of_cons in Hin as [-> | Hin].
      { simpl in Hsnap. simplify_eq. apply lookup_insert_eq. }
      apply elem_of_cons in Hin as [-> | Hin]; [done|].
      case_bool_decide; [|by apply elem_of_nil in Hin].
      apply list_elem_of_singleton in Hin. by subst.
  - unfold Server.makeMove in *.
    destruct (Server.lobbyOf s st) as [lobby|];
      [|by apply elem_of_nil in Hin].
    destruct (Server.getRoom now lobby st) as [room0 st1]. simpl in *.
    destruct (Server.isActive room0); simpl in *;
      [|by apply elem_of_nil in Hin].
    destruct i as [z|]; [|by apply elem_of_nil in Hin].
    destruct (_ || _); [by apply elem_of_nil in Hin|].
    destruct (bool_decide _); [by apply elem_of_nil in Hin|].
    destruct (Server.markOf s st) as [m|]; [|by apply elem_of_nil in Hin].
    destruct (bool_decide _); [by apply elem_of_nil in Hin|]. simpl in *.
    apply list_elem_of_singleton in Hin. subst. simpl in Hsnap. simplify_eq.
    apply lookup_insert_eq.
  - unfold Server.newGame in *.
    destruct (Server.lobbyOf s st) as [lobby|];
      [|by apply elem_of_nil in Hin].
    destruct (Server.getRoom now lobby st) as [room0 st1]. simpl in *.
    apply list_elem_of_singleton in Hin. subst. simpl in Hsnap. simplify_eq.
    apply lookup_insert_eq.
  - unfold Server.resetStats in *.
    destruct (Server.lobbyOf s st) as [lobby|];
      [|by apply elem_of_nil in Hin].
    destruct (Server.getRoom now lobby st) as [room0 st1]. simpl in *.
    apply list_elem_of_singleton in Hin. subst. simpl in Hsnap. simplify_eq.
    apply lookup_insert_eq.
  - by apply elem_of_nil in Hin.
  - by apply elem_of_nil in Hin.
Qed.

Lemma emitted_snapshot_is_the_stored_room_witness :
  exists room,
    Server.rooms
      (Server.step (Server.OpMakeMove 3 "s1" (Server.JsInteger 0))
                   twoPlayers).1 !! "room" = Some room
    /\ Server.board room !! 0 = Some (Some X).
Proof.
  exists (Server.applyMove 0 X
            (default (Server.newRoomState 0)
                     (Server.rooms twoPlayers !! "room"))).
  split; [|by vm_compute].
  apply (emitted_snapshot_is_the_stored_room _ _
           (Server.toRoom "room"
              (Server.roomState
                 (Server.applyMove 0 X
                    (default (Server.newRoomState 0)
                             (Server.rooms twoPlayers !! "room")))
                 "room" None))).
  - vm_compute. left.
  - reflexivity.
Defined.

(** X6: joining a lobby whose room exists leaves the game as it is: the
    board, the current mark, the active flag and the statistics of the room
    are kept, the socket is added to the players, and the snapshot sent back
    first is this room with the assigned mark.  The assigned mark is the
    requested one when the request names X or O; otherwise it is X for a
    socket alone in the lobby and O when the lobby then holds two sockets or
    more. *)
Theorem joinLobby_keeps_the_game
    (now : Z) (s l : string) (requested : option Mark)
    (st : Server.State) (room : Server.Room) :
  trim l <> EmptyString ->
  Server.rooms st !! trim l = Some room ->
  let assigned :=
    match requested with
    | Some m => m
    | None =>
        if bool_decide (2 <= size ({[s]} ∪ Server.socketsIn (trim l) st))
        then O else X
    end in
  let room1 :=
    Server.mkRoom (Server.board room) (Server.currentPlayer room)
      (Server.isActive room) (Server.stats room) (Server.createdAt room)
      ({[s]} ∪ Server.players room) in
  Server.rooms (Server.joinLobby now s l requested st).1 !! trim l
  = Some room1
  /\ Server.markOf s (Server.joinLobby now s l requested st).1
     = Some assigned
  /\ Server.lobbyOf s (Server.joinLobby now s l requested st).1
     = Some (trim l)
  /\ head (Server.joinLobby now s l requested st).2
     = Some (Server.toSocket s
               (Server.roomState room1 (trim l) (Some assigned))).
Proof.
  intros Hne Hroom. simpl. unfold Server.joinLobby.
  rewrite bool_decide_eq_false_2 by done.
  rewrite (getRoom_existing _ _ _ _ Hroom). simpl.
  unfold Server.markOf, Server.lobbyOf. simpl.
  rewrite !lookup_insert_eq. simpl.
  by rewrite (bool_decide_eq_false_2 (trim l = EmptyString)) by done.
Qed.

Lemma joinLobby_keeps_the_game_witness :
  Server.markOf "s9"
    (Server.joinLobby 9 "s9" " room " (Some X)
       (Server.run (take 3 scenarioOps) twoPlayers)).1 = Some X
  /\ (Server.board <$>
        Server.rooms
          (Server.joinLobby 9 "s9" " room " (Some X)
             (Server.run (take 3 scenarioOps) twoPlayers)).1 !! "room")
     = Some [Some X; Some X; None; None; Some O; None; None; None; None].
Proof.
  destruct (joinLobby_keeps_the_game 9 "s9" " room " (Some X)
              (Server.run (take 3 scenarioOps) twoPlayers)
              (default (Server.newRoomState 0)
                 (Server.rooms (Server.run (take 3 scenarioOps) twoPlayers)
                    !! "room")))
    as (Hroom & Hmark & _); [by vm_compute | by vm_compute |].
  split; [exact Hmark|].
  change "room" with (trim " room ") at 1. rewrite Hroom. by vm_compute.
Defined.

(** X7: the lobby identifier is used trimmed, as [String.prototype.trim]
    trims it.  White space of any kind around an identifier (blanks, tabs and
    line ends, the no-break space, the Unicode spaces and separators, the byte
    order mark) does not matter: a request whose identifier is a trimmed one
    between two strings of white space has the effect and the answers of the
    request with the identifier itself.  Trimming twice is trimming once.  A
    request whose identifier is made of white space only, or is empty once
    trimmed, changes nothing and is answered by the message
    "Lobby ID required." alone. *)
Theorem joinLobby_trims_the_identifier
    (now : Z) (s l pre post : string) (requested : option Mark)
    (st : Server.State) :
  padding pre -> padding post ->
  Server.joinLobby now s (String.app pre (String.app (trim l) post))
    requested st
  = Server.joinLobby now s l requested st
  /\ trim (trim l) = trim l
  /\ Server.joinLobby now s (String.app pre post) requested st
     = (st, [Server.toSocket s (Server.errorMsg "Lobby ID required.")])
  /\ (trim l = EmptyString ->
      Server.joinLobby now s l requested st
      = (st, [Server.toSocket s (Server.errorMsg "Lobby ID required.")])).
Proof.
  intros Hpre Hpost. split; [|split; [|split]].
  - unfold Server.joinLobby. by rewrite (trim_padded _ _ _ Hpre Hpost).
  - apply trim_idempotent.
  - unfold Server.joinLobby. by rewrite (trim_empty_padding _ _ Hpre Hpost).
  - intros H. unfold Server.joinLobby. by rewrite H.
Qed.

Lemma joinLobby_trims_the_identifier_witness :
  Server.joinLobby 2 "s3"
    (String.app noBreakSpace (String.app (trim " room ") lineSeparator))
    None twoPlayers
  = Server.joinLobby 2 "s3" " room " None twoPlayers.
Proof.
  assert (padding noBreakSpace) as Hpre.
  { apply (padding_cons noBreakSpace EmptyString); [|apply padding_nil].
    by apply space2. }
  assert (padding lineSeparator) as Hpost.
  { apply (padding_cons lineSeparator EmptyString); [|apply padding_nil].
    by apply space3. }
  exact (proj1 (joinLobby_trims_the_identifier 2 "s3" " room " noBreakSpace
                  lineSeparator None twoPlayers Hpre Hpost)).
Defined.

Section Commute.
Import Server.

Lemma resetStats_existing now s l st room :
  lobbyOf s st = Some l -> rooms st !! l = Some room ->
  (resetStats now s st).1
  = set_rooms (<[l := mkRoom (board room) (currentPlayer room)
                        (isActive room) (mkStats 0 0 0 0) (createdAt room)
                        (players room)]> (rooms st)) st.
Proof.
  intros Hl Hr. unfold resetStats. rewrite Hl.
  by rewrite (getRoom_existing _ _ _ _ Hr).
Qed.

Lemma newGame_existing now s l st room :
  lobbyOf s st = Some l -> rooms st !! l = Some room ->
  (newGame now s st).1
  = set_rooms (<[l := mkRoom (replicate 9 None) X true (stats room)
                        (createdAt room) (players room)]> (rooms st)) st.
Proof.
  intros Hl Hr. unfold newGame. rewrite Hl.
  by rewrite (getRoom_existing _ _ _ _ Hr).
Qed.

Lemma lobbyOf_set_rooms s r st : lobbyOf s (set_rooms r st) = lobbyOf s st.
Proof. done. Qed.

Lemma resetStats_newGame_commute_existing now now' s s' st :
  membersHaveRooms st ->
  (resetStats now s (newGame now' s' st).1).1
  = (newGame now' s' (resetStats now s st).1).1.
Proof.
  intros Hinv.
  destruct (lobbyOf s st) as [l|] eqn:Hl; cycle 1.
  { assert (forall st', lobbyOf s st' = None -> (resetStats now s st').1 = st')
      as Hid.
    { intros st' H. unfold resetStats. by rewrite H. }
    rewrite (Hid st Hl). apply Hid.
    unfold newGame. destruct (lobbyOf s' st) as [l'|]; [|done].
    destruct (getRoom now' l' st) as [r0 st1] eqn:E. simpl.
    rewrite lobbyOf_set_rooms. replace st1 with (getRoom now' l' st).2
      by (by rewrite E). by rewrite lobbyOf_getRoom. }
  destruct (lobbyOf s' st) as [l'|] eqn:Hl'; cycle 1.
  { assert (forall st', lobbyOf s' st' = None -> (newGame now' s' st').1 = st')
      as Hid.
    { intros st' H. unfold newGame. by rewrite H. }
    rewrite (Hid st Hl'). symmetry. apply Hid.
    unfold resetStats. rewrite Hl.
    destruct (getRoom now l st) as [r0 st1] eqn:E. simpl.
    rewrite lobbyOf_set_rooms. replace st1 with (getRoom now l st).2
      by (by rewrite E). by rewrite lobbyOf_getRoom. }
  destruct (Hinv s l Hl) as [_ [room Hroom]].
  destruct (Hinv s' l' Hl') as [_ [room' Hroom']].
  rewrite (newGame_existing now' s' l' st room' Hl' Hroom').
  rewrite (resetStats_existing now s l st room Hl Hroom).
  destruct (decide (l = l')) as [-> | Hne].
  - assert (room = room') as -> by congruence.
    erewrite resetStats_existing;
      [|by rewrite lobbyOf_set_rooms | simpl; apply lookup_insert_eq].
    erewrite newGame_existing;
      [|by rewrite lobbyOf_set_rooms | simpl; apply lookup_insert_eq].
    simpl. unfold set_rooms. simpl. by rewrite !insert_insert_eq.
  - erewrite resetStats_existing;
      [|by rewrite lobbyOf_set_rooms
       |simpl; by rewrite lookup_insert_ne].
    erewrite newGame_existing;
      [|by rewrite lobbyOf_set_rooms
       |simpl; by rewrite lookup_insert_ne].
    simpl. unfold set_rooms. simpl. f_equal. by apply insert_insert_ne.
Qed.

End Commute.

(** X8: requests to reset the statistics and to start a new game commute:
    in every state that the server reaches, whatever the two sockets,
    handling [resetStats] then [newGame] leaves the same state as handling
    [newGame] then [resetStats]. *)
Theorem resetStats_and_newGame_commute
    (ops : list Server.Op) (now now' : Z) (s s' : string) :
  (Server.resetStats now s
     (Server.newGame now' s' (Server.run ops Server.initial)).1).1
  = (Server.newGame now' s'
       (Server.resetStats now s (Server.run ops Server.initial)).1).1.
Proof.
  apply resetStats_newGame_commute_existing, membersHaveRooms_reachable.
Qed.

(** ** Winner tests of the page *)

Lemma getWinningCombination_Some player (board : Board) l :
  Page.getWinningCombination player board = Some l ->
  l ∈ winningCombinations /\ line_full board l player.
Proof.
  unfold Page.getWinningCombination. intros H.
  apply find_some in H as [Hin Hl]. split; [by apply list_elem_of_In|].
  by apply bool_decide_eq_true in Hl.
Qed.

Lemma getWinningCombination_None player (board : Board) :
  Page.getWinningCombination player board = None <->
  determineWinner player board = false.
Proof.
  unfold Page.getWinningCombination, determineWinner. split.
  - intros H. apply not_true_is_false. intros E.
    apply existsb_exists in E as (l & Hin & Hl).
    by rewrite (find_none _ _ H l Hin) in Hl.
  - intros H. destruct (find _ _) as [l|] eqn:E; [|done].
    apply find_some in E as [Hin Hl].
    assert (existsb (fun combo => bool_decide (line_full board combo player))
                    winningCombinations = true); [|congruence].
    apply existsb_exists. eauto.
Qed.

(** X9: the winner tests of the page agree.  [determineWinner(player)] holds
    exactly when some win-line is full of the mark; [getWinningCombination]
    returns a win-line full of the mark, and returns [null] exactly when
    [determineWinner] fails; [checkWinner] returns [null] exactly when
    [determineWinner] fails for both marks, and a mark that it returns passes
    [determineWinner]. *)
Theorem winner_tests_agree (board : Board) (player : Mark) :
  (determineWinner player board = true <->
   exists l, l ∈ winningCombinations /\ line_full board l player)
  /\ (forall l, Page.getWinningCombination player board = Some l ->
                l ∈ winningCombinations /\ line_full board l player)
  /\ (Page.getWinningCombination player board = None <->
      determineWinner player board = false)
  /\ (checkWinner board = None <->
      determineWinner X board = false /\ determineWinner O board = false)
  /\ (checkWinner board = Some player -> determineWinner player board = true).
Proof.
  split; [apply determineWinner_true|].
  split; [apply getWinningCombination_Some|].
  split; [apply getWinningCombination_None|]. split.
  - rewrite checkWinner_None_lines. split.
    + intros H. split; apply not_true_is_false; intros E;
        apply determineWinner_true in E as (l & Hin & Hl);
        eapply H; eauto.
    + intros [HX HO] l m Hin Hl.
      assert (determineWinner m board = true) as E.
      { apply determineWinner_true. eauto. }
      destruct m; congruence.
  - intros H. apply checkWinner_scan_Some in H. by apply determineWinner_true.
Qed.

(** ** The move of the computer *)

Lemma completable_empty (board : Board) m l e :
  completable board m l e -> board !! e = Some None.
Proof.
  destruct l as [[a b] c].
  by intros [(-> & ? & _) | [(-> & _ & ? & _) | (-> & _ & _ & ?)]].
Qed.

Lemma findCriticalMove_empty (board : Board) m e :
  findCriticalMove board m 2 = Some e -> board !! e = Some None.
Proof.
  intros H. apply findCriticalMove_scan_Some in H as (l & _ & Hc).
  by eapply completable_empty.
Qed.

Lemma lookup_filter_empty (board : Board) (cells : list nat) k i :
  filter (fun j => board !! j = Some None) cells !! k = Some i ->
  i ∈ cells /\ board !! i = Some None.
Proof.
  intros H. apply list_elem_of_lookup_2, list_elem_of_filter in H as [? ?].
  done.
Qed.

(** Whatever the tier and the random numbers, a chosen cell is empty. *)
Lemma chooseMove_empty rnd d (board : Board) i :
  checkWinner board = None ->
  Client.chooseMove rnd d board = Some i -> board !! i = Some None.
Proof.
  intros Hw. unfold Client.chooseMove. destruct d.
  - intros H. by apply list_elem_of_lookup_2, elem_of_getEmptyIndices in H.
  - destruct (findCriticalMove board O 2) as [e|] eqn:EO.
    { intros [= <-]. by eapply findCriticalMove_empty. }
    destruct (findCriticalMove board X 2) as [e|] eqn:EX.
    { intros [= <-]. by eapply findCriticalMove_empty. }
    case_bool_decide as Hc; [by intros [= <-]|].
    case_bool_decide; intros Hk; by apply lookup_filter_empty in Hk as [_ ?].
  - rewrite minimax_unfold, Hw.
    rewrite !bool_decide_eq_false_2 by done.
    destruct (isBoardFull board) eqn:Hfull; [done|].
    destruct (minimax_choice board 0 true O Hw Hfull)
      as (i' & sc & Hmm & Hi' & _).
    rewrite minimax_unfold, Hw, Hfull in Hmm.
    rewrite !bool_decide_eq_false_2 in Hmm by done.
    rewrite Hmm. simpl. by intros [= <-].
Qed.

Lemma getEmptyIndices_nonempty (board : Board) :
  isBoardFull board = false -> 0 < length (getEmptyIndices board).
Proof.
  intros H. apply isBoardFull_false in H as [i Hi].
  apply elem_of_getEmptyIndices in Hi.
  destruct (getEmptyIndices board); [by apply elem_of_nil in Hi | simpl; lia].
Qed.

Lemma filter_nonempty (board : Board) (cells : list nat) i :
  i ∈ cells -> board !! i = Some None ->
  0 < length (filter (fun j => board !! j = Some None) cells).
Proof.
  intros Hin Hi.
  assert (i ∈ filter (fun j => board !! j = Some None) cells) as H.
  { by apply list_elem_of_filter. }
  destruct (filter _ cells); [by apply elem_of_nil in H | simpl; lia].
Qed.

(** With random numbers within their range, a cell is chosen on every board
    of nine cells that has no winner and is not full. *)
Lemma chooseMove_is_Some rnd d (board : Board) :
  (forall n, 0 < n -> rnd n < n) ->
  length board = 9 -> checkWinner board = None ->
  isBoardFull board = false ->
  is_Some (Client.chooseMove rnd d board).
Proof.
  intros Hrnd Hlen Hw Hfull. unfold Client.chooseMove. destruct d.
  - apply lookup_lt_is_Some_2, Hrnd. by apply getEmptyIndices_nonempty.
  - destruct (findCriticalMove board O 2); [eauto|].
    destruct (findCriticalMove board X 2); [eauto|].
    case_bool_decide as Hc; [eauto|].
    case_bool_decide as Hcorner.
    { by apply lookup_lt_is_Some_2, Hrnd. }
    apply lookup_lt_is_Some_2, Hrnd.
    apply isBoardFull_false in Hfull as [i Hi].
    assert (i < 9) as Hlt.
    { rewrite <- Hlen. by eapply lookup_lt_Some. }
    destruct (decide (i ∈ [1; 3; 5; 7])) as [Hside | Hside].
    { by eapply filter_nonempty. }
    destruct (decide (i ∈ [0; 2; 6; 8])) as [Hin | Hin].
    { destruct Hcorner. by eapply filter_nonempty. }
    assert (i = 4) as ->.
    { rewrite !elem_of_cons, elem_of_nil in Hside, Hin. lia. }
    done.
  - destruct (minimax_choice board 0 true O Hw Hfull)
      as (i' & sc & Hmm & _).
    rewrite Hmm. simpl. eauto.
Qed.

(** X10: the move of the computer is legal on every tier.  On a board
    without a winner, a cell that [handleComputerMove] chooses is empty,
    whatever random numbers are drawn; and when the board has nine cells, one
    of them empty, and the random indices are within their range, a cell is
    chosen. *)
Theorem computer_chooses_an_empty_cell
    (rnd : nat -> nat) (d : Client.Difficulty) (board : Board) :
  checkWinner board = None ->
  (forall i, Client.chooseMove rnd d board = Some i ->
             board !! i = Some None)
  /\ ((forall n, 0 < n -> rnd n < n) ->
      length board = 9 -> isBoardFull board = false ->
      exists i, Client.chooseMove rnd d board = Some i
                /\ board !! i = Some None).
Proof.
  intros Hw. split.
  - intros i. by apply chooseMove_empty.
  - intros Hrnd Hlen Hfull.
    destruct (chooseMove_is_Some rnd d board Hrnd Hlen Hw Hfull) as [i Hi].
    exists i. split; [done|]. by eapply chooseMove_empty.
Qed.

Lemma computer_chooses_an_empty_cell_witness :
  exists i,
    Client.chooseMove (fun _ => 0) Client.easy winOrBlockBoard = Some i
    /\ winOrBlockBoard !! i = Some None.
Proof.
  destruct (computer_chooses_an_empty_cell (fun _ => 0) Client.easy
              winOrBlockBoard) as [_ H]; [by vm_compute|].
  apply H; [intros n Hn; lia | by vm_compute | by vm_compute].
Defined.

(** X11: the positional play of the medium tier.  When neither mark has a
    line to complete, the move is the centre if it is empty; otherwise it is
    an empty corner if there is one, and an empty side if there is none. *)
Theorem medium_prefers_centre_then_corners
    (rnd : nat -> nat) (board : Board) (i : nat) :
  findCriticalMove board O 2 = None ->
  findCriticalMove board X 2 = None ->
  Client.chooseMove rnd Client.medium board = Some i ->
  board !! i = Some None
  /\ (board !! 4 = Some None -> i = 4)
  /\ (board !! 4 <> Some None ->
      if existsb (fun c => bool_decide (board !! c = Some None)) [0; 2; 6; 8]
      then i ∈ [0; 2; 6; 8]
      else i ∈ [1; 3; 5; 7]).
Proof.
  intros HO HX. unfold Client.chooseMove. rewrite HO, HX.
  case_bool_decide as Hc.
  { intros [= <-]. done. }
  assert (existsb (fun c => bool_decide (board !! c = Some None))
                  [0; 2; 6; 8]
          = bool_decide
              (0 < length (filter (fun j => board !! j = Some None)
                                  [0; 2; 6; 8]))) as ->.
  { rewrite !filter_cons, filter_nil. simpl.
    repeat (case_bool_decide; [rewrite decide_True by done
                              | rewrite decide_False by done]); simpl;
      try done; symmetry; (apply bool_decide_eq_true_2; simpl; lia)
                          || (apply bool_decide_eq_false_2; simpl; lia). }
  case_bool_decide; intros Hk; apply lookup_filter_empty in Hk as [Hin Hi];
    done.
Qed.

Lemma medium_prefers_centre_then_corners_witness :
  Client.chooseMove (fun _ => 0) Client.medium
    [Some X; None; None; None; Some O; None; None; None; None] = Some 2.
Proof.
  assert (2 ∈ [0; 2; 6; 8]) as _ by (right; left).
  destruct (medium_prefers_centre_then_corners (fun _ => 0)
              [Some X; None; None; None; Some O; None; None; None; None] 2)
    as (_ & _ & _); by vm_compute.
Defined.

(** X12: the turn of the computer.  In an offline game that is active, on a
    board of nine cells with no winner and an empty cell, and with random
    indices within their range, [handleComputerMove] writes O on one empty
    cell and nothing else on the board; then the game is over with a win
    counted for the computer when O holds a line, over with a draw counted
    when the board is full, and otherwise it goes on with the clicks of the
    player accepted again. *)
Theorem computer_turn_outcome (rnd : nat -> nat) (s : Client.Local) :
  (forall n, 0 < n -> rnd n < n) ->
  Client.onlineMode s = false ->
  Client.isGameCurrentlyActive s = true ->
  length (Client.currentGameBoard s) = 9 ->
  checkWinner (Client.currentGameBoard s) = None ->
  isBoardFull (Client.currentGameBoard s) = false ->
  exists i,
    Client.currentGameBoard s !! i = Some None
    /\ let board1 := <[i := Some O]> (Client.currentGameBoard s) in
       let s1 := Client.set_currentGameBoard board1 s in
       Client.handleComputerMove rnd s
       = if determineWinner O board1
         then Client.set_isGameCurrentlyActive false
                (Client.set_gameStatistics
                   (Client.countComputerWin (Client.gameStatistics s)) s1)
         else if isBoardFull board1
         then Client.set_isGameCurrentlyActive false
                (Client.set_gameStatistics
                   (Client.countDraw (Client.gameStatistics s)) s1)
         else Client.set_isProcessingMove false s1.
Proof.
  intros Hrnd Hon Hact Hlen Hw Hfull.
  destruct (chooseMove_is_Some rnd (Client.difficulty s) _ Hrnd Hlen Hw Hfull)
    as [i Hi].
  exists i. split; [by eapply chooseMove_empty|]. simpl.
  unfold Client.handleComputerMove. rewrite Hon, Hact, Hi. simpl.
  rewrite bool_decide_eq_false_2; [done|].
  pose proof (getEmptyIndices_nonempty _ Hfull). lia.
Qed.

Lemma computer_turn_outcome_witness :
  exists i,
    Client.currentGameBoard
      (Client.set_currentGameBoard winOrBlockBoard
         (Client.pvcStart Client.medium false)) !! i = Some None
    /\ Client.isGameCurrentlyActive
         (Client.handleComputerMove (fun _ => 0)
            (Client.set_currentGameBoard winOrBlockBoard
               (Client.pvcStart Client.medium false))) = false.
Proof.
  destruct (computer_turn_outcome (fun _ => 0)
              (Client.set_currentGameBoard winOrBlockBoard
                 (Client.pvcStart Client.medium false)))
    as (i & Hi & Hstep); try (by vm_compute).
  exists i. split; [exact Hi|]. by vm_compute.
Defined.

(** ** Bounds on the scores of minimax *)

Lemma length_getEmptyIndices_le (board : Board) :
  length (getEmptyIndices board) <= length board.
Proof.
  induction board as [|c board IH]; [done|].
  rewrite length_getEmptyIndices_cons. simpl. case_bool_decide; lia.
Qed.

(** At a depth from 0 on, with at most 9 moves played from the root to the
    end of the game, a score lies between [depth - 10] and [10 - depth], and
    it reaches one of these bounds only on a board that is already won. *)
Lemma minimax_score_bounds maxPlayer n :
  forall (board : Board) depth isMaximizing r,
    length (getEmptyIndices board) = n ->
    (0 <= depth)%Z -> (depth + Z.of_nat n <= 9)%Z ->
    minimax board depth isMaximizing maxPlayer = Some r ->
    (depth - 10 <= score r <= 10 - depth)%Z
    /\ (score r = (10 - depth)%Z -> checkWinner board = Some maxPlayer)
    /\ (score r = (depth - 10)%Z ->
        checkWinner board = Some (other maxPlayer)).
Proof.
  induction n as [n IH] using lt_wf_ind.
  intros board depth isMaximizing r Hn Hd Hdn Hr.
  destruct (checkWinner board) as [w|] eqn:Hw.
  - rewrite minimax_unfold, Hw in Hr.
    destruct (decide (w = maxPlayer)) as [-> | Hne].
    + rewrite bool_decide_eq_true_2 in Hr by done. simplify_eq/=.
      split; [lia|]. split; [done | lia].
    + rewrite bool_decide_eq_false_2 in Hr by congruence.
      assert (w = other maxPlayer) as -> by (by destruct w, maxPlayer).
      rewrite bool_decide_eq_true_2 in Hr by done. simplify_eq/=.
      split; [lia|]. split; [lia | done].
  - destruct (isBoardFull board) eqn:Hfull.
    + rewrite minimax_unfold, Hw, Hfull in Hr.
      rewrite !bool_decide_eq_false_2 in Hr by done. simplify_eq/=.
      split; [lia|]. split; lia.
    + destruct (minimax_choice board depth isMaximizing maxPlayer Hw Hfull)
        as (i & sc & Hmm & Hi & Hsub & _).
      rewrite Hmm in Hr. injection Hr as <-. simpl.
      unfold subtreeScore in Hsub.
      destruct (minimax
                  (<[i := Some (if isMaximizing then maxPlayer
                                else other maxPlayer)]> board)
                  (depth + 1) (negb isMaximizing) maxPlayer)
        as [r'|] eqn:Hchild; [|done].
      simpl in Hsub. injection Hsub as <-.
      pose proof (length_getEmptyIndices_insert board i
                    (if isMaximizing then maxPlayer else other maxPlayer) Hi)
        as Hless.
      assert (length (getEmptyIndices
                        (<[i := Some (if isMaximizing then maxPlayer
                                      else other maxPlayer)]> board)) < n)
        as Hlt by lia.
      destruct (IH _ Hlt
                  (<[i := Some (if isMaximizing then maxPlayer
                                else other maxPlayer)]> board)
                  (depth + 1)%Z (negb isMaximizing) r' eq_refl)
        as (Hb & _); [lia | lia | done |].
      split; [lia|]. split; lia.
Qed.

(** X13: the hard tier takes a win that is one move away.  On a board of
    at most nine cells without a winner, when writing O at some empty cell
    gives O a win-line, the move of the hard tier is an empty cell that gives
    O a win-line. *)
Theorem hard_takes_an_immediate_win
    (rnd : nat -> nat) (board : Board) (j : nat) :
  length board <= 9 ->
  checkWinner board = None ->
  board !! j = Some None ->
  checkWinner (<[j := Some O]> board) = Some O ->
  exists i,
    Client.chooseMove rnd Client.hard board = Some i
    /\ board !! i = Some None
    /\ checkWinner (<[i := Some O]> board) = Some O.
Proof.
  intros Hlen Hw Hj Hwin.
  assert (isBoardFull board = false) as Hfull.
  { apply isBoardFull_false. eauto. }
  destruct (minimax_choice board 0 true O Hw Hfull)
    as (i & sc & Hmm & Hi & Hsub & Hbest).
  exists i. unfold Client.chooseMove. rewrite Hmm. simpl.
  split; [done|]. split; [done|].
  destruct (Hbest j Hj) as (sj & Hsj & Hle & _).
  unfold subtreeScore in Hsj, Hsub. simpl in Hsj, Hsub.
  rewrite minimax_unfold, Hwin in Hsj.
  rewrite bool_decide_eq_true_2 in Hsj by done. simpl in Hsj. simplify_eq.
  destruct (minimax (<[i := Some O]> board) (0 + 1) false O) as [r|] eqn:Hr;
    [|done].
  simpl in Hsub. simplify_eq.
  pose proof (length_getEmptyIndices_insert board i O Hi) as Hless.
  pose proof (length_getEmptyIndices_le board) as Hle'.
  destruct (minimax_score_bounds O _ (<[i := Some O]> board) (0 + 1)%Z
              false r eq_refl) as (Hb & Htop & _); [lia | lia | done |].
  apply Htop. lia.
Qed.

Lemma hard_takes_an_immediate_win_witness :
  exists i,
    Client.chooseMove (fun _ => 0) Client.hard winOrBlockBoard = Some i
    /\ winOrBlockBoard !! i = Some None
    /\ checkWinner (<[i := Some O]> winOrBlockBoard) = Some O.
Proof.
  apply (hard_takes_an_immediate_win (fun _ => 0) winOrBlockBoard 2);
    by vm_compute.
Defined.

(** ** The page: what every event keeps *)

Section PageInvariant.
Import Client Page.

Variable rnd : nat -> nat.

Lemma sameSettings_refl s : sameSettings s s.
Proof. done. Qed.

Lemma creategameBoard_settings s : sameSettings s (creategameBoard s).1.
Proof. by destruct s as [[] ? ? ? ? ? ? ? ? ? ? ?]. Qed.

Lemma handleComputerMove_settings s :
  sameSettings s (handleComputerMove rnd s).
Proof.
  unfold handleComputerMove.
  destruct (onlineMode s); [done|].
  destruct (negb _); [done|]. destruct (bool_decide _); [done|].
  destruct (chooseMove _ _ _); [|done]. simpl.
  destruct (determineWinner _ _); [done|].
  by destruct (isGameOver _).
Qed.

Lemma handlePlayerMove_settings i s :
  sameSettings s (handlePlayerMove rnd i s).1.
Proof.
  unfold handlePlayerMove.
  destruct (bool_decide _); [done|]. destruct (_ || _ || _); [done|].
  destruct (onlineMode s) eqn:Hon.
  { destruct (_ || _); [done|]. unfold sameSettings. simpl. by rewrite Hon. }
  unfold sameSettings at 1. simpl.
  destruct (determineWinner _ _); [simpl; by rewrite Hon|].
  destruct (isGameOver _); [simpl; by rewrite Hon|].
  destruct (gameMode s) eqn:Hg; simpl; [|by rewrite Hon, Hg].
  destruct (handleComputerMove_settings
              (set_currentGameBoard (<[i := Some X]> (currentGameBoard s))
                 (set_isProcessingMove true s))) as (? & ? & ? & ?).
  simpl in *. repeat split; congruence.
Qed.

Lemma creategameBoard_scheduled s :
  (creategameBoard s).2 = true -> gameMode (creategameBoard s).1 = pvc.
Proof. by destruct s as [[] ? ? ? ? ? ? ? ? ? ? ?]. Qed.

Lemma creategameBoard_good s :
  countersAddUp s ->
  countersAddUp (creategameBoard s).1 /\ boardConsistent (creategameBoard s).1.
Proof.
  intros Hc. split.
  - by destruct s as [[] ? ? ? ? ? ? ? ? ? ? ?].
  - destruct s as [[] ? ? ? ? ? ? ? ? ? ? ?]; by repeat split.
Qed.

(** A board after a mark has been written at an empty cell, with the flag
    that the engine then sets. *)
Lemma boardConsistent_write (board : Board) i m :
  length board = 9 -> checkWinner board = None ->
  length (<[i := Some m]> board) = 9
  /\ (determineWinner m (<[i := Some m]> board) = true ->
      checkWinner (<[i := Some m]> board) <> None)
  /\ (determineWinner m (<[i := Some m]> board) = false ->
      checkWinner (<[i := Some m]> board) = None).
Proof.
  intros Hlen Hw. rewrite length_insert.
  rewrite (checkWinner_insert_determineWinner board i m Hw).
  split; [done|]. split; by intros ->.
Qed.

Lemma handleComputerMove_good s :
  gameMode s = pvc -> countersAddUp s -> boardConsistent s ->
  countersAddUp (handleComputerMove rnd s)
  /\ boardConsistent (handleComputerMove rnd s).
Proof.
  intros Hg Hc Hbc. pose proof (conj Hc Hbc) as Hsame.
  destruct Hbc as [Hlen Hb]. unfold handleComputerMove.
  destruct (onlineMode s); [exact Hsame|].
  destruct (isGameCurrentlyActive s) eqn:Hact; simpl; [|exact Hsame].
  destruct (bool_decide _); [exact Hsame|].
  destruct (proj1 Hb eq_refl) as [Hw Hfull].
  destruct (chooseMove rnd (difficulty s) (currentGameBoard s))
    as [i|] eqn:Hi; [|exact Hsame]. clear Hsame.
  pose proof (chooseMove_empty _ _ _ _ Hw Hi) as Hcell.
  destruct (boardConsistent_write (currentGameBoard s) i O Hlen Hw)
    as (Hlen1 & Hwin & Hnowin).
  unfold countersAddUp, boardConsistent, isGameOver in *.
  destruct (determineWinner O _) eqn:Ed; simpl.
  - rewrite Hg in *. simpl. split; [lia|]. split; [done|].
    split; [done|]. intros [? _]. by destruct (Hwin eq_refl).
  - destruct (isBoardFull (<[i := Some O]> (currentGameBoard s))) eqn:Ef;
      simpl.
    + rewrite Hg in *. simpl. split; [lia|]. split; [done|].
      split; [done|]. intros [_ ?]. congruence.
    + rewrite Hg in *. simpl. split; [done|]. split; [done|].
      rewrite Hact. split; [|done]. intros _. split; [by apply Hnowin | done].
Qed.

Lemma handlePlayerMove_good i s :
  onlineMode s = false -> countersAddUp s -> boardConsistent s ->
  countersAddUp (handlePlayerMove rnd i s).1
  /\ boardConsistent (handlePlayerMove rnd i s).1.
Proof.
  intros Hon Hc Hbc. pose proof (conj Hc Hbc) as Hsame.
  destruct Hbc as [Hlen Hb]. unfold handlePlayerMove.
  case_bool_decide as Hi; [exact Hsame|].
  destruct (isGameCurrentlyActive s) eqn:Hact; simpl; [|exact Hsame].
  destruct (bool_decide (is_Some _)); [exact Hsame|].
  destruct (isProcessingMove s); [exact Hsame|]. simpl. rewrite Hon.
  clear Hsame.
  destruct (proj1 Hb eq_refl) as [Hw Hfull].
  set (m := match gameMode s with pvp => currentPlayer s | pvc => X end).
  destruct (boardConsistent_write (currentGameBoard s) i m Hlen Hw)
    as (Hlen1 & Hwin & Hnowin).
  unfold isGameOver. simpl.
  destruct (determineWinner m _) eqn:Ed; simpl.
  - unfold countersAddUp, boardConsistent in *. simpl.
    split.
    + destruct (gameMode s); simpl in *; [lia|].
      subst m. destruct (currentPlayer s); simpl; lia.
    + split; [done|]. split; [done|]. intros [? _].
      by destruct (Hwin eq_refl).
  - destruct (isBoardFull (<[i := Some m]> (currentGameBoard s))) eqn:Ef;
      simpl.
    + unfold countersAddUp, boardConsistent in *. simpl. split.
      * destruct (gameMode s); simpl in *; lia.
      * split; [done|]. split; [done|]. intros [_ ?]. congruence.
    + destruct (gameMode s) eqn:Hg; simpl.
      * apply handleComputerMove_good; simpl; [done | |].
        -- unfold countersAddUp in *. simpl. by rewrite Hg in *.
        -- split; [done|]. simpl. rewrite Hact. split; [|done].
           intros _. split; [by apply Hnowin | done].
      * unfold countersAddUp, boardConsistent in *. simpl. rewrite Hg in *.
        split; [done|]. split; [done|]. rewrite Hact. split; [|done].
        intros _. split; [by apply Hnowin | done].
Qed.

(** A game that has been started again, with the move of the computer that
    may follow. *)
Lemma restart_good s :
  countersAddUp s ->
  let s1 := thenComputer rnd (creategameBoard s).1 (creategameBoard s).2 in
  sameSettings s s1 /\ countersAddUp s1 /\ boardConsistent s1.
Proof.
  intros Hc. simpl.
  destruct (creategameBoard_good s Hc) as [Hc1 Hb1].
  pose proof (creategameBoard_settings s) as Hs1.
  pose proof (creategameBoard_scheduled s) as Hsched.
  unfold thenComputer. destruct (creategameBoard s).2; [|done].
  pose proof (handleComputerMove_settings (creategameBoard s).1) as Hs2.
  destruct (handleComputerMove_good (creategameBoard s).1 (Hsched eq_refl)
              Hc1 Hb1) as [? ?].
  split; [|done]. unfold sameSettings in *.
  destruct Hs1 as (? & ? & ? & ?), Hs2 as (? & ? & ? & ?).
  repeat split; congruence.
Qed.

End PageInvariant.

Section PageSteps.
Import Client Page.

Variable rnd : nat -> nat.

Lemma inLobby_online p :
  pageInvariant p -> inLobby p = onlineMode (engine p).
Proof.
  intros (Hs & Hon & _). unfold inLobby. rewrite Hs.
  destruct (onlineMode (engine p)); [|done].
  destruct (Hon eq_refl) as (_ & l & -> & Hl). simpl.
  by rewrite bool_decide_eq_false_2.
Qed.

(** The invariant seen from an engine and a lobby identifier. *)
Lemma pageInvariant_intro e lobby :
  socket e = onlineMode e ->
  (onlineMode e = true ->
   gameMode e = pvp /\ exists l, lobby = Some l /\ l <> EmptyString) ->
  (onlineMode e = false ->
   lobby = None /\ myMark e = None /\ countersAddUp e /\ boardConsistent e) ->
  pageInvariant (mkPage e lobby).
Proof. done. Qed.

(** An engine with the same settings, in the same lobby. *)
Lemma pageInvariant_engine p e1 :
  pageInvariant p -> sameSettings (engine p) e1 ->
  (onlineMode (engine p) = false ->
   countersAddUp e1 /\ boardConsistent e1) ->
  pageInvariant (mkPage e1 (currentLobbyId p)).
Proof.
  intros (Hs & Hon & Hoff) (E1 & E2 & E3 & E4) Hgood.
  apply pageInvariant_intro.
  - congruence.
  - rewrite E2, E3. exact Hon.
  - rewrite E2, E4. intros H. destruct (Hoff H) as (? & ? & _).
    destruct (Hgood H). done.
Qed.

Lemma renderFromRoomState_settings room s s1 :
  renderFromRoomState room s = Some s1 -> sameSettings s s1.
Proof.
  unfold renderFromRoomState.
  destruct (copyCells _ _) as [b|]; simpl; [|done]. by intros [= <-].
Qed.

Lemma step_invariant ev p :
  pageInvariant p -> pageInvariant (step rnd ev p).1.
Proof.
  intros Hinv. pose proof Hinv as (Hs & Hon & Hoff).
  destruct ev as [i | | | | | | text | room lobby yourMark | held]; simpl.
  - pose proof (handlePlayerMove_settings rnd i (engine p)) as Hset.
    pose proof (handlePlayerMove_good rnd i (engine p)) as Hgood.
    destruct (handlePlayerMove rnd i (engine p)) as [e1 sent]. simpl in *.
    apply pageInvariant_engine; [done | done |].
    intros H. destruct (Hoff H) as (_ & _ & ? & ?). by apply Hgood.
  - unfold onNewGame. rewrite (inLobby_online p Hinv).
    destruct (onlineMode (engine p)) eqn:E; simpl.
    { by destruct p. }
    destruct (Hoff eq_refl) as (_ & _ & Hc & _).
    destruct (restart_good rnd (engine p) Hc) as (Hset & Hc1 & Hb1).
    destruct (creategameBoard (engine p)) as [e1 scheduled]. simpl in *.
    apply pageInvariant_engine; [done | done | done].
  - unfold onResetStats. rewrite (inLobby_online p Hinv).
    destruct (onlineMode (engine p)) eqn:E; simpl; [done|].
    destruct (Hoff eq_refl) as (_ & _ & Hc & Hb).
    apply pageInvariant_engine; [done | done |]. intros _. split; [|done].
    unfold countersAddUp. simpl. by destruct (gameMode (engine p)).
  - unfold toggleGameMode.
    assert (exists p1 out,
              (if onlineMode (engine p) then leaveLobby p else (p, []))
              = (p1, out)
              /\ onlineMode (engine p1) = false
              /\ socket (engine p1) = false
              /\ myMark (engine p1) = None
              /\ currentLobbyId p1 = None) as (p1 & out & -> & H1 & H2 & H3 & H4).
    { destruct (onlineMode (engine p)) eqn:E.
      - unfold leaveLobby. simpl.
        destruct (socket (engine p)); eexists _, _; by repeat split.
      - exists p, []. destruct (Hoff eq_refl) as (? & ? & _).
        repeat split; try done; congruence. }
    set (e3 := set_gameStatistics (mkStatistics 0 0 0 0 0 0)
                 (set_gameMode
                    (match gameMode (engine p1) with
                     | pvc => pvp
                     | pvp => pvc
                     end) (engine p1))).
    assert (countersAddUp e3) as Hc3.
    { unfold countersAddUp, e3. simpl. by destruct (gameMode (engine p1)). }
    destruct (restart_good rnd e3 Hc3) as ((E1 & E2 & E3 & E4) & Hc4 & Hb4).
    destruct (creategameBoard e3) as [e4 scheduled]. simpl in *.
    apply pageInvariant_intro.
    + rewrite E1, E2. unfold e3. simpl. congruence.
    + rewrite E2. unfold e3. simpl. congruence.
    + intros _. rewrite E4. unfold e3. simpl. done.
  - unfold toggleStarter, togglePvPStarter, toggleComputerStarter.
    assert (forall e0,
              sameSettings (engine p) e0 ->
              (onlineMode (engine p) = false -> countersAddUp e0) ->
              (onlineMode (engine p) = true ->
               (creategameBoard e0).2 = false) ->
              pageInvariant
                (mkPage (thenComputer rnd (creategameBoard e0).1
                                      (creategameBoard e0).2)
                        (currentLobbyId p))) as Hrestart.
    { intros e0 (E1 & E2 & E3 & E4) Hc0 Hsched.
      destruct (onlineMode (engine p)) eqn:E.
      - rewrite (Hsched eq_refl). simpl.
        destruct (creategameBoard_settings e0) as (F1 & F2 & F3 & F4).
        apply pageInvariant_engine; [done | | intros; congruence].
        unfold sameSettings. repeat split; congruence.
      - destruct (restart_good rnd e0 (Hc0 eq_refl))
          as ((F1 & F2 & F3 & F4) & Hc1 & Hb1).
        apply pageInvariant_engine; [done | | done].
        unfold sameSettings. repeat split; congruence. }
    destruct (gameMode (engine p)) eqn:Hg; simpl; rewrite Hg.
    + specialize (Hrestart
                    (set_computerStartsFirst
                       (negb (computerStartsFirst (engine p))) (engine p))).
      destruct (creategameBoard _) as [e1 scheduled]. simpl in *.
      apply Hrestart; [done | |].
      * intros H. destruct (Hoff H) as (_ & _ & Hc & _).
        unfold countersAddUp in *. simpl. done.
      * intros H. destruct (Hon H) as [? _]. congruence.
    + pose proof (Hrestart
                    (set_playerXStartsFirst
                       (negb (playerXStartsFirst (engine p))) (engine p)))
        as Hr.
      assert ((creategameBoard
                 (set_playerXStartsFirst
                    (negb (playerXStartsFirst (engine p))) (engine p))).2
              = false) as Hfalse.
      { destruct (engine p) as [[] ? ? ? ? ? ? ? ? ? ? ?]; done. }
      destruct (creategameBoard _) as [e1 scheduled]. simpl in *.
      apply Hr; [done | | done].
      intros H. destruct (Hoff H) as (_ & _ & Hc & _).
      unfold countersAddUp in *. simpl. done.
  - unfold toggleDifficulty.
    destruct (onlineMode (engine p)) eqn:E; [by destruct p|].
    apply pageInvariant_engine; [done | done |].
    intros _. by destruct (Hoff eq_refl) as (_ & _ & ? & ?).
  - case_bool_decide as Hid; [done|]. unfold joinLobby.
    rewrite bool_decide_eq_false_2 by done.
    destruct (_ && _); [done|].
    set (e2 := set_gameMode pvp
                 (set_onlineMode true (set_socket true (engine p)))).
    change (pageInvariant (mkPage (creategameBoard e2).1 (Some (trim text)))).
    destruct (creategameBoard_settings e2) as (E1 & E2 & E3 & E4).
    apply pageInvariant_intro.
    + by rewrite E1, E2.
    + intros _. rewrite E3. split; [done|]. eauto.
    + rewrite E2. done.
  - destruct (socket (engine p)) eqn:Hsock; [|done]. simpl.
    assert (onlineMode (engine p) = true) as Honline by congruence.
    destruct (Hon Honline) as (Hg & l & Hl & Hne).
    unfold onRoomState.
    set (e1 := match yourMark with
               | Some m => set_myMark (Some m) (engine p)
               | None => engine p
               end).
    assert (socket e1 = true /\ onlineMode e1 = true /\ gameMode e1 = pvp)
      as (F1 & F2 & F3).
    { unfold e1. by destruct yourMark. }
    destruct (renderFromRoomState room e1) as [e2|] eqn:Hr; [|done].
    apply renderFromRoomState_settings in Hr as (G1 & G2 & G3 & G4).
    apply pageInvariant_intro.
    + congruence.
    + intros _. split; [congruence|].
      case_bool_decide; eauto.
    + intros H. congruence.
  - assert ((handlePlayerMove_inside held (engine p)).1 = engine p
            \/ (handlePlayerMove_inside held (engine p)).1
               = set_isProcessingMove true (engine p)) as Hcases.
    { unfold handlePlayerMove_inside.
      destruct (_ || _ || _); [by left|].
      destruct (onlineMode (engine p)); [|by right].
      destruct (_ || _); [by left | by right]. }
    destruct (handlePlayerMove_inside held (engine p)) as [e1 effect].
    simpl in *. destruct Hcases as [-> | ->]; [by destruct p|].
    apply pageInvariant_engine; [done | done |].
    intros H. by destruct (Hoff H) as (_ & _ & ? & ?).
Qed.

Lemma run_invariant evs p :
  pageInvariant p -> pageInvariant (run rnd evs p).
Proof.
  revert p. induction evs as [|ev evs IH]; intros p Hinv; [done|].
  apply IH. by apply step_invariant.
Qed.

Lemma loaded_invariant : pageInvariant loaded.
Proof.
  apply pageInvariant_intro; [done | done |]. intros _.
  repeat split; done.
Qed.

End PageSteps.

(** X14: what holds of the page after any sequence of clicks (on a cell
    or on an element inside a cell), button
    presses and received snapshots, whatever the random numbers, when the
    timers that an event arms have run before the next event is handled (the
    runs of [Page.run]; a button that the page has disabled fires no event,
    so these runs include those of the page).  The page holds a socket
    exactly in online mode.  In online mode it is in PvP mode and
    holds a lobby identifier, so the buttons send their requests to the
    server.  In offline mode it holds no lobby and no mark; its board has nine
    cells; the game is active exactly when the board has no winner and an
    empty cell; the counters of the mode add up to the total of games and the
    counters of the other mode are zero. *)
Theorem page_invariant (rnd : nat -> nat) (evs : list Page.Event) :
  Page.pageInvariant (Page.run rnd evs Page.loaded).
Proof. apply run_invariant, loaded_invariant. Qed.

(** X15: the difficulty button cycles through the three tiers, easy to
    medium to hard to easy, and changes nothing else, so that three presses
    leave the page as it was; in online mode it does nothing. *)
Theorem difficulty_button_cycles (s : Client.Local) :
  (Client.onlineMode s = true -> Page.toggleDifficulty s = s)
  /\ (Client.onlineMode s = false ->
      Client.difficulty (Page.toggleDifficulty s)
      = match Client.difficulty s with
        | Client.easy => Client.medium
        | Client.medium => Client.hard
        | Client.hard => Client.easy
        end
      /\ Page.toggleDifficulty s
         = Page.set_difficulty (Client.difficulty (Page.toggleDifficulty s)) s
      /\ Page.toggleDifficulty
           (Page.toggleDifficulty (Page.toggleDifficulty s)) = s).
Proof.
  unfold Page.toggleDifficulty. split; intros Hon; rewrite Hon; [done|].
  destruct s as [? ? ? ? [] ? ? ? ? ? ? ?]; simpl in *; subst; done.
Qed.

(** X16: switching the mode leaves the lobby and starts afresh.  After
    [toggleGameMode] the page is offline in the other mode, every counter is
    zero, the board is empty and the game is active; a page that was online
    has dropped its socket, its mark and its lobby identifier.  The first move
    of the computer is scheduled exactly when the new mode is PvC with the
    computer as starter, and switching twice gives the first mode back. *)
Theorem mode_switch_starts_afresh (p : Page.Page) :
  let p1 := (Page.toggleGameMode p).1.1 in
  let e1 := Page.engine p1 in
  Client.onlineMode e1 = false
  /\ Client.gameMode e1
     = match Client.gameMode (Page.engine p) with
       | Client.pvc => Client.pvp
       | Client.pvp => Client.pvc
       end
  /\ Client.gameStatistics e1 = Client.mkStatistics 0 0 0 0 0 0
  /\ Client.currentGameBoard e1 = replicate 9 None
  /\ Client.isGameCurrentlyActive e1 = true
  /\ Client.isProcessingMove e1 = false
  /\ (Client.onlineMode (Page.engine p) = true ->
      Client.socket e1 = false /\ Client.myMark e1 = None
      /\ Page.currentLobbyId p1 = None)
  /\ (Page.toggleGameMode p).2
     = match Client.gameMode e1 with
       | Client.pvc => Client.computerStartsFirst e1
       | Client.pvp => false
       end
  /\ Client.gameMode
       (Page.engine (Page.toggleGameMode p1).1.1)
     = Client.gameMode (Page.engine p).
Proof.
  destruct p as [[g cp csf xsf d so on mm b act pr st] lobby].
  unfold Page.toggleGameMode, Page.leaveLobby. simpl.
  destruct on, so, g; simpl; repeat split; done.
Qed.

(** ** Snapshots *)

Lemma copyCells_nine (received current : Board) :
  length received = 9 -> length current = 9 ->
  Page.copyCells received current = Some received.
Proof.
  intros Hr Hc.
  do 10 (destruct received as [|? received]; try done).
  do 10 (destruct current as [|? current]; try done).
Qed.

Lemma renderFromRoomState_mirrors (room : Server.Room) (s : Client.Local) :
  length (Server.board room) = 9 ->
  length (Client.currentGameBoard s) = 9 ->
  exists s1,
    Page.renderFromRoomState room s = Some s1
    /\ Client.currentGameBoard s1 = Server.board room
    /\ Client.isGameCurrentlyActive s1 = Server.isActive room
    /\ Client.currentPlayer s1 = Server.currentPlayer room
    /\ Client.isProcessingMove s1 = false
    /\ Client.gameStatistics s1
       = Client.mkStatistics
           (Client.player (Client.gameStatistics s))
           (Client.computer (Client.gameStatistics s))
           (Server.xWins (Server.stats room))
           (Server.oWins (Server.stats room))
           (Server.draws (Server.stats room))
           (Server.totalGames (Server.stats room))
    /\ Page.sameSettings s s1.
Proof.
  intros Hr Hc. unfold Page.renderFromRoomState.
  rewrite (copyCells_nine _ _ Hr Hc). simpl. eexists. split; [done|].
  simpl. repeat split; done.
Qed.

(** X17: a snapshot of the server is mirrored by the page.  For a room of a
    state that the server reaches, received by a page whose board has nine
    cells, [renderFromRoomState] succeeds on every cell; it sets the board,
    the active flag and the current mark to those of the room, accepts clicks
    again, and shows the counters of the room, which add up to the total of
    games.  The counters of the PvC mode, the mode and the connection are left
    as they are. *)
Theorem snapshot_is_mirrored
    (ops : list Server.Op) (lobby : string) (room : Server.Room)
    (s : Client.Local) :
  Server.rooms (Server.run ops Server.initial) !! lobby = Some room ->
  length (Client.currentGameBoard s) = 9 ->
  exists s1,
    Page.renderFromRoomState room s = Some s1
    /\ Client.currentGameBoard s1 = Server.board room
    /\ Client.isGameCurrentlyActive s1 = Server.isActive room
    /\ Client.currentPlayer s1 = Server.currentPlayer room
    /\ Client.isProcessingMove s1 = false
    /\ Client.playerX (Client.gameStatistics s1)
       = Server.xWins (Server.stats room)
    /\ Client.playerO (Client.gameStatistics s1)
       = Server.oWins (Server.stats room)
    /\ Client.draws (Client.gameStatistics s1)
       = Server.draws (Server.stats room)
    /\ (Client.playerX (Client.gameStatistics s1)
        + Client.playerO (Client.gameStatistics s1)
        + Client.draws (Client.gameStatistics s1)
        = Client.totalGames (Client.gameStatistics s1))%Z
    /\ Client.player (Client.gameStatistics s1)
       = Client.player (Client.gameStatistics s)
    /\ Client.computer (Client.gameStatistics s1)
       = Client.computer (Client.gameStatistics s)
    /\ Page.sameSettings s s1.
Proof.
  intros Hroom Hc.
  pose proof (map_Forall_lookup_1 _ _ _ _
                (reachable_boards_have_nine_cells ops) Hroom) as Hr.
  pose proof (map_Forall_lookup_1 _ _ _ _
                (statsInvariant_reachable ops) Hroom) as Hbal.
  simpl in Hr, Hbal.
  destruct (renderFromRoomState_mirrors room s Hr Hc)
    as (s1 & H1 & H2 & H3 & H4 & H5 & H6 & H7).
  exists s1. rewrite H6. simpl.
  repeat (split; [done|]). exact H7.
Qed.

Lemma snapshot_is_mirrored_witness :
  exists s1,
    Page.renderFromRoomState scenarioRoom (Page.engine Page.loaded) = Some s1
    /\ Client.currentGameBoard s1 = Server.board scenarioRoom.
Proof.
  destruct (snapshot_is_mirrored
              ([Server.OpJoinLobby 0 "s1" "room" None;
                Server.OpJoinLobby 1 "s2" "room" None] ++ scenarioOps)
              "room" scenarioRoom (Page.engine Page.loaded))
    as (s1 & H1 & H2 & _); [by vm_compute | by vm_compute |].
  exists s1. split; [exact H1 | exact H2].
Defined.

Lemma handlePlayerMove_online_sends rnd i (s : Client.Local) :
  Client.onlineMode s = true -> Client.socket s = true ->
  (Client.handlePlayerMove rnd i s).2
  = if bool_decide (i < 9)
       && Client.isGameCurrentlyActive s
       && bool_decide (Client.currentGameBoard s !! i = Some None
                       \/ Client.currentGameBoard s !! i = None)
       && negb (Client.isProcessingMove s)
       && bool_decide (Client.myMark s = Some (Client.currentPlayer s))
    then Some i else None.
Proof.
  intros Hon Hso. unfold Client.handlePlayerMove. rewrite Hon, Hso.
  destruct (decide (i < 9)) as [Hi | Hi].
  2: { rewrite (bool_decide_eq_true_2 (9 <= i)) by lia.
       by rewrite (bool_decide_eq_false_2 (i < 9)) by lia. }
  rewrite (bool_decide_eq_false_2 (9 <= i)) by lia.
  rewrite (bool_decide_eq_true_2 (i < 9)) by lia.
  destruct (Client.isGameCurrentlyActive s); [|done].
  assert (bool_decide (is_Some (mjoin (Client.currentGameBoard s !! i)))
          = negb (bool_decide
                    (Client.currentGameBoard s !! i = Some None
                     \/ Client.currentGameBoard s !! i = None))) as ->.
  { by destruct (Client.currentGameBoard s !! i) as [[held|]|]. }
  destruct (bool_decide (_ \/ _)); [|done].
  destruct (Client.isProcessingMove s); [done|].
  assert (bool_decide (Some (Client.currentPlayer s) = Client.myMark s)
          = bool_decide (Client.myMark s = Some (Client.currentPlayer s)))
    as ->.
  { apply bool_decide_ext. split; congruence. }
  by destruct (bool_decide _).
Qed.

(** A click on a cell: the page sends the index exactly when the server
    accepts the move. *)
Lemma cell_click_and_server
    (rnd : nat -> nat) (now : Z) (socketId lobby : string) (m : Mark)
    (st : Server.State) (room : Server.Room) (s s1 : Client.Local)
    (i : nat) :
  Server.lobbyOf socketId st = Some lobby ->
  Server.rooms st !! lobby = Some room ->
  Server.markOf socketId st = Some m ->
  length (Server.board room) = 9 ->
  length (Client.currentGameBoard s) = 9 ->
  Client.onlineMode s = true -> Client.socket s = true ->
  Page.renderFromRoomState room (Page.set_myMark (Some m) s) = Some s1 ->
  ((Client.handlePlayerMove rnd i s1).2 = Some i ->
   Server.makeMove now socketId (Server.JsInteger (Z.of_nat i)) st
   = (Server.set_rooms
        (<[lobby := Server.applyMove i m room]> (Server.rooms st)) st,
      [Server.toRoom lobby
         (Server.roomState (Server.applyMove i m room) lobby None)]))
  /\ ((Client.handlePlayerMove rnd i s1).2 = None ->
      Server.makeMove now socketId (Server.JsInteger (Z.of_nat i)) st
      = (st, []))
  /\ ((Client.handlePlayerMove rnd i s1).2 = Some i
      \/ (Client.handlePlayerMove rnd i s1).2 = None).
Proof.
  intros Hl Hroom Hmark Hlen Hlen' Hon Hso Hrender.
  destruct (renderFromRoomState_mirrors room (Page.set_myMark (Some m) s)
              Hlen Hlen')
    as (s1' & Hr & Hb & Ha & Hc & Hp & _ & (F1 & F2 & F3 & F4)).
  rewrite Hrender in Hr. injection Hr as <-.
  rewrite (handlePlayerMove_online_sends rnd i s1) by (simpl in *; congruence).
  rewrite Hb, Ha, Hc, Hp, F4. simpl.
  destruct (bool_decide (i < 9)) eqn:Hi; simpl; cycle 1.
  { apply bool_decide_eq_false in Hi.
    split; [done|]. split; [|by right]. intros _.
    rewrite (makeMove_illegal now socketId lobby _ st Hl);
      [by rewrite (getRoom_existing _ _ _ _ Hroom)|].
    right. left. left. lia. }
  apply bool_decide_eq_true in Hi.
  destruct (Server.isActive room) eqn:Hact; simpl; cycle 1.
  { split; [done|]. split; [|by right]. intros _.
    rewrite (makeMove_illegal now socketId lobby _ st Hl);
      [by rewrite (getRoom_existing _ _ _ _ Hroom)|].
    left. by rewrite (getRoom_existing _ _ _ _ Hroom). }
  destruct (Server.board room !! i) as [[held|]|] eqn:Hcell; simpl.
  - split; [done|]. split; [|by right]. intros _.
    rewrite (makeMove_illegal now socketId lobby _ st Hl);
      [by rewrite (getRoom_existing _ _ _ _ Hroom)|].
    right. left. right. rewrite (getRoom_existing _ _ _ _ Hroom). simpl.
    rewrite Nat2Z.id. eauto.
  - case_bool_decide as Hm; simpl.
    + split; [|split; [done | by left]]. intros _.
      assert (m = Server.currentPlayer room) as -> by congruence.
      pose proof (makeMove_legal now socketId lobby (Z.of_nat i) room st
                    Hl Hroom Hact) as Hlegal.
      simpl in Hlegal. rewrite Nat2Z.id in Hlegal.
      apply Hlegal; [lia | done | done].
    + split; [done|]. split; [|by right]. intros _.
      rewrite (makeMove_illegal now socketId lobby _ st Hl);
        [by rewrite (getRoom_existing _ _ _ _ Hroom)|].
      right. right. rewrite (getRoom_existing _ _ _ _ Hroom), Hmark. simpl.
      congruence.
  - apply lookup_ge_None in Hcell. unfold Cell in *. lia.
Qed.

(** X18: a click of a page in online mode and the server.  The page has
    received the snapshot of the room of its socket, with the mark of the
    socket.  For a click whose target is a cell, the page sends [makeMove]
    with the index of the cell exactly when the server accepts the move: when
    the page sends the index, the server writes the mark and broadcasts the
    new room; when the page ignores the click, the server would have ignored
    the request.  For a click whose target is an element inside a cell, such
    as the mark of an occupied cell, they differ: when the game is active and
    it is the turn of the page, the page sets [isProcessingMove] and sends
    [NaN] as index, a request that the server ignores without an answer, and
    the page ignores every click on a cell from then on; otherwise the page
    ignores the click. *)
Theorem online_click_and_the_server
    (rnd : nat -> nat) (now : Z) (socketId lobby : string) (m : Mark)
    (st : Server.State) (room : Server.Room) (s s1 : Client.Local)
    (i : nat) :
  Server.lobbyOf socketId st = Some lobby ->
  Server.rooms st !! lobby = Some room ->
  Server.markOf socketId st = Some m ->
  length (Server.board room) = 9 ->
  length (Client.currentGameBoard s) = 9 ->
  Client.onlineMode s = true -> Client.socket s = true ->
  Page.renderFromRoomState room (Page.set_myMark (Some m) s) = Some s1 ->
  ((Client.handlePlayerMove rnd i s1).2 = Some i ->
   Server.makeMove now socketId (Server.JsInteger (Z.of_nat i)) st
   = (Server.set_rooms
        (<[lobby := Server.applyMove i m room]> (Server.rooms st)) st,
      [Server.toRoom lobby
         (Server.roomState (Server.applyMove i m room) lobby None)]))
  /\ ((Client.handlePlayerMove rnd i s1).2 = None ->
      Server.makeMove now socketId (Server.JsInteger (Z.of_nat i)) st
      = (st, []))
  /\ ((Client.handlePlayerMove rnd i s1).2 = Some i
      \/ (Client.handlePlayerMove rnd i s1).2 = None)
  /\ (forall held,
        Client.handlePlayerMove_inside held s1
        = if Server.isActive room && negb held
             && bool_decide (m = Server.currentPlayer room)
          then (Client.set_isProcessingMove true s1, Client.emitsNaN)
          else (s1, Client.nothing))
  /\ Server.makeMove now socketId Server.JsOther st = (st, [])
  /\ (forall j,
        Client.handlePlayerMove rnd j (Client.set_isProcessingMove true s1)
        = (Client.set_isProcessingMove true s1, None)).
Proof.
  intros Hl Hroom Hmark Hlen Hlen' Hon Hso Hrender.
  destruct (cell_click_and_server rnd now socketId lobby m st room s s1 i
              Hl Hroom Hmark Hlen Hlen' Hon Hso Hrender) as (C1 & C2 & C3).
  do 3 (split; [done|]).
  destruct (renderFromRoomState_mirrors room (Page.set_myMark (Some m) s)
              Hlen Hlen')
    as (s1' & Hr & Hb & Ha & Hc & Hp & _ & (F1 & F2 & F3 & F4)).
  rewrite Hrender in Hr. injection Hr as <-.
  simpl in F1, F2, F4. split; [|split].
  - intros held. unfold Client.handlePlayerMove_inside.
    rewrite Ha, Hc, Hp, F1, F2, F4, Hon, Hso.
    destruct (Server.isActive room), held; simpl; try done.
    rewrite (bool_decide_ext (Some (Server.currentPlayer room) = Some m)
               (m = Server.currentPlayer room)) by (split; congruence).
    by destruct (bool_decide (m = Server.currentPlayer room)).
  - rewrite (makeMove_illegal now socketId lobby _ st Hl);
      [by rewrite (getRoom_existing _ _ _ _ Hroom)|].
    right. by left.
  - intros j. apply handlePlayerMove_ignored. right. right. by left.
Qed.

Lemma online_click_and_the_server_witness :
  Server.makeMove 3 "s1" (Server.JsInteger 0) twoPlayers
  = (Server.set_rooms
       (<["room" := Server.applyMove 0 X joinedRoom]>
          (Server.rooms twoPlayers)) twoPlayers,
     [Server.toRoom "room"
        (Server.roomState (Server.applyMove 0 X joinedRoom) "room" None)])
  /\ Client.handlePlayerMove_inside false mirroredEngine
     = (Client.set_isProcessingMove true mirroredEngine, Client.emitsNaN)
  /\ Server.makeMove 3 "s1" Server.JsOther twoPlayers = (twoPlayers, []).
Proof.
  assert (Server.lobbyOf "s1" twoPlayers = Some "room") as H1
    by (vm_compute; reflexivity).
  assert (Server.rooms twoPlayers !! "room" = Some joinedRoom) as H2
    by (vm_compute; reflexivity).
  assert (Server.markOf "s1" twoPlayers = Some X) as H3
    by (vm_compute; reflexivity).
  assert (length (Server.board joinedRoom) = 9) as H4
    by (vm_compute; reflexivity).
  assert (length (Client.currentGameBoard joinedEngine) = 9) as H5
    by (vm_compute; reflexivity).
  assert (Client.onlineMode joinedEngine = true) as H6
    by (vm_compute; reflexivity).
  assert (Client.socket joinedEngine = true) as H7
    by (vm_compute; reflexivity).
  assert (Page.renderFromRoomState joinedRoom
            (Page.set_myMark (Some X) joinedEngine) = Some mirroredEngine)
    as H8 by (vm_compute; reflexivity).
  destruct (online_click_and_the_server (fun _ => 0) 3 "s1" "room"
              X twoPlayers joinedRoom joinedEngine mirroredEngine 0
              H1 H2 H3 H4 H5 H6 H7 H8) as (C1 & _ & _ & C4 & C5 & _).
  split; [|split; [|exact C5]].
  - apply C1. vm_compute. reflexivity.
  - rewrite (C4 false). vm_compute. reflexivity.
Defined.

(** ** Disposal of a room *)

Section Disposal.
Import Server.

Lemma socketsIn_after_disconnect s l st :
  socketsIn l
    (mkState (rooms st)
       ((fun x : gset string => x ∖ {[s]}) <$> adapterRooms st)
       (delete s (socketData st)) (timers st))
  = socketsIn l st ∖ {[s]}.
Proof.
  unfold socketsIn. simpl. rewrite lookup_fmap.
  destruct (adapterRooms st !! l); simpl; [done|].
  apply leibniz_equiv. intros x. rewrite elem_of_difference.
  split; [intros H; by apply not_elem_of_empty in H | by intros [? _]].
Qed.

Lemma disconnect_last s l st room :
  lobbyOf s st = Some l -> rooms st !! l = Some room ->
  socketsIn l st = {[s]} ->
  disconnect s st
  = mkState (<[l := mkRoom (board room) (currentPlayer room) (isActive room)
                      (stats room) (createdAt room) (players room ∖ {[s]})]>
               (rooms st))
            ((fun x : gset string => x ∖ {[s]}) <$> adapterRooms st)
            (delete s (socketData st)) (timers st ++ [l]).
Proof.
  intros Hl Hroom Hs. unfold disconnect. rewrite Hl, Hroom.
  rewrite socketsIn_after_disconnect, Hs.
  rewrite bool_decide_eq_true_2; [done|].
  assert (({[s]} : gset string) ∖ {[s]} = ∅) as ->; [|done].
  apply leibniz_equiv. intros x. rewrite elem_of_difference.
  split; [by intros [? ?] | intros H; by apply not_elem_of_empty in H].
Qed.

End Disposal.

(** X19: the life of a room.  When the only socket of a lobby disconnects,
    in a state that the server reaches, the room keeps its board, its turn
    and its statistics, the lobby is left without a socket and a clean-up
    timer is armed; when the timer fires the room is deleted.  When a socket
    joins the lobby before the timer fires, the timer leaves the room, with
    the same statistics. *)
Theorem room_is_disposed_after_the_last_disconnect
    (ops : list Server.Op) (s l : string) :
  Server.lobbyOf s (Server.run ops Server.initial) = Some l ->
  Server.socketsIn l (Server.run ops Server.initial) = {[s]} ->
  exists room,
    Server.rooms (Server.run ops Server.initial) !! l = Some room
    /\ exists room1,
         Server.rooms
           (Server.disconnect s (Server.run ops Server.initial)) !! l
         = Some room1
         /\ Server.board room1 = Server.board room
         /\ Server.currentPlayer room1 = Server.currentPlayer room
         /\ Server.isActive room1 = Server.isActive room
         /\ Server.stats room1 = Server.stats room
         /\ l ∈ Server.timers
                 (Server.disconnect s (Server.run ops Server.initial))
         /\ Server.socketsIn l
              (Server.disconnect s (Server.run ops Server.initial)) = ∅
         /\ Server.rooms
              (Server.cleanup l
                 (Server.disconnect s (Server.run ops Server.initial))) !! l
            = None
         /\ forall now s' l' requested,
              trim l' = l ->
              exists room2,
                Server.rooms
                  (Server.cleanup l
                     (Server.joinLobby now s' l' requested
                        (Server.disconnect s
                           (Server.run ops Server.initial))).1) !! l
                = Some room2
                /\ Server.stats room2 = Server.stats room
                /\ Server.board room2 = Server.board room.
Proof.
  intros Hl Hs.
  destruct (membersHaveRooms_reachable ops s l Hl) as [_ [room Hroom]].
  exists room. split; [done|].
  rewrite (disconnect_last s l _ room Hl Hroom Hs).
  eexists. split; [simpl; apply lookup_insert_eq|]. simpl.
  repeat (split; [done|]).
  assert (l <> EmptyString) as Hne.
  { unfold Server.lobbyOf in Hl.
    destruct (Server.socketData _ !! s) as [d|]; [|done].
    destruct (Server.lobbyId d) as [l0|]; [|done].
    case_bool_decide; [done|]. congruence. }
  assert (Server.socketsIn l
            (Server.mkState
               (<[l := Server.mkRoom (Server.board room)
                         (Server.currentPlayer room) (Server.isActive room)
                         (Server.stats room) (Server.createdAt room)
                         (Server.players room ∖ {[s]})]>
                  (Server.rooms (Server.run ops Server.initial)))
               ((fun x : gset string => x ∖ {[s]}) <$>
                  Server.adapterRooms (Server.run ops Server.initial))
               (delete s (Server.socketData (Server.run ops Server.initial)))
               (Server.timers (Server.run ops Server.initial) ++ [l]))
          = ∅) as Hempty.
  { unfold Server.socketsIn in *. simpl. rewrite lookup_fmap.
    destruct (Server.adapterRooms _ !! l) as [x|]; simpl in *; [|done].
    subst x. apply leibniz_equiv. intros y. rewrite elem_of_difference.
    split; [by intros [? ?] | intros H; by apply not_elem_of_empty in H]. }
  split; [apply elem_of_app; right; left|].
  split; [exact Hempty|]. split.
  - unfold Server.cleanup. simpl.
    rewrite bool_decide_eq_true_2 by (apply elem_of_app; right; left).
    rewrite Hempty. simpl. apply lookup_delete_eq.
  - intros now s' l' requested Htrim. unfold Server.joinLobby.
    rewrite Htrim. rewrite bool_decide_eq_false_2 by done.
    erewrite getRoom_existing; [|simpl; apply lookup_insert_eq].
    simpl. eexists. split; [|split].
    + unfold Server.cleanup. simpl.
      destruct (bool_decide (l ∈ _)); [|simpl; apply lookup_insert_eq].
      simpl. rewrite bool_decide_eq_false_2; [apply lookup_insert_eq|].
      unfold Server.socketsIn. simpl. rewrite lookup_insert_eq. simpl.
      intros Hsize. apply size_empty_inv, leibniz_equiv in Hsize.
      assert (s' ∈ ({[s']} ∪ default ∅
                       (((fun x : gset string => x ∖ {[s]}) <$>
                           Server.adapterRooms (Server.run ops Server.initial))
                          !! l) : gset string)) as Hin.
      { apply elem_of_union_l. by apply elem_of_singleton. }
      unfold Server.socketsIn in Hsize. simpl in Hsize.
      rewrite Hsize in Hin. by apply not_elem_of_empty in Hin.
    + reflexivity.
    + reflexivity.
Qed.

Lemma room_is_disposed_after_the_last_disconnect_witness :
  Server.rooms
    (Server.cleanup "other" (Server.disconnect "s3" twoLobbies)) !! "other"
  = None.
Proof.
  destruct (room_is_disposed_after_the_last_disconnect
              [Server.OpJoinLobby 0 "s1" "room" None;
               Server.OpJoinLobby 1 "s2" "room" None;
               Server.OpJoinLobby 2 "s3" "other" None] "s3" "other")
    as (room & _ & room1 & _ & _ & _ & _ & _ & _ & _ & Hgone & _);
    [by vm_compute | by vm_compute |].
  exact Hgone.
Defined.

(** X20: the page and the server name the lobby alike.  When the text of
    the lobby input is not blank, the page records the trimmed text as its
    lobby and sends it; the server, which trims what it receives, records the
    same identifier for the socket and answers with a snapshot for this
    identifier, which the page keeps as its lobby. *)
Theorem page_and_server_agree_on_the_lobby
    (rnd : nat -> nat) (now : Z) (socketId text : string)
    (p : Page.Page) (st : Server.State) :
  trim text <> EmptyString ->
  Client.onlineMode (Page.engine p) = false ->
  let p1 := (Page.step rnd (Page.JoinLobbyBtn text) p).1 in
  let st1 := (Server.joinLobby now socketId (trim text) None st).1 in
  (Page.step rnd (Page.JoinLobbyBtn text) p).2
  = [Page.emitJoinLobby (trim text)]
  /\ Page.currentLobbyId p1 = Some (trim text)
  /\ Client.onlineMode (Page.engine p1) = true
  /\ Server.lobbyOf socketId st1 = Some (trim text)
  /\ exists room mark,
       head (Server.joinLobby now socketId (trim text) None st).2
       = Some (Server.toSocket socketId
                 (Server.roomState room (trim text) (Some mark)))
       /\ Server.rooms st1 !! trim text = Some room
       /\ Page.currentLobbyId
            (Page.onRoomState room (trim text) (Some mark) p1)
          = Some (trim text).
Proof.
  intros Hne Hoff. simpl.
  rewrite (bool_decide_eq_false_2 (trim text = EmptyString)) by done.
  unfold Page.joinLobby.
  rewrite (bool_decide_eq_false_2 (trim text = EmptyString)) by done.
  rewrite Hoff. simpl.
  split; [done|]. split; [done|].
  split; [by destruct (Page.engine p) as [[] ? ? ? ? ? ? ? ? ? ? ?]|].
  unfold Server.joinLobby. rewrite trim_idempotent.
  rewrite (bool_decide_eq_false_2 (trim text = EmptyString)) by done.
  destruct (Server.getRoom now (trim text) st) as [room0 st0]. simpl.
  unfold Server.lobbyOf. simpl. rewrite lookup_insert_eq. simpl.
  rewrite (bool_decide_eq_false_2 (trim text = EmptyString)) by done.
  split; [done|]. eexists _, _. split; [reflexivity|].
  split; [apply lookup_insert_eq|].
  unfold Page.onRoomState.
  rewrite (bool_decide_eq_false_2 (trim text = EmptyString)) by done.
  by destruct (Page.renderFromRoomState _ _).
Qed.

Lemma page_and_server_agree_on_the_lobby_witness :
  Page.currentLobbyId
    (Page.step (fun _ => 0) (Page.JoinLobbyBtn "  room ") Page.loaded).1
  = Some "room"
  /\ Server.lobbyOf "s1"
       (Server.joinLobby 0 "s1" "room" None Server.initial).1 = Some "room".
Proof.
  destruct (page_and_server_agree_on_the_lobby (fun _ => 0) 0 "s1" "  room "
              Page.loaded Server.initial)
    as (_ & H1 & _ & H2 & _); [by vm_compute | by vm_compute |].
  split; [exact H1 | exact H2].
Defined.
